(** * pubsubd: a shallow embedding of the broker engine of [main.go]

    The definitions follow the source file top to bottom: the [MessageQueue]
    type with its [heap.Interface] methods, the functions of Go's
    [container/heap] that the program calls on it, the global state ([subs],
    [topic], the data directory), the six top-level functions and the four
    HTTP handlers registered in [main].  [Concurrent] gives the
    statement-level interleaving semantics of [GetSubscription] and
    [DestroySubscription] under the registry mutex [subsMu].

    The theorems come after all definitions, component by component: the heap
    operations, [FindUnAckedMessageIds], [AckMessages], [GetSubscription],
    the handlers, the counter, and the goroutines.  A second part goes on
    with the heap order of the queues, the data directory, what each handler
    does to the registry and to the queues, and the release of [subsMu]. *)

From Stdlib Require Import ZArith Lia Ascii String.
From stdpp Require Import gmap strings list fin_maps.

#[local] Open Scope Z_scope.

(** ** Machine integers

    [uint64] values are kept in [Z]; every arithmetic operation of the source
    on them is followed by the reduction modulo 2^64 that the hardware does.
    [int] values that index a slice are bounded by the slice's length and are
    kept in [Z] as they are. *)

Definition uint64_modulus : Z := 2 ^ 64.

Definition uint64 (z : Z) : Z := z mod uint64_modulus.

(** ** Results of running Go code

    [Ok a] is normal termination, [Panic] a run-time panic (index out of
    range, [make] with a negative length).  The loops of [container/heap] are
    bounded in the model by a counter; [OutOfFuel] says that the counter was
    exhausted and is kept apart from [Panic] so that no theorem mistakes one
    for the other. *)

Inductive result (A : Type) : Type :=
| Ok (a : A)
| Panic
| OutOfFuel.

Arguments Ok {A} a.
Arguments Panic {A}.
Arguments OutOfFuel {A}.

(** Code that mutates an object in place and may panic half way: the state
    reached so far survives the panic, as it does in Go. *)

Definition M (S A : Type) : Type := S → result A * S.

Definition ret {S A} (a : A) : M S A := λ s, (Ok a, s).

Definition bind {S A B} (m : M S A) (k : A → M S B) : M S B :=
  λ s, match m s with
       | (Ok a, s') => k a s'
       | (Panic, s') => (Panic, s')
       | (OutOfFuel, s') => (OutOfFuel, s')
       end.

Definition panic {S A} : M S A := λ s, (Panic, s).
Definition out_of_fuel {S A} : M S A := λ s, (OutOfFuel, s).
Definition get {S} : M S S := λ s, (Ok s, s).
Definition put {S} (s : S) : M S unit := λ _, (Ok tt, s).

Notation "'do' x <- m ; k" := (bind m (λ x, k))
  (at level 10, x pattern, m at level 100, k at level 200,
   format "'[v' 'do'  x  <-  m ; '/' k ']'").
Notation "m ;; k" := (bind m (λ _, k))
  (at level 100, k at level 200, right associativity).

(** ** [MessageQueue] and its [heap.Interface] methods *)

Abbreviation MessageQueue := (list Z).

(** [q[i]] with Go's bounds check. *)
Definition at_index (i : Z) : M MessageQueue Z :=
  λ q, if bool_decide (0 ≤ i)
       then match q !! Z.to_nat i with
            | Some x => (Ok x, q)
            | None => (Panic, q)
            end
       else (Panic, q).

Definition Len : M MessageQueue Z := λ q, (Ok (Z.of_nat (length q)), q).

Definition Less (i j : Z) : M MessageQueue bool :=
  do a <- at_index i;
  do b <- at_index j;
  ret (a <? b).

(** [q[i], q[j] = q[j], q[i]]: both operands are read, then both are stored. *)
Definition Swap (i j : Z) : M MessageQueue unit :=
  do b <- at_index j;
  do a <- at_index i;
  λ q, (Ok tt, <[Z.to_nat j := a]> (<[Z.to_nat i := b]> q)).

Definition Push (x : Z) : M MessageQueue unit :=
  λ q, (Ok tt, q ++ [x]).

Definition Pop : M MessageQueue Z :=
  do n <- Len;
  do item <- at_index (n - 1);
  λ q, (Ok item, take (Z.to_nat (n - 1)) q).

(** ** The functions of [container/heap] used by the program

    Transcribed from the Go standard library.  [up] and [down] are its two
    private loops; [j] strictly decreases in the first and [i] strictly
    increases below [n] in the second, so a counter one above the length of
    the queue is never exhausted. *)

Module heap.

Fixpoint up_loop (fuel : nat) (j : Z) : M MessageQueue unit :=
  match fuel with
  | O => out_of_fuel
  | S fuel' =>
      let i := (j - 1) `quot` 2 in (* parent *)
      if bool_decide (i = j) then ret tt
      else
        do lt <- Less j i;
        if negb lt then ret tt
        else Swap i j;; up_loop fuel' i
  end.

Definition up (j : Z) : M MessageQueue unit :=
  λ q, up_loop (S (length q)) j q.

Fixpoint down_loop (fuel : nat) (i0 i n : Z) : M MessageQueue bool :=
  match fuel with
  | O => out_of_fuel
  | S fuel' =>
      let j1 := 2 * i + 1 in
      if bool_decide (n ≤ j1 ∨ j1 < 0) then ret (bool_decide (i0 < i))
      else
        let j2 := j1 + 1 in
        do second <- (if bool_decide (j2 < n) then Less j2 j1 else ret false);
        let j := if second then j2 else j1 in
        do lt <- Less j i;
        if negb lt then ret (bool_decide (i0 < i))
        else Swap i j;; down_loop fuel' i0 j n
  end.

Definition down (i0 n : Z) : M MessageQueue bool :=
  λ q, down_loop (S (length q)) i0 i0 n q.

(** [for i := n/2 - 1; i >= 0; i--]: [k] is [i + 1]. *)
Fixpoint Init_loop (k : nat) (n : Z) : M MessageQueue unit :=
  match k with
  | O => ret tt
  | S i => down (Z.of_nat i) n;; Init_loop i n
  end.

Definition Init : M MessageQueue unit :=
  do n <- Len;
  Init_loop (Z.to_nat (n `quot` 2 - 1 + 1)) n.

Definition Push (x : Z) : M MessageQueue unit :=
  Push x;;
  do n <- Len;
  up (n - 1).

Definition Remove (i : Z) : M MessageQueue Z :=
  do len <- Len;
  let n := len - 1 in
  (if bool_decide (n ≠ i)
   then Swap i n;;
        do moved <- down i n;
        if negb moved then up i else ret tt
   else ret tt);;
  Pop.

End heap.

(** ** Global state

    [subs] maps a name to a pointer; the [Subscription] objects themselves
    live in the Go heap, modelled by [objs].  An object that is no longer
    registered stays in [objs] (nothing in the program frees it, and a handler
    may still hold its pointer).  The data directory is [files]: the file of
    message [id] is named by the decimal form of [id], so the model keys it by
    [id]; a file that is not there cannot be read. *)

Abbreviation loc := nat.

Record Subscription : Type := {
  Name : string;
  UnAcked : MessageQueue;
}.

Record Topic : Type := {
  TopicName : string;
  NextMesgID : Z;
}.

Record State : Type := {
  subs : gmap string loc;
  objs : gmap loc Subscription;
  topic : Topic;
  files : gmap Z string;
}.

Definition initial (fs : gmap Z string) : State :=
  {| subs := ∅;
     objs := ∅;
     topic := {| TopicName := "<default-topic>"; NextMesgID := 0 |};
     files := fs |}.

(** Running code on one component of the state. *)

Definition on_sub {A} (sub : loc) (m : M MessageQueue A) : M State A :=
  λ s, match objs s !! sub with
       | None => (Panic, s) (* nil dereference *)
       | Some o =>
           let '(r, q) := m (UnAcked o) in
           (r, {| subs := subs s;
                  objs := <[sub := {| Name := Name o; UnAcked := q |}]>
                            (objs s);
                  topic := topic s;
                  files := files s |})
       end.

Definition on_topic {A} (m : M Topic A) : M State A :=
  λ s, let '(r, t) := m (topic s) in
       (r, {| subs := subs s; objs := objs s; topic := t; files := files s |}).

Definition on_files {A} (m : M (gmap Z string) A) : M State A :=
  λ s, let '(r, f) := m (files s) in
       (r, {| subs := subs s; objs := objs s; topic := topic s; files := f |}).

(** [&Subscription{...}]: a fresh address. *)
Definition new_Subscription (o : Subscription) : M State loc :=
  λ s, let p := fresh (dom (objs s)) in
       (Ok p, {| subs := subs s; objs := <[p := o]> (objs s);
                 topic := topic s; files := files s |}).

Definition subs_store (name : string) (sub : loc) : M State unit :=
  λ s, (Ok tt, {| subs := <[name := sub]> (subs s); objs := objs s;
                  topic := topic s; files := files s |}).

Definition subs_delete (name : string) : M State unit :=
  λ s, (Ok tt, {| subs := delete name (subs s); objs := objs s;
                  topic := topic s; files := files s |}).

(** ** Requests

    [Form] is [r.Form] after [r.ParseForm()], a [url.Values]
    ([map[string][]string]); [Path] selects the handler. *)

Record Request : Type := {
  Method : string;
  Path : string;
  Form : gmap string (list string);
}.

(** [url.Values.Get]: the first value of the key, or the empty string. *)
Definition Form_Get (r : Request) (key : string) : string :=
  match Form r !! key with
  | Some (v :: _) => v
  | _ => ""
  end.

(** [r.Form[key]]. *)
Definition Form_index (r : Request) (key : string) : list string :=
  default [] (Form r !! key).

(** ** Library functions on strings

    [validSubRegexp] is [^([a-zA-Z])([a-zA-Z0-9_-])*$]; in Go's syntax, with
    no flag set, [$] matches at the end of the text only. *)

Definition ascii_between (lo hi : nat) (c : ascii) : bool :=
  let n := nat_of_ascii c in ((lo <=? n) && (n <=? hi))%nat.

Definition is_letter (c : ascii) : bool :=
  ascii_between 65 90 c || ascii_between 97 122 c.

Definition is_digit (c : ascii) : bool := ascii_between 48 57 c.

Definition is_name_char (c : ascii) : bool :=
  is_letter c || is_digit c || bool_decide (c = "_"%char)
  || bool_decide (c = "-"%char).

Definition validSubRegexp_MatchString (name : string) : bool :=
  match name with
  | EmptyString => false
  | String c rest =>
      is_letter c && forallb is_name_char (list_ascii_of_string rest)
  end.

(** Decimal digits, most significant first. *)
Fixpoint parse_digits (acc : Z) (s : string) : option Z :=
  match s with
  | EmptyString => Some acc
  | String c rest =>
      if is_digit c
      then parse_digits (10 * acc + (Z.of_nat (nat_of_ascii c) - 48)) rest
      else None
  end.

(** [strconv.ParseUint(s, 10, 64)]: one or more digits, at most 2^64 - 1;
    [None] is a non-nil [err]. *)
Definition ParseUint (s : string) : option Z :=
  match s with
  | EmptyString => None
  | _ => match parse_digits 0 s with
         | Some v => if bool_decide (v < uint64_modulus) then Some v else None
         | None => None
         end
  end.

(** [strconv.Atoi] with a 64-bit [int]: an optional sign, then what
    [ParseUint] reads, within [-2^63, 2^63 - 1]. *)
Definition Atoi (s : string) : option Z :=
  match s with
  | EmptyString => None
  | String c rest =>
      let neg := bool_decide (c = "-"%char) in
      let digits := if neg || bool_decide (c = "+"%char) then rest else s in
      match ParseUint digits with
      | None => None
      | Some un =>
          if neg
          then if bool_decide (un ≤ 2 ^ 63) then Some (- un) else None
          else if bool_decide (un < 2 ^ 63) then Some un else None
      end
  end.

(** ** The top-level functions of [main.go] *)

(** [GetSubscription]; [None] is the pair [(nil, false)], returned after the
    header [400] has been written. *)
Definition GetSubscription (r : Request) : M State (option loc) :=
  let name := Form_Get r "sub" in
  if negb (validSubRegexp_MatchString name) then ret None
  else
    do s <- get;
    match subs s !! name with
    | Some sub => ret (Some sub)
    | None =>
        do sub <- new_Subscription {| Name := name; UnAcked := [] |};
        on_sub sub heap.Init;;
        subs_store name sub;;
        ret (Some sub)
    end.

Definition DestroySubscription (sub : loc) : M State unit :=
  do s <- get;
  match objs s !! sub with
  | None => panic
  | Some o => subs_delete (Name o)
  end.

Definition CreateMessageIds (nMessage : Z) : M Topic Z :=
  λ t, let baseID := NextMesgID t in
       (Ok baseID,
        {| TopicName := TopicName t;
           NextMesgID := uint64 (NextMesgID t + uint64 nMessage) |}).

Definition FindUnAckedMessageIds (maxMessages : Z) : M MessageQueue (list Z) :=
  do len <- Len;
  let n := if bool_decide (len < maxMessages) then len else maxMessages in
  if bool_decide (n < 0) then panic (* make([]uint64, n) *)
  else λ q, (Ok (take (Z.to_nat n) q), q).

(** The first loop of [PutMessages].  [wfail] is the environment: the ids
    whose file cannot be written.  The result is [true] when [err] is nil. *)
Fixpoint PutMessages_write (wfail : list Z) (baseID i : Z)
    (messages : list string) : M (gmap Z string) bool :=
  match messages with
  | [] => ret true
  | m :: rest =>
      let id := uint64 (baseID + uint64 i) in
      if bool_decide (id ∈ wfail) then ret false
      else (λ f, (Ok tt, <[id := m]> f));;
           PutMessages_write wfail baseID (i + 1) rest
  end.

(** [for i := baseID; i < bound; i++ { heap.Push(&sub.UnAcked, i) }];
    [k] is the number of iterations left. *)
Fixpoint PutMessages_push (k : nat) (i : Z) : M MessageQueue unit :=
  match k with
  | O => ret tt
  | S k' => heap.Push i;; PutMessages_push k' (i + 1)
  end.

Fixpoint PutMessages_range (targets : list (string * loc)) (baseID bound : Z)
    : M State unit :=
  match targets with
  | [] => ret tt
  | (_, sub) :: rest =>
      on_sub sub (PutMessages_push (Z.to_nat (bound - baseID)) baseID);;
      PutMessages_range rest baseID bound
  end.

Definition PutMessages (wfail : list Z) (messages : list string) (baseID : Z)
    : M State bool :=
  do ok <- on_files (PutMessages_write wfail baseID 0 messages);
  if negb ok then ret false
  else
    do s <- get;
    PutMessages_range (map_to_list (subs s)) baseID
      (uint64 (baseID + uint64 (Z.of_nat (length messages))));;
    ret true.

(** [GetMessages]: the map read so far and whether [err] is nil. *)
Fixpoint GetMessages_loop (ids : list Z) (messages : gmap Z string)
    (fs : gmap Z string) : gmap Z string * bool :=
  match ids with
  | [] => (messages, true)
  | id :: rest =>
      match fs !! id with
      | None => (messages, false)
      | Some bs => GetMessages_loop rest (<[id := bs]> messages) fs
      end
  end.

Definition GetMessages (ids : list Z) : M State (gmap Z string * bool) :=
  do s <- get;
  ret (GetMessages_loop ids ∅ (files s)).

(** The loop of [AckMessages]: [k] is [i + 1]. *)
Fixpoint AckMessages_loop (k : nat) (idMap : gmap Z bool) (nID : Z)
    : M MessageQueue unit :=
  match k with
  | O => ret tt
  | S i =>
      if bool_decide (nID = 0) then ret tt
      else
        do x <- at_index (Z.of_nat i);
        if default false (idMap !! x)
        then heap.Remove (Z.of_nat i);; AckMessages_loop i idMap (nID - 1)
        else AckMessages_loop i idMap nID
  end.

Definition AckMessages (ids : list Z) : M MessageQueue unit :=
  let idMap := foldl (λ (m : gmap Z bool) k, <[k := true]> m) ∅ ids in
  let nID := foldl (λ n _, n + 1) 0 ids in
  λ q, AckMessages_loop (length q) idMap nID q.

(** ** The handlers of [main] *)

Record JSONResponse : Type := {
  NMessage : Z;
  Messages : gmap Z string;
}.

(** [marshall] up to the call of [json.Marshal]: the value it builds and
    hands over.  The bytes [json.Marshal] makes of it are not modelled; they
    are the client's view of the value, and not always the same thing (an
    invalid UTF-8 sequence in a body is written as U+FFFD).  On a value of
    this type [json.Marshal] returns no error. *)
Definition marshall (messages : gmap Z string) : JSONResponse :=
  {| NMessage := Z.of_nat (size messages); Messages := messages |}.

(** What a handler answers: the status and, for a pull, the value handed to
    [json.Marshal], whose encoding is the body.  A handler that returns
    without a call of [WriteHeader] answers [200]. *)
Record Response : Type := {
  status : Z;
  body : option JSONResponse;
}.

Definition StatusOK : Z := 200.
Definition StatusBadRequest : Z := 400.
Definition StatusNotFound : Z := 404.
Definition StatusMethodNotAllowed : Z := 405.
Definition StatusInternalServerError : Z := 500.
Definition MethodPost : string := "POST".

Definition respond (st : Z) : M State Response :=
  ret {| status := st; body := None |}.

Definition send_handler (wfail : list Z) (r : Request) : M State Response :=
  if negb (bool_decide (Method r = MethodPost))
  then respond StatusMethodNotAllowed
  else
    let messages := Form_index r "message" in
    do baseID <- on_topic (CreateMessageIds (Z.of_nat (length messages)));
    do ok <- PutMessages wfail messages baseID;
    if negb ok then respond StatusInternalServerError
    else respond StatusOK.

Definition unsub_handler (r : Request) : M State Response :=
  if negb (bool_decide (Method r = MethodPost))
  then respond StatusMethodNotAllowed
  else
    do got <- GetSubscription r;
    match got with
    | None => respond StatusBadRequest
    | Some sub => DestroySubscription sub;; respond StatusOK
    end.

Definition pull_handler (r : Request) : M State Response :=
  do got <- GetSubscription r;
  match got with
  | None => respond StatusBadRequest
  | Some sub =>
      match Atoi (Form_Get r "n") with
      | None => respond StatusBadRequest
      | Some nMessage =>
          do messageIDs <- on_sub sub (FindUnAckedMessageIds nMessage);
          do (messages, ok) <- GetMessages messageIDs;
          if negb ok then respond StatusInternalServerError
          else ret {| status := StatusOK; body := Some (marshall messages) |}
      end
  end.

(** The loop of the ack handler over [r.Form["id"]]; [None] is the early
    return with [400]. *)
Fixpoint ack_parse (idStrings : list string) (messageIDs : list Z)
    : option (list Z) :=
  match idStrings with
  | [] => Some messageIDs
  | idString :: rest =>
      match ParseUint idString with
      | None => None
      | Some id => ack_parse rest (messageIDs ++ [uint64 id])
      end
  end.

Definition ack_handler (r : Request) : M State Response :=
  if negb (bool_decide (Method r = MethodPost))
  then respond StatusMethodNotAllowed
  else
    do got <- GetSubscription r;
    match got with
    | None => respond StatusBadRequest
    | Some sub =>
        match ack_parse (Form_index r "id") [] with
        | None => respond StatusBadRequest
        | Some messageIDs =>
            on_sub sub (AckMessages messageIDs);; respond StatusOK
        end
    end.

(** The default [ServeMux] with the four registered patterns, for a request
    whose [Path] is in canonical form.  (A path with a doubled slash or a dot
    segment reaches no handler either: the mux answers it with a redirect to
    the canonical path, and the state is as it was.) *)
Definition serve (wfail : list Z) (r : Request) : M State Response :=
  if bool_decide (Path r = "/send") then send_handler wfail r
  else if bool_decide (Path r = "/unsub") then unsub_handler r
  else if bool_decide (Path r = "/pull") then pull_handler r
  else if bool_decide (Path r = "/ack") then ack_handler r
  else respond StatusNotFound.

(** A sequence of requests served one after the other.  A panic ends the
    request that raised it (the server recovers it) and the state it left
    behind is where the next request starts. *)
Fixpoint serve_all (rs : list (list Z * Request)) (s : State)
    : list (result Response) * State :=
  match rs with
  | [] => ([], s)
  | (wfail, r) :: rest =>
      let '(o, s1) := serve wfail r s in
      let '(os, s2) := serve_all rest s1 in
      (o :: os, s2)
  end.

(** ** Well-formed registries

    Every registered pointer is the address of an object that carries the
    name it is registered under. *)

Definition registry_wf (s : State) : Prop :=
  ∀ name sub, subs s !! name = Some sub →
    ∃ o, objs s !! sub = Some o ∧ Name o = name.

(** The queue registered under a name, if any. *)
Definition queue_of (s : State) (name : string) : option MessageQueue :=
  sub ← subs s !! name; o ← objs s !! sub; Some (UnAcked o).

(** The ids a response carries. *)
Definition ids_of (o : result Response) : option (gset Z) :=
  match o with
  | Ok {| body := Some j |} => Some (dom (Messages j))
  | _ => None
  end.

Definition client_error (o : result Response) : Prop :=
  match o with
  | Ok resp => 400 ≤ status resp < 500
  | _ => False
  end.

(** ** Goroutines racing on the registry

    The sequential functions above run a handler from its first line to its
    last.  Here [GetSubscription] and [DestroySubscription] are cut at their
    statements, any number of goroutines run them at once, and [subsMu] is an
    explicit lock: [Lock] is enabled only while the mutex is free.  [live] is
    not program state: it records, for every name, the objects created for it
    since the name was last deleted from [subs]. *)

Module Concurrent.

Inductive pc : Type :=
| Idle                                    (* no request in progress *)
| Get_entry (r : Request)                 (* line 76 *)
| Get_Lock (name : string)                (* line 81 *)
| Get_lookup (name : string)              (* line 83 *)
| Get_new (name : string)                 (* lines 88 to 92 *)
| Get_store (name : string) (sub : loc)   (* line 93 *)
| Get_Unlock (name : string) (sub : loc)  (* line 82, deferred *)
| Get_panic                               (* line 82, deferred, panicking *)
| Got (name : string) (sub : option loc)  (* back in the handler *)
| Destroy_Lock (sub : loc)                (* line 99 *)
| Destroy_delete (sub : loc)              (* line 101 *)
| Destroy_Unlock.                         (* line 100, deferred *)

(** What the scheduler and the environment decide. *)
Inductive choice : Type :=
| Next                          (* run the statement the goroutine is at *)
| Accept (r : Request)          (* a request arrives *)
| CallDestroy                   (* the handler is the one of /unsub *)
| UseQueue (q : MessageQueue)   (* the handler rewrites the queue it holds *)
| Return.                       (* the handler returns *)

Record Config : Type := {
  state : State;
  subsMu : bool;
  live : gmap string (list loc);
  goroutines : list pc;
}.

Definition live_at (lv : gmap string (list loc)) (name : string) : list loc :=
  default [] (lv !! name).

(** Lines 88 to 92: the object is allocated and initialised before any
    other goroutine can see it. *)
Definition Get_new_object (name : string) : M State loc :=
  do sub <- new_Subscription {| Name := name; UnAcked := [] |};
  on_sub sub heap.Init;;
  ret sub.

Definition local_step (p : pc) (ch : choice) (s : State) (mu : bool)
    (lv : gmap string (list loc))
    : option (pc * State * bool * gmap string (list loc)) :=
  match p, ch with
  | Idle, Accept r => Some (Get_entry r, s, mu, lv)
  | Get_entry r, Next =>
      let name := Form_Get r "sub" in
      if negb (validSubRegexp_MatchString name)
      then Some (Got name None, s, mu, lv)
      else Some (Get_Lock name, s, mu, lv)
  | Get_Lock name, Next =>
      if mu then None else Some (Get_lookup name, s, true, lv)
  | Get_lookup name, Next =>
      match subs s !! name with
      | Some sub => Some (Get_Unlock name sub, s, mu, lv)
      | None => Some (Get_new name, s, mu, lv)
      end
  | Get_new name, Next =>
      match Get_new_object name s with
      | (Ok sub, s') =>
          Some (Get_store name sub, s', mu,
                <[name := sub :: live_at lv name]> lv)
      | (_, s') => Some (Get_panic, s', mu, lv)
      end
  | Get_store name sub, Next =>
      Some (Get_Unlock name sub, snd (subs_store name sub s), mu, lv)
  | Get_Unlock name sub, Next => Some (Got name (Some sub), s, false, lv)
  | Get_panic, Next => Some (Idle, s, false, lv)
  | Got _ (Some sub), CallDestroy => Some (Destroy_Lock sub, s, mu, lv)
  | Got name (Some sub), UseQueue q =>
      Some (Got name (Some sub), snd (on_sub sub (put q) s), mu, lv)
  | Got _ _, Return => Some (Idle, s, mu, lv)
  | Destroy_Lock sub, Next =>
      if mu then None else Some (Destroy_delete sub, s, true, lv)
  | Destroy_delete sub, Next =>
      match objs s !! sub with
      | Some o =>
          Some (Destroy_Unlock, snd (subs_delete (Name o) s), mu,
                <[Name o := []]> lv)
      | None => Some (Destroy_Unlock, s, mu, lv)
      end
  | Destroy_Unlock, Next => Some (Idle, s, false, lv)
  | _, _ => None
  end.

(** Goroutine [t] takes one step; [None] when it cannot (it waits for the
    mutex, or the choice does not apply at its program point). *)
Definition step (t : nat) (ch : choice) (c : Config) : option Config :=
  match goroutines c !! t with
  | None => None
  | Some p =>
      match local_step p ch (state c) (subsMu c) (live c) with
      | None => None
      | Some (p', s', mu', lv') =>
          Some {| state := s'; subsMu := mu'; live := lv';
                  goroutines := <[t := p']> (goroutines c) |}
      end
  end.

Fixpoint run (sched : list (nat * choice)) (c : Config) : option Config :=
  match sched with
  | [] => Some c
  | (t, ch) :: rest =>
      match step t ch c with
      | None => None
      | Some c' => run rest c'
      end
  end.

Definition start (n : nat) (fs : gmap Z string) : Config :=
  {| state := initial fs; subsMu := false; live := ∅;
     goroutines := replicate n Idle |}.

(** The program points between [Lock] and [Unlock]. *)
Definition critical (p : pc) : bool :=
  match p with
  | Get_lookup _ | Get_new _ | Get_store _ _ | Get_Unlock _ _ | Get_panic
  | Destroy_delete _ | Destroy_Unlock => true
  | _ => false
  end.

Definition registered (s : State) (name : string) : list loc :=
  match subs s !! name with
  | Some sub => [sub]
  | None => []
  end.

(** What holds as long as no handler has called [DestroySubscription]: a
    handler that has resolved a name holds the object registered under it. *)
Definition resolved_inv (c : Config) : Prop :=
  ∀ t p, goroutines c !! t = Some p →
    match p with
    | Got name (Some sub) => subs (state c) !! name = Some sub
    | Destroy_Lock _ | Destroy_delete _ | Destroy_Unlock => False
    | _ => True
    end.

Definition calls_destroy (ch : choice) : bool :=
  match ch with
  | CallDestroy => true
  | _ => false
  end.

Definition no_destroy (sched : list (nat * choice)) : Prop :=
  forallb (λ '(_, ch), negb (calls_destroy ch)) sched = true.

(** What the holder of the mutex knows at its program point. *)
Definition holder_inv (p : pc) (s : State) (lv : gmap string (list loc))
    : Prop :=
  match p with
  | Get_store name sub =>
      subs s !! name = None ∧ live_at lv name = [sub] ∧
      ∀ name', name' ≠ name → live_at lv name' = registered s name'
  | Get_new name =>
      subs s !! name = None ∧ ∀ name', live_at lv name' = registered s name'
  | Get_Unlock name sub =>
      subs s !! name = Some sub ∧
      ∀ name', live_at lv name' = registered s name'
  | _ => ∀ name', live_at lv name' = registered s name'
  end.

Definition mutex_inv (c : Config) : Prop :=
  if subsMu c
  then ∃ t p,
         goroutines c !! t = Some p ∧ critical p = true ∧
         holder_inv p (state c) (live c) ∧
         ∀ t' p',
           goroutines c !! t' = Some p' → critical p' = true → t' = t
  else (∀ t p, goroutines c !! t = Some p → critical p = false) ∧
       ∀ name, live_at (live c) name = registered (state c) name.

End Concurrent.

(** ** Scenarios

    Requests as [curl] sends them in [test.sh], and the sequences of requests
    the theorems below run. *)

Definition request (method path : string) (form : list (string * list string))
    : Request :=
  {| Method := method; Path := path; Form := list_to_map form |}.

Definition do_pull (sub n : string) : list Z * Request :=
  ([], request "GET" "/pull" [("sub", [sub]); ("n", [n])]).

Definition do_send (messages : list string) : list Z * Request :=
  ([], request "POST" "/send" [("message", messages)]).

Definition do_ack (sub : string) (ids : list string) : list Z * Request :=
  ([], request "POST" "/ack" [("sub", [sub]); ("id", ids)]).

Definition do_unsub (sub : string) : list Z * Request :=
  ([], request "POST" "/unsub" [("sub", [sub])]).

(** Subscribe, publish ids 0 to 3, acknowledge id 0. *)
Definition four_messages_one_ack : list (list Z * Request) :=
  [ do_pull "sub0" "0";
    do_send ["foo"; "bar"; "john"; "paul"];
    do_ack "sub0" ["0"] ].

(** Subscribe, publish ids 0 to 8, acknowledge ids 0, 3 and 4. *)
Definition nine_messages_three_acks : list (list Z * Request) :=
  [ do_pull "sub0" "0";
    do_send ["foo"; "bar"; "john"; "paul"; "george"; "ringo"; "six"; "seven";
             "eight"];
    do_ack "sub0" ["0"; "3"; "4"] ].

(** ** Notions used in the statements *)

(** A property of the state kept by a piece of the program. *)
Definition preserves {A} (P : State → Prop) (m : M State A) : Prop :=
  ∀ s, P s → P (snd (m s)).

(** What a pull answers once the subscription is resolved: a function of the
    count, the queue and the data directory. *)
Definition pull_result (n : Z) (q : MessageQueue) (fs : gmap Z string)
    : result Response :=
  match fst (FindUnAckedMessageIds n q) with
  | Ok ids =>
      let '(messages, ok) := GetMessages_loop ids ∅ fs in
      if ok then Ok {| status := StatusOK; body := Some (marshall messages) |}
      else Ok {| status := StatusInternalServerError; body := None |}
  | Panic => Panic
  | OutOfFuel => OutOfFuel
  end.

(** The whole difference between [s] and [s']: [name], which was not
    registered, may now be registered with an empty queue.  The counter, the
    files and every other queue are the same. *)
Definition only_registers (name : string) (s s' : State) : Prop :=
  topic s' = topic s ∧ files s' = files s ∧
  ∀ name', queue_of s' name' = queue_of s name' ∨
           (name' = name ∧ subs s !! name = None ∧
            queue_of s' name' = Some []).

(** What resolving the well-formed [name] does, exactly: a name that is
    registered leaves the state as it is; a name that is not becomes
    registered with an empty queue, and the counter, the files and every
    other queue are as before. *)
Definition registers (name : string) (s s' : State) : Prop :=
  topic s' = topic s ∧ files s' = files s ∧
  (∀ name', name' ≠ name → queue_of s' name' = queue_of s name') ∧
  (is_Some (subs s !! name) → s' = s) ∧
  (subs s !! name = None → queue_of s' name = Some []).

(** [m] returns normally at [q] and rearranges it, leaving the slots in
    [frame] as they are. *)
Definition rearranges {A} (frame : nat → Prop) (m : M MessageQueue A)
    (q : MessageQueue) : Prop :=
  ∃ a q', m q = (Ok a, q') ∧ q' ≡ₚ q ∧
          ∀ k, frame k → q' !! k = q !! k.

(** Two goroutines race for the unknown name [sub0]: the first creates the
    object and returns it; the second, which had to wait for the mutex,
    finds it and returns it too. *)
Definition race_schedule : list (nat * Concurrent.choice) :=
  let r := snd (do_pull "sub0" "0") in
  [ (0%nat, Concurrent.Accept r); (1%nat, Concurrent.Accept r);
    (0%nat, Concurrent.Next); (1%nat, Concurrent.Next);
    (0%nat, Concurrent.Next); (0%nat, Concurrent.Next);
    (0%nat, Concurrent.Next); (0%nat, Concurrent.Next);
    (0%nat, Concurrent.Next);
    (1%nat, Concurrent.Next); (1%nat, Concurrent.Next);
    (1%nat, Concurrent.Next) ].

(** The loop counters of the model are never exhausted by [m]. *)
Definition fuel_ok {S A} (m : M S A) : Prop :=
  ∀ s, fst (m s) ≠ OutOfFuel.

(** No publish of the sequence takes the counter past 2^64 - 1. *)
Fixpoint no_wrap (rs : list (list Z * Request)) (s : State) : Prop :=
  match rs with
  | [] => True
  | (wfail, r) :: rest =>
      (Path r = "/send" →
       NextMesgID (topic s) + Z.of_nat (length (Form_index r "message"))
       < uint64_modulus) ∧
      no_wrap rest (snd (serve wfail r s))
  end.

(** The queue registered under [name], if there is one, holds no id below
    [b], and the counter is not below [b] either. *)
Definition ids_from (b : Z) (name : string) (s : State) : Prop :=
  registry_wf s ∧ 0 ≤ b ≤ NextMesgID (topic s) ∧
  ∀ q, queue_of s name = Some q → Forall (λ id, b ≤ id) q.

(** ** Heap order

    Slot [k] of the array has its parent at slot [(k - 1) / 2].  [is_heap]
    is the order [container/heap] keeps: no slot is below its parent. *)

Definition slot (q : MessageQueue) (k : nat) : Z := default 0 (q !! k).

Definition parent (k : nat) : nat := (k - 1) / 2.

Definition ordered (q : MessageQueue) (k : nat) : Prop :=
  slot q (parent k) ≤ slot q k.

Definition heap_upto (n : nat) (q : MessageQueue) : Prop :=
  ∀ k, (1 ≤ k < n)%nat → ordered q k.

Definition is_heap (q : MessageQueue) : Prop := heap_upto (length q) q.

(** The first [n] slots are in heap order but for slot [j], which may be
    below its parent: what [up] starts from and keeps. *)
Definition up_inv (n j : nat) (q : MessageQueue) : Prop :=
  (∀ k, (1 ≤ k < n)%nat → k ≠ j → ordered q k) ∧
  (∀ c, (1 ≤ c < n)%nat → parent c = j → (1 ≤ j)%nat →
        slot q (parent j) ≤ slot q c).

(** The first [n] slots are in heap order but for slot [i], which may be
    above its children, and for slot [i0] as long as the loop has not left
    it: what [down] starts from and keeps. *)
Definition down_inv (n i0 i : nat) (q : MessageQueue) : Prop :=
  (∀ k, (1 ≤ k < n)%nat → parent k ≠ i → (k = i0 → i ≠ i0) → ordered q k) ∧
  (∀ c, (1 ≤ c < n)%nat → parent c = i → (1 ≤ i)%nat →
        slot q (parent i) ≤ slot q c).

(** ** Invariants of the server state *)

(** Every [Subscription] object keeps its queue in heap order. *)
Definition all_heaps (s : State) : Prop :=
  ∀ sub o, objs s !! sub = Some o → is_heap (UnAcked o).

(** The counter is a [uint64] and every id in a queue has its message file. *)
Definition all_stored (s : State) : Prop :=
  0 ≤ NextMesgID (topic s) < uint64_modulus ∧
  ∀ sub o, objs s !! sub = Some o →
    Forall (λ id, is_Some (files s !! id)) (UnAcked o).

(** The ids [baseID], [baseID + 1], ... of a publish of [k] messages. *)
Definition new_ids (baseID : Z) (k : nat) : list Z :=
  (λ j, baseID + Z.of_nat j) <$> seq 0 k.

(** The ids of every registered queue are distinct and below the counter. *)
Definition distinct_ids (s : State) : Prop :=
  ∀ name q, queue_of s name = Some q →
    NoDup q ∧ Forall (λ id, 0 ≤ id < NextMesgID (topic s)) q.

(** Only names that match [validSubRegexp] are registered. *)
Definition names_valid (s : State) : Prop :=
  ∀ name sub, subs s !! name = Some sub →
    validSubRegexp_MatchString name = true.

(** ** The critical sections

    How many of its own statements a goroutine between [Lock] and [Unlock]
    runs, at most, before it unlocks. *)


(** * Theorems *)

(** ** The monad and the state accessors *)

Lemma bind_Ok {S A B} (m : M S A) (k : A → M S B) s a s' :
  m s = (Ok a, s') → bind m k s = k a s'.
Proof. intros H. unfold bind. rewrite H. reflexivity. Qed.

Lemma Subscription_eta (o : Subscription) :
  {| Name := Name o; UnAcked := UnAcked o |} = o.
Proof. destruct o; reflexivity. Qed.

Lemma State_eta (s : State) :
  {| subs := subs s; objs := objs s; topic := topic s; files := files s |} = s.
Proof. destruct s; reflexivity. Qed.

(** Code that leaves the queue as it is leaves the whole state as it is. *)
Lemma on_sub_read_only {A} (m : M MessageQueue A) sub s :
  (∀ q, snd (m q) = q) → snd (on_sub sub m s) = s.
Proof.
  intros Hm. unfold on_sub.
  destruct (objs s !! sub) as [o|] eqn:Ho; [|reflexivity].
  specialize (Hm (UnAcked o)). destruct (m (UnAcked o)) as [r q].
  simpl in *. subst q. rewrite Subscription_eta, insert_id by exact Ho.
  apply State_eta.
Qed.

Lemma on_sub_lookup {A} (m : M MessageQueue A) sub s o :
  objs s !! sub = Some o →
  on_sub sub m s =
    (fst (m (UnAcked o)),
     {| subs := subs s;
        objs := <[sub := {| Name := Name o; UnAcked := snd (m (UnAcked o)) |}]>
                  (objs s);
        topic := topic s; files := files s |}).
Proof.
  intros Ho. unfold on_sub. rewrite Ho.
  destruct (m (UnAcked o)); reflexivity.
Qed.

(** ** The heap operations on a queue

    Whatever order the array is in, the operations of [container/heap] do
    not panic on indices inside the array, never exhaust the loop counter,
    and only move elements around. *)

Lemma at_index_ok (q : MessageQueue) (i : Z) (x : Z) :
  0 ≤ i → q !! Z.to_nat i = Some x → at_index i q = (Ok x, q).
Proof.
  intros Hi Hx. unfold at_index. rewrite bool_decide_true by done.
  by rewrite Hx.
Qed.

Lemma index_in_range (q : MessageQueue) (i : Z) :
  0 ≤ i < Z.of_nat (length q) → ∃ x, q !! Z.to_nat i = Some x.
Proof. intros Hi. apply lookup_lt_is_Some_2. lia. Qed.

Lemma Less_ok (q : MessageQueue) (i j : Z) :
  0 ≤ i < Z.of_nat (length q) → 0 ≤ j < Z.of_nat (length q) →
  ∃ b, Less i j q = (Ok b, q).
Proof.
  intros Hi Hj.
  destruct (index_in_range q i Hi) as [a Ha].
  destruct (index_in_range q j Hj) as [b Hb].
  exists (a <? b). unfold Less.
  rewrite (bind_Ok _ _ _ _ _ (at_index_ok q i a (proj1 Hi) Ha)).
  rewrite (bind_Ok _ _ _ _ _ (at_index_ok q j b (proj1 Hj) Hb)).
  reflexivity.
Qed.

Lemma Swap_ok (q : MessageQueue) (i j : Z) :
  0 ≤ i < Z.of_nat (length q) → 0 ≤ j < Z.of_nat (length q) →
  ∃ q', Swap i j q = (Ok tt, q') ∧ q' ≡ₚ q ∧
        q' !! Z.to_nat j = q !! Z.to_nat i ∧
        ∀ k, k ≠ Z.to_nat i → k ≠ Z.to_nat j → q' !! k = q !! k.
Proof.
  intros Hi Hj.
  destruct (index_in_range q i Hi) as [a Ha].
  destruct (index_in_range q j Hj) as [b Hb].
  exists (<[Z.to_nat j := a]> (<[Z.to_nat i := b]> q)). unfold Swap.
  rewrite (bind_Ok _ _ _ _ _ (at_index_ok q j b (proj1 Hj) Hb)).
  rewrite (bind_Ok _ _ _ _ _ (at_index_ok q i a (proj1 Hi) Ha)).
  split; [reflexivity|]. split; [by apply Permutation_insert_swap|]. split.
  - rewrite list_lookup_insert_eq; [done|]. rewrite length_insert. lia.
  - intros k Hki Hkj. by rewrite !list_lookup_insert_ne.
Qed.

Lemma up_loop_ok (fuel : nat) : ∀ (j : Z) (q : MessageQueue),
  0 ≤ j < Z.of_nat (length q) → j < Z.of_nat fuel →
  rearranges (λ k, Z.to_nat j < k)%nat (heap.up_loop fuel j) q.
Proof.
  induction fuel as [|fuel IH]; intros j q Hj Hfuel; [lia|].
  unfold rearranges. simpl.
  assert (Hparent : (j - 1) `quot` 2 = j ∨
                    0 ≤ (j - 1) `quot` 2 < j).
  { destruct (decide (j = 0)) as [->|Hne]; [by left|]. right.
    rewrite Z.quot_div_nonneg by lia.
    split; [apply Z.div_pos; lia|]. apply Z.div_lt_upper_bound; lia. }
  case_bool_decide as Hroot.
  { exists tt, q. done. }
  destruct Hparent as [?|Hi]; [done|].
  destruct (Less_ok q j ((j - 1) `quot` 2)) as [lt Hlt]; [lia..|].
  rewrite (bind_Ok _ _ _ _ _ Hlt).
  destruct lt; simpl; [|by exists tt, q].
  destruct (Swap_ok q ((j - 1) `quot` 2) j)
    as (q1 & Hswap & Hperm & _ & Hframe); [lia..|].
  rewrite (bind_Ok _ _ _ _ _ Hswap).
  destruct (IH ((j - 1) `quot` 2) q1) as (a & q' & Hrun & Hperm' & Hframe').
  { rewrite (Permutation_length Hperm). lia. }
  { lia. }
  exists a, q'. split; [exact Hrun|]. split; [by rewrite Hperm'|].
  intros k Hk. rewrite Hframe' by lia. apply Hframe; lia.
Qed.

Lemma down_loop_ok (fuel : nat) : ∀ (i0 i n : Z) (q : MessageQueue),
  0 ≤ i → n ≤ Z.of_nat (length q) →
  n - i < Z.of_nat fuel → (0 < fuel)%nat →
  rearranges (λ k, n ≤ Z.of_nat k ∨ Z.of_nat k < i)
    (heap.down_loop fuel i0 i n) q.
Proof.
  induction fuel as [|fuel IH]; intros i0 i n q Hi Hn Hfuel Hpos; [lia|].
  unfold rearranges. simpl. case_bool_decide as Hleaf.
  { eexists _, q. done. }
  assert (Hj1 : 0 ≤ 2 * i + 1 < n) by lia.
  set (pick := if bool_decide (2 * i + 1 + 1 < n)
               then Less (2 * i + 1 + 1) (2 * i + 1) else ret false).
  assert (Hpick : ∃ second, pick q = (Ok second, q) ∧
                    (second = true → 2 * i + 1 + 1 < n)).
  { unfold pick. case_bool_decide as Hj2.
    - destruct (Less_ok q (2 * i + 1 + 1) (2 * i + 1)) as [b Hb]; [lia..|].
      exists b. done.
    - exists false. done. }
  destruct Hpick as (second & Hpick & Hsecond).
  rewrite (bind_Ok _ _ _ _ _ Hpick).
  set (j := if second then 2 * i + 1 + 1 else 2 * i + 1).
  assert (Hj : i < j < n).
  { unfold j. destruct second; [specialize (Hsecond eq_refl)|]; lia. }
  destruct (Less_ok q j i) as [lt Hlt]; [lia..|].
  rewrite (bind_Ok _ _ _ _ _ Hlt).
  destruct lt; simpl; [|by eexists _, q].
  destruct (Swap_ok q i j) as (q1 & Hswap & Hperm & _ & Hframe); [lia..|].
  rewrite (bind_Ok _ _ _ _ _ Hswap).
  destruct (IH i0 j n q1) as (a & q' & Hrun & Hperm' & Hframe').
  { lia. } { rewrite (Permutation_length Hperm). lia. } { lia. } { lia. }
  exists a, q'. split; [exact Hrun|]. split; [by rewrite Hperm'|].
  intros k Hk. rewrite Hframe' by lia. apply Hframe; lia.
Qed.

Lemma Pop_ok (q : MessageQueue) (m : nat) (x : Z) :
  length q = S m → q !! m = Some x →
  Pop q = (Ok x, take m q) ∧ q ≡ₚ x :: take m q.
Proof.
  intros Hlen Hx. split.
  - unfold Pop, bind at 1, Len. rewrite Hlen.
    replace (Z.of_nat (S m) - 1) with (Z.of_nat m) by lia.
    rewrite (bind_Ok _ _ _ _ _ (at_index_ok q (Z.of_nat m) x ltac:(lia)
                                  ltac:(by rewrite Nat2Z.id))).
    by rewrite Nat2Z.id.
  - rewrite <- (take_ge q (S m)) at 1 by lia.
    rewrite (take_S_r q m x Hx). by rewrite Permutation_app_comm.
Qed.

Lemma heap_up_ok (j : Z) (q : MessageQueue) :
  0 ≤ j < Z.of_nat (length q) →
  rearranges (λ k, Z.to_nat j < k)%nat (heap.up j) q.
Proof. intros Hj. unfold heap.up. apply up_loop_ok; lia. Qed.

Lemma heap_down_ok (i n : Z) (q : MessageQueue) :
  0 ≤ i → n ≤ Z.of_nat (length q) →
  rearranges (λ k, n ≤ Z.of_nat k ∨ Z.of_nat k < i) (heap.down i n) q.
Proof. intros Hi Hn. unfold heap.down. apply down_loop_ok; lia. Qed.

(** [heap.Remove] at a valid index takes out the element that is there and
    nothing else. *)
Lemma heap_Remove_ok (i : Z) (q : MessageQueue) (x : Z) :
  0 ≤ i → q !! Z.to_nat i = Some x →
  ∃ q', heap.Remove i q = (Ok x, q') ∧ q ≡ₚ x :: q'.
Proof.
  intros Hi Hx. pose proof (lookup_lt_Some _ _ _ Hx) as Hlt.
  destruct (length q) as [|m] eqn:Hlen; [lia|].
  unfold heap.Remove, bind at 1, Len. rewrite Hlen.
  replace (Z.of_nat (S m) - 1) with (Z.of_nat m) by lia.
  case_bool_decide as Hlast.
  - (* the element is not the last one *)
    destruct (Swap_ok q i (Z.of_nat m)) as (q1 & Hswap & Hperm1 & Hx1 & _);
      [lia..|].
    rewrite Nat2Z.id, Hx in Hx1.
    destruct (heap_down_ok i (Z.of_nat m) q1)
      as (moved & q2 & Hdown & Hperm2 & Hframe2);
      [lia|rewrite (Permutation_length Hperm1); lia|].
    assert (Hup : ∃ a q3, (if negb moved then heap.up i else ret tt) q2
                          = (Ok a, q3) ∧ q3 ≡ₚ q2 ∧ q3 !! m = q2 !! m).
    { destruct moved; simpl; [by exists tt, q2|].
      destruct (heap_up_ok i q2) as (a & q3 & Hrun & Hperm3 & Hframe3).
      { rewrite (Permutation_length Hperm2), (Permutation_length Hperm1). lia. }
      exists a, q3. split; [done|]. split; [done|]. apply Hframe3. lia. }
    destruct Hup as (a & q3 & Hup & Hperm3 & Hx3).
    assert (Hsift : (Swap i (Z.of_nat m);;
                     do moved <- heap.down i (Z.of_nat m);
                     if negb moved then heap.up i else ret tt) q
                    = (Ok a, q3)).
    { rewrite (bind_Ok _ _ _ _ _ Hswap), (bind_Ok _ _ _ _ _ Hdown).
      exact Hup. }
    rewrite (bind_Ok _ _ _ _ _ Hsift).
    assert (Hq3 : q3 ≡ₚ q) by (by rewrite Hperm3, Hperm2).
    destruct (Pop_ok q3 m x) as [Hpop Hperm].
    { by rewrite (Permutation_length Hq3). }
    { rewrite Hx3, Hframe2 by lia. exact Hx1. }
    exists (take m q3). split; [exact Hpop|]. by rewrite <- Hq3.
  - (* the element is the last one *)
    assert (i = Z.of_nat m) as -> by done.
    rewrite Nat2Z.id in Hx. unfold bind at 1, ret.
    destruct (Pop_ok q m x Hlen Hx) as [Hpop Hperm].
    exists (take m q). done.
Qed.

(** [heap.Push] adds the element and nothing else. *)
Lemma heap_Push_ok (x : Z) (q : MessageQueue) :
  ∃ q', heap.Push x q = (Ok tt, q') ∧ q' ≡ₚ x :: q.
Proof.
  unfold heap.Push, bind at 1, Push. unfold bind at 1, Len.
  destruct (heap_up_ok (Z.of_nat (length (q ++ [x])) - 1) (q ++ [x]))
    as ([] & q' & Hrun & Hperm & _).
  { rewrite length_app. simpl. lia. }
  exists q'. split; [exact Hrun|].
  by rewrite Hperm, Permutation_app_comm.
Qed.

(** ** [FindUnAckedMessageIds] *)

Lemma FindUnAckedMessageIds_state n q : snd (FindUnAckedMessageIds n q) = q.
Proof.
  unfold FindUnAckedMessageIds, bind, Len, panic.
  repeat case_bool_decide; reflexivity.
Qed.

Lemma FindUnAckedMessageIds_nonneg n q :
  0 ≤ n →
  FindUnAckedMessageIds n q = (Ok (take (Z.to_nat n) q), q).
Proof.
  intros Hn. unfold FindUnAckedMessageIds, bind, Len, panic.
  repeat case_bool_decide; try lia; try reflexivity.
  rewrite Nat2Z.id, (take_ge q (Z.to_nat n)) by lia.
  rewrite take_ge by lia. reflexivity.
Qed.

(** What holds of the ids returned for a count that is not negative: they
    are the first slots of the array, at most [n] of them, all of them when
    the queue has no more than [n], none when [n] is 0. *)
Lemma FindUnAckedMessageIds_prefix n q ids :
  0 ≤ n → fst (FindUnAckedMessageIds n q) = Ok ids →
  ids `prefix_of` q ∧
  Z.of_nat (length ids) = Z.min n (Z.of_nat (length q)) ∧
  (Z.of_nat (length q) ≤ n → ids = q) ∧
  (n = 0 → ids = []).
Proof.
  intros Hn Hrun. rewrite FindUnAckedMessageIds_nonneg in Hrun by done.
  injection Hrun as <-. split; [|split; [|split]].
  - apply prefix_take.
  - rewrite length_take. lia.
  - intros Hlen. apply take_ge. lia.
  - intros ->. reflexivity.
Qed.

Lemma FindUnAckedMessageIds_negative n q :
  n < 0 → FindUnAckedMessageIds n q = (Panic, q).
Proof.
  intros Hn. unfold FindUnAckedMessageIds, bind, Len, panic.
  repeat case_bool_decide; try lia; reflexivity.
Qed.

(** ** [AckMessages] *)

Lemma idMap_lookup (ids : list Z) (m : gmap Z bool) (x : Z) :
  default false (foldl (λ (m : gmap Z bool) k, <[k := true]> m) m ids !! x)
  = true ↔ x ∈ ids ∨ default false (m !! x) = true.
Proof.
  revert m. induction ids as [|k ids IH]; intros m; simpl.
  - rewrite elem_of_nil. tauto.
  - rewrite IH, elem_of_cons.
    destruct (decide (k = x)) as [->|Hne].
    + rewrite lookup_insert_eq. simpl. tauto.
    + rewrite lookup_insert_ne by done. split; [tauto|].
      intros [[E|H]|H]; [congruence|tauto..].
Qed.

(** Ids that are not in the queue are passed over without an error: the
    queue is not touched. *)
Lemma AckMessages_absent_ids_ignored (ids : list Z) (q : MessageQueue) :
  (∀ x, x ∈ q → x ∉ ids) → AckMessages ids q = (Ok tt, q).
Proof.
  intros Hq. unfold AckMessages.
  generalize (foldl (λ n _ : Z, n + 1) 0 ids). intros nID.
  assert (Hk : (length q ≤ length q)%nat) by lia. revert Hk.
  generalize (length q) at 1 3. intros k. revert nID.
  induction k as [|i IH]; intros nID Hk; simpl; [reflexivity|].
  case_bool_decide; [reflexivity|].
  unfold bind at 1. unfold at_index.
  rewrite bool_decide_true by lia. rewrite Nat2Z.id.
  destruct (lookup_lt_is_Some_2 q i) as [x Hx]; [lia|]. rewrite Hx.
  assert (Hnot : default false
            (foldl (λ (m : gmap Z bool) k, <[k := true]> m) ∅ ids !! x)
            = false).
  { apply not_true_is_false. rewrite idMap_lookup, lookup_empty. simpl.
    intros [Hin|?]; [|done]. eapply Hq; [|exact Hin].
    eapply list_elem_of_lookup_2, Hx. }
  rewrite Hnot. apply IH. lia.
Qed.

(** The loop of [AckMessages] returns normally, and what it has taken out
    of the queue are ids of the map. *)
Lemma AckMessages_loop_ok (idMap : gmap Z bool) (k : nat) :
  ∀ (nID : Z) (q : MessageQueue),
  (k ≤ length q)%nat →
  ∃ q' removed,
    AckMessages_loop k idMap nID q = (Ok tt, q') ∧
    q ≡ₚ removed ++ q' ∧
    Forall (λ x, default false (idMap !! x) = true) removed.
Proof.
  induction k as [|i IH]; intros nID q Hk; simpl.
  { exists q, []. done. }
  case_bool_decide.
  { exists q, []. done. }
  destruct (lookup_lt_is_Some_2 q i) as [x Hx]; [lia|].
  rewrite (bind_Ok _ _ _ _ _ (at_index_ok q (Z.of_nat i) x ltac:(lia)
                                ltac:(by rewrite Nat2Z.id))).
  destruct (default false (idMap !! x)) eqn:Hmap.
  - destruct (heap_Remove_ok (Z.of_nat i) q x) as (q1 & Hrem & Hperm);
      [lia|by rewrite Nat2Z.id|].
    rewrite (bind_Ok _ _ _ _ _ Hrem).
    destruct (IH (nID - 1) q1) as (q' & removed & Hrun & Hperm' & Hall).
    { apply Permutation_length in Hperm. simpl in Hperm. lia. }
    exists q', (x :: removed). split; [exact Hrun|]. split.
    + by rewrite Hperm, Hperm'.
    + by constructor.
  - apply IH. lia.
Qed.

(** What holds of [AckMessages] on every queue and every input: it returns
    without an error, it removes nothing but ids of the input, and every id
    that is not in the input stays in the queue as often as it was there. *)
Lemma AckMessages_removes_only_input (ids : list Z) (q : MessageQueue) :
  ∃ q' removed,
    AckMessages ids q = (Ok tt, q') ∧
    q ≡ₚ removed ++ q' ∧
    Forall (λ x, x ∈ ids) removed.
Proof.
  unfold AckMessages.
  destruct (AckMessages_loop_ok
              (foldl (λ (m : gmap Z bool) k, <[k := true]> m) ∅ ids)
              (length q) (foldl (λ n _, n + 1) 0 ids) q)
    as (q' & removed & Hrun & Hperm & Hall); [lia|].
  exists q', removed. split; [exact Hrun|]. split; [exact Hperm|].
  eapply Forall_impl; [exact Hall|]. simpl. intros x Hx.
  apply idMap_lookup in Hx as [Hx|Hx]; [exact Hx|].
  by rewrite lookup_empty in Hx.
Qed.


(** C1 (the code departs from it): the queue [[1; 6; 2; 7; 8; 5]] is the one
    a subscription has after ids 0 to 8 were published and 0, 3 and 4
    acknowledged.  Acknowledging 6 and 7, both in the queue, removes 7 and
    leaves 6: when 7 is removed at index 3 the last element 5 is moved to
    index 3 and sifted up, which brings the not yet visited 6 from index 1
    down to index 3, behind the scan. *)
Theorem AckMessages_leaves_acked_id :
  let s := snd (serve_all nine_messages_three_acks (initial ∅)) in
  queue_of s "sub0" = Some [1; 6; 2; 7; 8; 5] ∧
  AckMessages [6; 7] [1; 6; 2; 7; 8; 5] = (Ok tt, [1; 5; 2; 6; 8]) ∧
  serve [] (snd (do_ack "sub0" ["6"; "7"])) s
  = (Ok {| status := StatusOK; body := None |},
     snd (serve [] (snd (do_ack "sub0" ["6"; "7"])) s)) ∧
  queue_of (snd (serve [] (snd (do_ack "sub0" ["6"; "7"])) s)) "sub0"
  = Some [1; 5; 2; 6; 8].
Proof. vm_compute. repeat split; reflexivity. Qed.

(** C3 (the code departs from it): on the same queue the first
    acknowledgement of 6 and 7 leaves 6 behind and the second one removes
    it, so acknowledging twice is not the same as acknowledging once; a pull
    sees the difference. *)
Theorem AckMessages_twice_differs :
  let s := snd (serve_all nine_messages_three_acks (initial ∅)) in
  let ack := do_ack "sub0" ["6"; "7"] in
  let pull := do_pull "sub0" "10" in
  AckMessages [6; 7] [1; 6; 2; 7; 8; 5] = (Ok tt, [1; 5; 2; 6; 8]) ∧
  (AckMessages [6; 7];; AckMessages [6; 7]) [1; 6; 2; 7; 8; 5]
  = (Ok tt, [1; 5; 2; 8]) ∧
  map ids_of (fst (serve_all [ack; pull] s))
  = [None; Some (list_to_set [1; 2; 5; 6; 8])] ∧
  map ids_of (fst (serve_all [ack; ack; pull] s))
  = [None; None; Some (list_to_set [1; 2; 5; 8])].
Proof. vm_compute. repeat split; reflexivity. Qed.

(** ** [GetSubscription] *)

Section GetSubscription_facts.
Variable r : Request.
Variable s : State.

Lemma GetSubscription_invalid :
  validSubRegexp_MatchString (Form_Get r "sub") = false →
  GetSubscription r s = (Ok None, s).
Proof.
  intros H. unfold GetSubscription. rewrite H. reflexivity.
Qed.

Lemma GetSubscription_found sub :
  validSubRegexp_MatchString (Form_Get r "sub") = true →
  subs s !! Form_Get r "sub" = Some sub →
  GetSubscription r s = (Ok (Some sub), s).
Proof.
  intros H Hs. unfold GetSubscription. rewrite H. simpl.
  unfold bind, get. rewrite Hs. reflexivity.
Qed.

Lemma GetSubscription_created :
  validSubRegexp_MatchString (Form_Get r "sub") = true →
  subs s !! Form_Get r "sub" = None →
  let sub := fresh (dom (objs s)) in
  GetSubscription r s =
    (Ok (Some sub),
     {| subs := <[Form_Get r "sub" := sub]> (subs s);
        objs := <[sub := {| Name := Form_Get r "sub"; UnAcked := [] |}]>
                  (objs s);
        topic := topic s; files := files s |}).
Proof.
  intros H Hs sub. unfold GetSubscription. rewrite H. simpl.
  unfold bind at 1. unfold get. rewrite Hs.
  unfold bind, new_Subscription, on_sub, subs_store, ret. simpl.
  fold sub. rewrite lookup_insert_eq. simpl.
  rewrite insert_insert_eq. reflexivity.
Qed.

(** The three cases above are all there is. *)
Lemma GetSubscription_cases :
  (validSubRegexp_MatchString (Form_Get r "sub") = false ∧
   GetSubscription r s = (Ok None, s)) ∨
  (validSubRegexp_MatchString (Form_Get r "sub") = true ∧
   ∃ sub, subs s !! Form_Get r "sub" = Some sub ∧
          GetSubscription r s = (Ok (Some sub), s)) ∨
  (validSubRegexp_MatchString (Form_Get r "sub") = true ∧
   subs s !! Form_Get r "sub" = None ∧
   GetSubscription r s =
     (Ok (Some (fresh (dom (objs s)))),
      {| subs := <[Form_Get r "sub" := fresh (dom (objs s))]> (subs s);
         objs := <[fresh (dom (objs s))
                   := {| Name := Form_Get r "sub"; UnAcked := [] |}]>
                   (objs s);
         topic := topic s; files := files s |})).
Proof.
  destruct (validSubRegexp_MatchString (Form_Get r "sub")) eqn:Hv.
  - destruct (subs s !! Form_Get r "sub") as [sub|] eqn:Hs.
    + right; left. split; [reflexivity|]. exists sub. split; [reflexivity|].
      by apply GetSubscription_found.
    + right; right. repeat split; try done. by apply GetSubscription_created.
  - left. split; [reflexivity|]. by apply GetSubscription_invalid.
Qed.
End GetSubscription_facts.

(** ** Properties kept by every piece of the program *)

Lemma preserves_bind {A B} P (m : M State A) (k : A → M State B) :
  preserves P m → (∀ a, preserves P (k a)) → preserves P (bind m k).
Proof.
  intros Hm Hk s Hs. unfold bind.
  specialize (Hm s Hs). destruct (m s) as [[a| |] s']; simpl in *; auto.
  by apply Hk.
Qed.

Lemma preserves_ret {A} P (a : A) : preserves P (ret a).
Proof. intros s Hs. exact Hs. Qed.

Lemma preserves_get P : preserves P get.
Proof. intros s Hs. exact Hs. Qed.

Lemma preserves_panic {A} P : preserves P (@panic State A).
Proof. intros s Hs. exact Hs. Qed.

Lemma preserves_if {A} P (b : bool) (m1 m2 : M State A) :
  preserves P m1 → preserves P m2 → preserves P (if b then m1 else m2).
Proof. by destruct b. Qed.

Create HintDb preserves.
#[local] Hint Resolve preserves_ret preserves_get preserves_panic : preserves.

Lemma on_sub_wf {A} sub (m : M MessageQueue A) :
  preserves registry_wf (on_sub sub m).
Proof.
  intros s Hwf. unfold on_sub.
  destruct (objs s !! sub) as [o|] eqn:Ho; [|exact Hwf].
  destruct (m (UnAcked o)) as [r q]. simpl.
  intros name p Hp. simpl in Hp.
  destruct (Hwf name p Hp) as (o' & Ho' & Hname). simpl.
  destruct (decide (p = sub)) as [->|Hne].
  - rewrite lookup_insert_eq. eexists. split; [reflexivity|]. simpl. congruence.
  - rewrite lookup_insert_ne by done. eauto.
Qed.

Lemma on_topic_wf {A} (m : M Topic A) : preserves registry_wf (on_topic m).
Proof.
  intros s Hwf. unfold on_topic. destruct (m (topic s)). exact Hwf.
Qed.

Lemma on_files_wf {A} (m : M (gmap Z string) A) :
  preserves registry_wf (on_files m).
Proof.
  intros s Hwf. unfold on_files. destruct (m (files s)). exact Hwf.
Qed.

Lemma subs_delete_wf name : preserves registry_wf (subs_delete name).
Proof.
  intros s Hwf name' p. simpl. intros Hp.
  apply lookup_delete_Some in Hp as [_ Hp]. by apply Hwf.
Qed.

Lemma GetSubscription_wf r : preserves registry_wf (GetSubscription r).
Proof.
  intros s Hwf.
  destruct (GetSubscription_cases r s)
    as [[_ ->]|[(_ & sub & _ & ->)|(_ & Hnone & ->)]]; try exact Hwf.
  simpl. intros name p. simpl. intros Hp.
  destruct (decide (Form_Get r "sub" = name)) as [<-|Hne].
  - rewrite lookup_insert_eq in Hp. injection Hp as <-.
    rewrite lookup_insert_eq. eauto.
  - rewrite lookup_insert_ne in Hp by done.
    destruct (Hwf name p Hp) as (o & Ho & Hname).
    rewrite lookup_insert_ne; [eauto|].
    intros <-. apply (is_fresh (dom (objs s))).
    apply elem_of_dom. eauto.
Qed.

Lemma DestroySubscription_wf sub :
  preserves registry_wf (DestroySubscription sub).
Proof.
  unfold DestroySubscription. apply preserves_bind; [auto with preserves|].
  intros s.
  destruct (objs s !! sub); [apply subs_delete_wf|auto with preserves].
Qed.

Lemma PutMessages_range_wf targets baseID bound :
  preserves registry_wf (PutMessages_range targets baseID bound).
Proof.
  induction targets as [|[name sub] rest IH]; simpl; [auto with preserves|].
  apply preserves_bind; [apply on_sub_wf|]. intros _. exact IH.
Qed.

Lemma PutMessages_wf wfail messages baseID :
  preserves registry_wf (PutMessages wfail messages baseID).
Proof.
  unfold PutMessages. apply preserves_bind; [apply on_files_wf|].
  intros ok. apply preserves_if; [auto with preserves|].
  apply preserves_bind; [auto with preserves|]. intros s.
  apply preserves_bind; [apply PutMessages_range_wf|auto with preserves].
Qed.

Lemma serve_wf wfail r : preserves registry_wf (serve wfail r).
Proof.
  unfold serve, send_handler, unsub_handler, pull_handler, ack_handler,
    respond, GetMessages.
  repeat first
    [ progress auto with preserves
    | apply on_topic_wf | apply PutMessages_wf | apply GetSubscription_wf
    | apply DestroySubscription_wf | apply on_sub_wf
    | apply preserves_if
    | apply preserves_bind; [|intros ?]
    | match goal with
      | |- preserves _ (match ?x with _ => _ end) => destruct x
      end ].
Qed.

Lemma initial_wf fs : registry_wf (initial fs).
Proof. intros name sub H. simpl in H. by rewrite lookup_empty in H. Qed.

(** Every state the server can be in has a well-formed registry. *)
Lemma serve_all_wf rs s :
  registry_wf s → registry_wf (snd (serve_all rs s)).
Proof.
  revert s. induction rs as [|[wfail r] rest IH]; intros s Hwf; [exact Hwf|].
  simpl. pose proof (serve_wf wfail r s Hwf) as H1.
  destruct (serve wfail r s) as [o s1]. simpl in H1.
  specialize (IH s1 H1). destruct (serve_all rest s1). exact IH.
Qed.

(** ** The pull handler *)

Lemma pull_handler_resolved r s sub s1 o n :
  GetSubscription r s = (Ok (Some sub), s1) →
  objs s1 !! sub = Some o →
  Atoi (Form_Get r "n") = Some n →
  pull_handler r s = (pull_result n (UnAcked o) (files s1), s1).
Proof.
  intros Hget Ho Hn. unfold pull_handler.
  rewrite (bind_Ok _ _ _ _ _ Hget), Hn.
  pose proof (on_sub_read_only (FindUnAckedMessageIds n) sub s1
                (FindUnAckedMessageIds_state n)) as Hs.
  pose proof (on_sub_lookup (FindUnAckedMessageIds n) sub s1 o Ho) as Hl.
  rewrite Hl in Hs. simpl in Hs. unfold pull_result.
  unfold bind at 1. rewrite Hl, Hs.
  destruct (FindUnAckedMessageIds n (UnAcked o)) as [[ids| |] q]; simpl;
    try reflexivity.
  unfold bind, GetMessages, get, ret, respond. simpl.
  destruct (GetMessages_loop ids ∅ (files s1)) as [messages [|]].
  all: reflexivity.
Qed.

Lemma pull_handler_bad_count r s sub s1 :
  GetSubscription r s = (Ok (Some sub), s1) →
  Atoi (Form_Get r "n") = None →
  pull_handler r s = (Ok {| status := StatusBadRequest; body := None |}, s1).
Proof.
  intros Hget Hn. unfold pull_handler.
  rewrite (bind_Ok _ _ _ _ _ Hget), Hn. reflexivity.
Qed.

Lemma pull_handler_bad_name r s :
  validSubRegexp_MatchString (Form_Get r "sub") = false →
  pull_handler r s = (Ok {| status := StatusBadRequest; body := None |}, s).
Proof.
  intros Hv. unfold pull_handler.
  rewrite (bind_Ok _ _ _ _ _ (GetSubscription_invalid r s Hv)). reflexivity.
Qed.

(** A pull on a registered name leaves every component of the state as it
    was, whatever it answers. *)
Lemma pull_handler_registered r s :
  is_Some (subs s !! Form_Get r "sub") → snd (pull_handler r s) = s.
Proof.
  intros [sub Hsub].
  destruct (validSubRegexp_MatchString (Form_Get r "sub")) eqn:Hv;
    [|by rewrite pull_handler_bad_name].
  pose proof (GetSubscription_found r s sub Hv Hsub) as Hget.
  destruct (Atoi (Form_Get r "n")) as [n|] eqn:Hn;
    [|by rewrite (pull_handler_bad_count r s sub s Hget Hn)].
  destruct (objs s !! sub) as [o|] eqn:Ho;
    [by rewrite (pull_handler_resolved r s sub s o n Hget Ho Hn)|].
  unfold pull_handler. rewrite (bind_Ok _ _ _ _ _ Hget), Hn.
  unfold bind, on_sub. rewrite Ho. reflexivity.
Qed.

Lemma pull_handler_state r s :
  snd (pull_handler r s) = snd (GetSubscription r s).
Proof.
  unfold pull_handler, bind.
  destruct (GetSubscription r s) as [[[sub|]| |] s1]; try done.
  destruct (Atoi (Form_Get r "n")) as [n|]; [|done].
  pose proof (on_sub_read_only (FindUnAckedMessageIds n) sub s1
                (FindUnAckedMessageIds_state n)) as E.
  destruct (on_sub sub (FindUnAckedMessageIds n) s1) as [[ids| |] s2];
    simpl in *; subst; try done.
  unfold GetMessages, bind, get, ret.
  by destruct (GetMessages_loop ids ∅ (files s1)) as [m [|]].
Qed.

(** What [GetSubscription] does on a well-formed name. *)
Lemma GetSubscription_registers r s :
  registry_wf s →
  validSubRegexp_MatchString (Form_Get r "sub") = true →
  registers (Form_Get r "sub") s (snd (GetSubscription r s)).
Proof.
  intros Hwf Hv.
  destruct (GetSubscription_cases r s)
    as [[Hbad _]|[(_ & sub & Hsub & ->)|(_ & Hnone & ->)]];
    [congruence| |]; simpl.
  - repeat split; try done. intros Hnone. congruence.
  - split; [done|]. split; [done|]. split; [|split].
    + intros name' Hne. unfold queue_of. simpl.
      rewrite lookup_insert_ne by done.
      destruct (subs s !! name') as [p|] eqn:Hp; [|reflexivity]. simpl.
      destruct (Hwf name' p Hp) as (o & Ho & _).
      rewrite lookup_insert_ne; [reflexivity|].
      intros <-. apply (is_fresh (dom (objs s))). apply elem_of_dom. eauto.
    + intros [? ?]. congruence.
    + intros _. unfold queue_of. simpl. rewrite lookup_insert_eq. simpl.
      by rewrite lookup_insert_eq.
Qed.

(** Two pulls in a row: the second answers what the first answered and
    changes nothing. *)
Lemma pull_handler_twice (r : Request) (s : State) :
  let '(o1, s1) := pull_handler r s in
  let '(o2, s2) := pull_handler r s1 in
  o2 = o1 ∧ s2 = s1 ∧
  (is_Some (subs s !! Form_Get r "sub") →
   s1 = s ∧ queue_of s1 = queue_of s).
Proof.
  destruct (pull_handler r s) as [o1 s1] eqn:H1.
  destruct (pull_handler r s1) as [o2 s2] eqn:H2.
  assert (Hreg : is_Some (subs s !! Form_Get r "sub") → s1 = s).
  { intros Hs. apply pull_handler_registered in Hs. by rewrite H1 in Hs. }
  destruct (GetSubscription_cases r s)
    as [[Hv Hget]|[(Hv & sub & Hsub & Hget)|(Hv & Hnone & Hget)]].
  - (* malformed name *)
    rewrite pull_handler_bad_name in H1 by done. injection H1 as <- <-.
    rewrite pull_handler_bad_name in H2 by done. injection H2 as <- <-.
    done.
  - (* registered *)
    assert (s1 = s) as -> by eauto.
    rewrite H1 in H2. injection H2 as <- <-. by eauto.
  - (* not registered: the first pull creates the object *)
    set (sub := fresh (dom (objs s))) in *.
    set (s' := {| subs := <[Form_Get r "sub" := sub]> (subs s);
                  objs := <[sub := {| Name := Form_Get r "sub";
                                      UnAcked := [] |}]> (objs s);
                  topic := topic s; files := files s |}) in *.
    assert (Hfound : GetSubscription r s' = (Ok (Some sub), s')).
    { apply GetSubscription_found; [done|]. apply lookup_insert_eq. }
    assert (Ho : objs s' !! sub
                 = Some {| Name := Form_Get r "sub"; UnAcked := [] |}).
    { apply lookup_insert_eq. }
    split; [|split].
    + destruct (Atoi (Form_Get r "n")) as [n|] eqn:Hn.
      * rewrite (pull_handler_resolved r s sub s' _ n Hget Ho Hn) in H1.
        injection H1 as <- <-.
        rewrite (pull_handler_resolved r s' sub s' _ n Hfound Ho Hn) in H2.
        by injection H2 as <- <-.
      * rewrite (pull_handler_bad_count r s sub s' Hget Hn) in H1.
        injection H1 as <- <-.
        rewrite (pull_handler_bad_count r s' sub s' Hfound Hn) in H2.
        by injection H2 as <- <-.
    + assert (s1 = s') as ->.
      { destruct (Atoi (Form_Get r "n")) as [n|] eqn:Hn.
        - rewrite (pull_handler_resolved r s sub s' _ n Hget Ho Hn) in H1.
          by injection H1 as <- <-.
        - rewrite (pull_handler_bad_count r s sub s' Hget Hn) in H1.
          by injection H1 as <- <-. }
      assert (Hs' : is_Some (subs s' !! Form_Get r "sub")).
      { exists sub. apply lookup_insert_eq. }
      apply pull_handler_registered in Hs'. by rewrite H2 in Hs'.
    + intros [? Hs]. congruence.
Qed.

(** C5, as the code has it.  For every state, every name and every count,
    two pulls in a row give the same answer and the second one changes
    nothing.  A pull never changes the counter or a file, and it leaves the
    whole state as it is when the name is registered or malformed.  With a
    well-formed registry it changes no queue that exists; the one thing it
    does to the state is to register a well-formed name that was not
    registered, with an empty queue. *)
Theorem pull_handler_read_only (r : Request) (s : State) :
  let name := Form_Get r "sub" in
  let s1 := snd (pull_handler r s) in
  fst (pull_handler r s1) = fst (pull_handler r s) ∧
  snd (pull_handler r s1) = s1 ∧
  topic s1 = topic s ∧ files s1 = files s ∧
  (is_Some (subs s !! name) ∨ validSubRegexp_MatchString name = false →
   s1 = s) ∧
  (registry_wf s →
   (∀ name' q, queue_of s name' = Some q → queue_of s1 name' = Some q) ∧
   (validSubRegexp_MatchString name = true → registers name s s1)).
Proof.
  intros name s1.
  pose proof (pull_handler_twice r s) as Htwice.
  destruct (pull_handler r s) as [o1 s1'] eqn:H1. simpl in s1. subst s1.
  destruct (pull_handler r s1') as [o2 s2] eqn:H2.
  destruct Htwice as (Ho & Hs & Hreg). simpl.
  assert (Hstate : s1' = snd (GetSubscription r s)).
  { by rewrite <- pull_handler_state, H1. }
  assert (Hsame : is_Some (subs s !! name)
                  ∨ validSubRegexp_MatchString name = false → s1' = s).
  { intros [Hsome|Hbad]; [by apply Hreg|].
    by rewrite Hstate, (GetSubscription_invalid r s Hbad). }
  assert (Htf : topic s1' = topic s ∧ files s1' = files s).
  { rewrite Hstate.
    destruct (GetSubscription_cases r s)
      as [[_ ->]|[(_ & sub & _ & ->)|(_ & _ & ->)]]; done. }
  split; [exact Ho|]. split; [exact Hs|]. split; [apply Htf|].
  split; [apply Htf|]. split; [exact Hsame|]. intros Hwf.
  assert (Hregs : validSubRegexp_MatchString name = true →
                  registers name s s1').
  { intros Hv. rewrite Hstate. by apply GetSubscription_registers. }
  split; [|exact Hregs]. intros name' q Hq.
  destruct (validSubRegexp_MatchString name) eqn:Hv;
    [|by rewrite Hsame by (by right)].
  destruct (Hregs eq_refl) as (_ & _ & Hother & Hkeep & _).
  destruct (decide (name' = name)) as [->|Hne]; [|by rewrite Hother].
  rewrite Hkeep; [done|]. unfold queue_of in Hq.
  by destruct (subs s !! name).
Qed.

Lemma pull_handler_read_only_witness :
  let s := snd (serve_all nine_messages_three_acks (initial ∅)) in
  let r := snd (do_pull "sub0" "4") in
  let r1 := snd (do_pull "sub1" "4") in
  queue_of s "sub0" = Some [1; 6; 2; 7; 8; 5] ∧
  ids_of (fst (pull_handler r s)) = Some (list_to_set [1; 6; 2; 7]) ∧
  fst (pull_handler r (snd (pull_handler r s))) = fst (pull_handler r s) ∧
  snd (pull_handler r s) = s ∧
  queue_of (snd (pull_handler r1 s)) "sub0" = Some [1; 6; 2; 7; 8; 5] ∧
  queue_of (snd (pull_handler r1 s)) "sub1" = Some [].
Proof.
  intros s r r1.
  assert (Hq : queue_of s "sub0" = Some [1; 6; 2; 7; 8; 5])
    by (vm_compute; reflexivity).
  destruct (pull_handler_read_only r s) as (Ho & _ & _ & _ & Hsame & _).
  destruct (pull_handler_read_only r1 s) as (_ & _ & _ & _ & _ & Hwf).
  destruct (Hwf (serve_all_wf nine_messages_three_acks _ (initial_wf ∅)))
    as [Hkeep Hregs].
  destruct (Hregs eq_refl) as (_ & _ & _ & _ & Hnew).
  split; [exact Hq|].
  split; [vm_compute; reflexivity|].
  split; [exact Ho|].
  split; [apply Hsame; left; exists 0%nat; vm_compute; reflexivity|].
  split; [exact (Hkeep "sub0" _ Hq)|].
  apply Hnew. vm_compute. reflexivity.
Defined.

(** C5 as stated fails: the pull of [test.sh] that creates [sub1] is
    answered [200] with no message, and the state it leaves is not the state
    it found: [sub1] is registered. *)
Lemma pull_registers_unknown_name :
  let s := snd (serve_all four_messages_one_ack (initial ∅)) in
  let r := snd (do_pull "sub1" "10") in
  queue_of s "sub1" = None ∧
  fst (pull_handler r s)
  = Ok {| status := StatusOK;
          body := Some {| NMessage := 0; Messages := ∅ |} |} ∧
  queue_of (snd (pull_handler r s)) "sub1" = Some [] ∧
  snd (pull_handler r s) ≠ s.
Proof.
  intros s r. repeat split; try (vm_compute; reflexivity).
  intros H. apply (f_equal (λ s, queue_of s "sub1")) in H.
  vm_compute in H. discriminate H.
Qed.

Lemma pull_result_negative n q fs : n < 0 → pull_result n q fs = Panic.
Proof.
  intros Hn. unfold pull_result.
  by rewrite FindUnAckedMessageIds_negative.
Qed.

(** C10: with a negative count the function panics at [make], whatever the
    queue holds, the empty queue included; with any other count it returns.
    In every state the server can reach, a pull with a well-formed name whose
    [n] reads as a negative integer gets there: the handler panics after
    [GetSubscription] has returned. *)
Theorem FindUnAckedMessageIds_negative_panics (q : MessageQueue)
    (maxMessages : Z) :
  (maxMessages < 0 → FindUnAckedMessageIds maxMessages q = (Panic, q)) ∧
  (0 ≤ maxMessages →
     FindUnAckedMessageIds maxMessages q
     = (Ok (take (Z.to_nat maxMessages) q), q)) ∧
  (∀ fs rs r,
     maxMessages < 0 →
     validSubRegexp_MatchString (Form_Get r "sub") = true →
     Atoi (Form_Get r "n") = Some maxMessages →
     let s := snd (serve_all rs (initial fs)) in
     pull_handler r s = (Panic, snd (GetSubscription r s))).
Proof.
  split; [apply FindUnAckedMessageIds_negative|].
  split; [apply FindUnAckedMessageIds_nonneg|].
  intros fs rs r Hneg Hv Hn s.
  assert (Hwf : registry_wf s) by apply serve_all_wf, initial_wf.
  destruct (GetSubscription_cases r s)
    as [[Hv' _]|[(_ & sub & Hsub & Hget)|(_ & Hnone & Hget)]];
    [congruence|..]; rewrite Hget; simpl.
  - destruct (Hwf _ _ Hsub) as (o & Ho & _).
    rewrite (pull_handler_resolved r s sub s o maxMessages Hget Ho Hn).
    by rewrite pull_result_negative.
  - rewrite (pull_handler_resolved r s _ _ _ maxMessages Hget
               (lookup_insert_eq _ _ _) Hn).
    by rewrite pull_result_negative.
Qed.

Lemma FindUnAckedMessageIds_negative_panics_witness :
  FindUnAckedMessageIds (-1) [] = (Panic, []) ∧
  FindUnAckedMessageIds 2 [1; 3; 2] = (Ok [1; 3], [1; 3; 2]) ∧
  Atoi "-1" = Some (-1) ∧
  fst (pull_handler (snd (do_pull "sub0" "-1"))
         (snd (serve_all four_messages_one_ack (initial ∅)))) = Panic.
Proof.
  split; [apply (FindUnAckedMessageIds_negative_panics [] (-1)); lia|].
  split; [apply (FindUnAckedMessageIds_negative_panics [1; 3; 2] 2); lia|].
  split; [reflexivity|].
  pose proof (proj2 (proj2 (FindUnAckedMessageIds_negative_panics [] (-1)))
                ∅ four_messages_one_ack (snd (do_pull "sub0" "-1"))) as H.
  rewrite H; [reflexivity|lia|vm_compute; reflexivity..].
Defined.

(** C2 (the code departs from it): after ids 0 to 3 were published and 0
    acknowledged the queue is the heap [[1; 3; 2]].  A pull of two messages
    returns 1 and 3, the first two slots of the array, although 2 is
    smaller than 3; a pull of three returns them in the order 1, 3, 2. *)
Theorem FindUnAckedMessageIds_returns_array_prefix :
  let s := snd (serve_all four_messages_one_ack (initial ∅)) in
  queue_of s "sub0" = Some [1; 3; 2] ∧
  FindUnAckedMessageIds 2 [1; 3; 2] = (Ok [1; 3], [1; 3; 2]) ∧
  FindUnAckedMessageIds 3 [1; 3; 2] = (Ok [1; 3; 2], [1; 3; 2]) ∧
  ids_of (fst (serve [] (snd (do_pull "sub0" "2")) s))
  = Some (list_to_set [1; 3]).
Proof. vm_compute. repeat split; reflexivity. Qed.

(** ** [CreateMessageIds] *)

Lemma uint64_add (a b : Z) : uint64 (a + uint64 b) = (a + b) mod uint64_modulus.
Proof. unfold uint64. apply Zplus_mod_idemp_r. Qed.

(** C6, as the code has it: the call returns the counter and advances it by
    [count] in 64-bit arithmetic.  A count of zero changes nothing, and while
    the sum stays below 2^64 the next call starts where this one ended, so
    the two ranges are adjacent and share no id. *)
Theorem CreateMessageIds_reserves (t : Topic) (count : Z) :
  0 ≤ NextMesgID t < uint64_modulus →
  0 ≤ count →
  fst (CreateMessageIds count t) = Ok (NextMesgID t) ∧
  NextMesgID (snd (CreateMessageIds count t))
  = (NextMesgID t + count) mod uint64_modulus ∧
  (count = 0 → snd (CreateMessageIds count t) = t) ∧
  (NextMesgID t + count < uint64_modulus →
   NextMesgID (snd (CreateMessageIds count t)) = NextMesgID t + count ∧
   ∀ count2, 0 ≤ count2 →
     let t' := snd (CreateMessageIds count t) in
     let base2 := NextMesgID t + count in
     fst (CreateMessageIds count2 t') = Ok base2 ∧
     NextMesgID (snd (CreateMessageIds count2 t'))
     = (base2 + count2) mod uint64_modulus ∧
     ∀ id, NextMesgID t ≤ id < NextMesgID t + count →
           ¬ (base2 ≤ id < base2 + count2)).
Proof.
  intros Ht Hc. unfold CreateMessageIds. simpl.
  split; [reflexivity|]. split; [apply uint64_add|].
  split.
  - intros ->. rewrite uint64_add, Z.add_0_r, Z.mod_small by done.
    by destruct t.
  - intros Hlt. rewrite !uint64_add.
    rewrite (Z.mod_small (NextMesgID t + count)) by lia.
    split; [reflexivity|]. intros count2 Hc2.
    split; [reflexivity|]. split; [apply uint64_add|]. lia.
Qed.

Lemma CreateMessageIds_reserves_witness :
  let t := {| TopicName := "<default-topic>"; NextMesgID := 10 |} in
  CreateMessageIds 3 t
  = (Ok 10, {| TopicName := "<default-topic>"; NextMesgID := 13 |}) ∧
  CreateMessageIds 0 t = (Ok 10, t).
Proof.
  intros t.
  destruct (CreateMessageIds_reserves t 3) as (H1 & H2 & _ & _);
    [vm_compute; split; congruence | lia |].
  destruct (CreateMessageIds_reserves t 0) as (H3 & _ & H4 & _);
    [vm_compute; split; congruence | lia |].
  split.
  - destruct (CreateMessageIds 3 t) as [r t'] eqn:E. simpl in *.
    subst r. destruct t' as [nm nx]. simpl in H2.
    injection E as E1 E2. subst nx. rewrite <- E1. reflexivity.
  - destruct (CreateMessageIds 0 t) as [r t'] eqn:E. simpl in *.
    subst r. rewrite (H4 eq_refl). reflexivity.
Defined.

(** C6 as stated fails at the last counter value: one more id makes the
    counter 0, not 2^64, and the id 0 is about to be handed out again. *)
Lemma CreateMessageIds_wraps_at_last_id :
  let t := {| TopicName := "<default-topic>";
              NextMesgID := 18446744073709551615 |} in
  0 ≤ NextMesgID t < uint64_modulus ∧
  NextMesgID (snd (CreateMessageIds 1 t)) = 0 ∧
  NextMesgID (snd (CreateMessageIds 1 t)) ≠ NextMesgID t + 1 ∧
  fst (CreateMessageIds 1 (snd (CreateMessageIds 1 t))) = Ok 0.
Proof. vm_compute. repeat split; congruence. Qed.

(** A POST to [/send] advances the counter by the number of messages, in
    64-bit arithmetic, whether or not the messages could be stored. *)
Lemma send_counter wfail r s :
  Path r = "/send" → Method r = MethodPost →
  NextMesgID (topic (snd (serve wfail r s)))
  = uint64 (NextMesgID (topic s)
            + uint64 (Z.of_nat (length (Form_index r "message")))).
Proof.
  intros Hpath Hmeth. unfold serve, send_handler.
  rewrite (bool_decide_true _ Hpath), (bool_decide_true _ Hmeth). simpl.
  unfold bind at 1, on_topic, CreateMessageIds. simpl.
  set (t' := {| TopicName := TopicName (topic s); NextMesgID := _ |}).
  assert (Hkeep : ∀ A (m : M State A),
            preserves (λ s', topic s' = t') m →
            ∀ s0, topic s0 = t' → NextMesgID (topic (snd (m s0)))
                                  = NextMesgID t').
  { intros A m Hm s0 Hs0. by rewrite (Hm s0 Hs0). }
  apply Hkeep; [|reflexivity].
  assert (Hsub : ∀ A sub (m : M MessageQueue A),
            preserves (λ s', topic s' = t') (on_sub sub m)).
  { intros A sub m s0 Hs0. unfold on_sub.
    destruct (objs s0 !! sub) as [o|]; [|done]. by destruct (m (UnAcked o)). }
  assert (Hrange : ∀ targets baseID bound,
            preserves (λ s', topic s' = t')
              (PutMessages_range targets baseID bound)).
  { induction targets as [|[name sub] rest IH]; intros baseID bound; simpl;
      [auto with preserves|].
    apply preserves_bind; [apply Hsub|]. intros _. apply IH. }
  unfold PutMessages, respond.
  repeat first
    [ progress auto with preserves
    | apply Hrange
    | apply preserves_if
    | apply preserves_bind; [|intros ?]
    | match goal with
      | |- preserves _ (on_files _) =>
          intros s' Hs'; unfold on_files;
          destruct (PutMessages_write _ _ _ _ (files s')); exact Hs'
      end ].
Qed.

Lemma sends_counter (k : nat) : ∀ s : State,
  0 ≤ NextMesgID (topic s) < uint64_modulus →
  NextMesgID (topic (snd (serve_all (replicate k (do_send ["m"])) s)))
  = (NextMesgID (topic s) + Z.of_nat k) mod uint64_modulus.
Proof.
  induction k as [|k IH]; intros s Hs.
  { simpl. rewrite Z.add_0_r. symmetry. by apply Z.mod_small. }
  cbn [replicate serve_all]. unfold do_send at 1.
  pose proof (send_counter [] (request "POST" "/send" [("message", ["m"])]) s
                eq_refl eq_refl) as Hone.
  destruct (serve [] (request "POST" "/send" [("message", ["m"])]) s)
    as [o s1]. simpl in Hone.
  change (length (Form_index _ "message")) with 1%nat in Hone.
  rewrite uint64_add in Hone.
  specialize (IH s1).
  destruct (serve_all (replicate k (do_send ["m"])) s1) as [os s2].
  simpl in *. rewrite IH, Hone.
  - rewrite Zplus_mod_idemp_l. f_equal. lia.
  - rewrite Hone. apply Z.mod_pos_bound. reflexivity.
Qed.

(** The counter value at which [CreateMessageIds] wraps is one the server
    can reach: every value of a [uint64] is. *)
Lemma every_counter_value_reachable (c : Z) :
  0 ≤ c < uint64_modulus →
  ∃ rs, NextMesgID (topic (snd (serve_all rs (initial ∅)))) = c.
Proof.
  intros Hc. exists (replicate (Z.to_nat c) (do_send ["m"])).
  rewrite sends_counter by (simpl; unfold uint64_modulus; lia).
  simpl NextMesgID. rewrite Z2Nat.id by lia. by apply Z.mod_small.
Qed.

(** ** Unsubscribe, then pull *)

(** When the unsub handler answers [200] the name was well formed and is no
    longer registered. *)
Lemma unsub_handler_ok r s resp s1 :
  registry_wf s →
  unsub_handler r s = (Ok resp, s1) →
  status resp = StatusOK →
  validSubRegexp_MatchString (Form_Get r "sub") = true ∧
  subs s1 !! Form_Get r "sub" = None.
Proof.
  intros Hwf Hrun Hst. unfold unsub_handler in Hrun.
  case_bool_decide as Hm; simpl in Hrun.
  2:{ injection Hrun as <- <-. discriminate Hst. }
  pose proof (GetSubscription_wf r s Hwf) as Hwf'.
  assert (Hreg : ∀ sub s', GetSubscription r s = (Ok (Some sub), s') →
                           subs s' !! Form_Get r "sub" = Some sub).
  { intros sub s' Hget.
    destruct (GetSubscription_cases r s)
      as [[_ E]|[(_ & sub' & Hsub & E)|(_ & _ & E)]];
      rewrite E in Hget; try discriminate.
    - by injection Hget as <- <-.
    - injection Hget as <- <-. apply lookup_insert_eq. }
  destruct (GetSubscription r s) as [[[sub|]| |] s'] eqn:Hget;
    rewrite ?(bind_Ok _ _ _ _ _ Hget) in Hrun; simpl in *;
    try (unfold bind in Hrun; rewrite Hget in Hrun; discriminate).
  2:{ injection Hrun as <- <-. discriminate Hst. }
  split.
  { destruct (validSubRegexp_MatchString (Form_Get r "sub")) eqn:Hv; [done|].
    by rewrite GetSubscription_invalid in Hget. }
  specialize (Hreg sub s' eq_refl).
  destruct (Hwf' _ _ Hreg) as (o & Ho & Hname).
  unfold DestroySubscription, bind, get in Hrun. rewrite Ho in Hrun.
  simpl in Hrun. injection Hrun as <- <-. simpl.
  rewrite Hname. apply lookup_delete_eq.
Qed.

Lemma pull_result_empty n fs :
  0 ≤ n →
  pull_result n [] fs
  = Ok {| status := StatusOK;
          body := Some {| NMessage := 0; Messages := ∅ |} |}.
Proof.
  intros Hn. unfold pull_result.
  rewrite FindUnAckedMessageIds_nonneg by done. simpl.
  rewrite take_nil. reflexivity.
Qed.

(** C7, for the counts the pull can serve: in every state the server can
    reach, once the unsub handler has answered [200], a pull of the same
    name with a count [n ≥ 0] answers [200] with no message at all, whatever
    the queue held before. *)
Theorem pull_after_unsub_is_empty (fs : gmap Z string)
    (rs : list (list Z * Request)) (ru rp : Request)
    (resp : Response) (s1 : State) (n : Z) :
  unsub_handler ru (snd (serve_all rs (initial fs))) = (Ok resp, s1) →
  status resp = StatusOK →
  Form_Get rp "sub" = Form_Get ru "sub" →
  Atoi (Form_Get rp "n") = Some n →
  0 ≤ n →
  fst (pull_handler rp s1)
  = Ok {| status := StatusOK;
          body := Some {| NMessage := 0; Messages := ∅ |} |}.
Proof.
  intros Hrun Hst Hsame Hn Hpos.
  destruct (unsub_handler_ok ru _ resp s1
              (serve_all_wf rs _ (initial_wf fs)) Hrun Hst) as [Hv Hnone].
  rewrite <- Hsame in Hv, Hnone.
  pose proof (GetSubscription_created rp s1 Hv Hnone) as Hget. simpl in Hget.
  rewrite (pull_handler_resolved rp s1 _ _ _ n Hget
             (lookup_insert_eq _ _ _) Hn).
  simpl. by apply pull_result_empty.
Qed.

Lemma pull_after_unsub_is_empty_witness :
  let s := snd (serve_all nine_messages_three_acks (initial ∅)) in
  queue_of s "sub0" = Some [1; 6; 2; 7; 8; 5] ∧
  fst (pull_handler (snd (do_pull "sub0" "10"))
         (snd (unsub_handler (snd (do_unsub "sub0")) s)))
  = Ok {| status := StatusOK;
          body := Some {| NMessage := 0; Messages := ∅ |} |}.
Proof.
  intros s. split; [vm_compute; reflexivity|].
  destruct (unsub_handler (snd (do_unsub "sub0")) s) as [o s1] eqn:Hrun.
  assert (Ho : o = Ok {| status := StatusOK; body := None |}).
  { change o with (fst (o, s1)). rewrite <- Hrun. vm_compute. reflexivity. }
  subst o. simpl.
  apply (pull_after_unsub_is_empty ∅ nine_messages_three_acks
           (snd (do_unsub "sub0")) (snd (do_pull "sub0" "10")) _ s1 10 Hrun).
  - reflexivity.
  - reflexivity.
  - vm_compute. reflexivity.
  - lia.
Defined.

(** C7 as stated fails for a negative count: the pull that follows the
    unsubscribe panics and the client gets no answer. *)
Lemma pull_after_unsub_negative_count_panics :
  let s := snd (serve_all nine_messages_three_acks (initial ∅)) in
  fst (unsub_handler (snd (do_unsub "sub0")) s)
  = Ok {| status := StatusOK; body := None |} ∧
  Atoi (Form_Get (snd (do_pull "sub0" "-1")) "n") = Some (-1) ∧
  fst (pull_handler (snd (do_pull "sub0" "-1"))
         (snd (unsub_handler (snd (do_unsub "sub0")) s)))
  = Panic.
Proof. vm_compute. repeat split; reflexivity. Qed.

(** ** Rejected requests *)

Lemma only_registers_refl name s : only_registers name s s.
Proof. repeat split. intros name'. by left. Qed.

Lemma GetSubscription_only_registers r s :
  registry_wf s →
  only_registers (Form_Get r "sub") s (snd (GetSubscription r s)).
Proof.
  intros Hwf.
  destruct (GetSubscription_cases r s)
    as [[_ ->]|[(_ & sub & _ & ->)|(_ & Hnone & ->)]];
    try apply only_registers_refl.
  simpl. repeat split. intros name'. unfold queue_of. simpl.
  destruct (decide (Form_Get r "sub" = name')) as [<-|Hne].
  - right. rewrite lookup_insert_eq. simpl. rewrite lookup_insert_eq. done.
  - left. rewrite lookup_insert_ne by done.
    destruct (subs s !! name') as [p|] eqn:Hp; [|reflexivity]. simpl.
    destruct (Hwf name' p Hp) as (o & Ho & _).
    rewrite lookup_insert_ne; [reflexivity|].
    intros <-. apply (is_fresh (dom (objs s))). apply elem_of_dom. eauto.
Qed.

Lemma ack_handler_bad_name r s :
  validSubRegexp_MatchString (Form_Get r "sub") = false →
  client_error (fst (ack_handler r s)) ∧ snd (ack_handler r s) = s.
Proof.
  intros Hv. unfold ack_handler. case_bool_decide; simpl.
  - rewrite (bind_Ok _ _ _ _ _ (GetSubscription_invalid r s Hv)).
    simpl. unfold StatusBadRequest. split; [lia|reflexivity].
  - unfold StatusMethodNotAllowed. split; [lia|reflexivity].
Qed.

Lemma unsub_handler_bad_name r s :
  validSubRegexp_MatchString (Form_Get r "sub") = false →
  client_error (fst (unsub_handler r s)) ∧ snd (unsub_handler r s) = s.
Proof.
  intros Hv. unfold unsub_handler. case_bool_decide; simpl.
  - rewrite (bind_Ok _ _ _ _ _ (GetSubscription_invalid r s Hv)).
    simpl. unfold StatusBadRequest. split; [lia|reflexivity].
  - unfold StatusMethodNotAllowed. split; [lia|reflexivity].
Qed.

Lemma GetSubscription_Ok r s : ∃ got, fst (GetSubscription r s) = Ok got.
Proof.
  destruct (GetSubscription_cases r s)
    as [[_ ->]|[(_ & sub & _ & ->)|(_ & _ & ->)]]; eauto.
Qed.

Lemma pull_handler_bad_count_state r s :
  Atoi (Form_Get r "n") = None →
  client_error (fst (pull_handler r s)) ∧
  snd (pull_handler r s) = snd (GetSubscription r s).
Proof.
  intros Hn. destruct (GetSubscription_Ok r s) as [got Hgot].
  destruct (GetSubscription r s) as [o s'] eqn:Hget. simpl in Hgot. subst o.
  unfold pull_handler. rewrite (bind_Ok _ _ _ _ _ Hget).
  destruct got; rewrite ?Hn; simpl; unfold StatusBadRequest;
    (split; [lia|reflexivity]).
Qed.

Lemma ack_handler_bad_id_state r s :
  ack_parse (Form_index r "id") [] = None →
  client_error (fst (ack_handler r s)) ∧
  (snd (ack_handler r s) = s ∨
   snd (ack_handler r s) = snd (GetSubscription r s)).
Proof.
  intros Hid. unfold ack_handler. case_bool_decide; simpl.
  - destruct (GetSubscription_Ok r s) as [got Hgot].
    destruct (GetSubscription r s) as [o s'] eqn:Hget. simpl in Hgot. subst o.
    rewrite (bind_Ok _ _ _ _ _ Hget).
    destruct got; rewrite ?Hid; simpl; unfold StatusBadRequest;
      (split; [lia|by right]).
  - unfold StatusMethodNotAllowed. split; [lia|by left].
Qed.

Lemma ack_handler_bad_id_post r s :
  Method r = MethodPost →
  ack_parse (Form_index r "id") [] = None →
  snd (ack_handler r s) = snd (GetSubscription r s).
Proof.
  intros Hpost Hid. unfold ack_handler.
  rewrite bool_decide_true by done. cbn [negb]. unfold bind.
  destruct (GetSubscription r s) as [[[sub|]| |] s1]; try done.
  by rewrite Hid.
Qed.

(** C4, as the code has it.  In every state the server can reach: a request
    with a malformed subscription name is refused with a 4xx status by the
    pull, ack and unsub handlers and changes nothing; an ack or an unsub that
    is not a POST is refused with [405] and changes nothing; a pull whose
    count is not an integer, and a POST ack with an id that is not an
    integer, are refused with a 4xx status after their name has been
    resolved: a well-formed name that was not registered is now registered
    with an empty queue, a registered one leaves the state as it is, and in
    both cases the counter, the files and every other queue are as before. *)
Theorem invalid_input_rejected (fs : gmap Z string)
    (rs : list (list Z * Request)) (r : Request) :
  let s := snd (serve_all rs (initial fs)) in
  let name := Form_Get r "sub" in
  (validSubRegexp_MatchString name = false →
     (client_error (fst (pull_handler r s)) ∧ snd (pull_handler r s) = s) ∧
     (client_error (fst (ack_handler r s)) ∧ snd (ack_handler r s) = s) ∧
     (client_error (fst (unsub_handler r s)) ∧
      snd (unsub_handler r s) = s)) ∧
  (Method r ≠ MethodPost →
     ack_handler r s
     = (Ok {| status := StatusMethodNotAllowed; body := None |}, s) ∧
     unsub_handler r s
     = (Ok {| status := StatusMethodNotAllowed; body := None |}, s)) ∧
  (Atoi (Form_Get r "n") = None →
     client_error (fst (pull_handler r s)) ∧
     (validSubRegexp_MatchString name = true →
      registers name s (snd (pull_handler r s)))) ∧
  (ack_parse (Form_index r "id") [] = None →
     client_error (fst (ack_handler r s)) ∧
     (validSubRegexp_MatchString name = true → Method r = MethodPost →
      registers name s (snd (ack_handler r s)))).
Proof.
  intros s name.
  assert (Hwf : registry_wf s) by apply serve_all_wf, initial_wf.
  split; [|split; [|split]].
  - intros Hv. split; [|split].
    + rewrite pull_handler_bad_name by done. simpl.
      unfold StatusBadRequest. split; [lia|reflexivity].
    + by apply ack_handler_bad_name.
    + by apply unsub_handler_bad_name.
  - intros Hm. unfold ack_handler, unsub_handler.
    by rewrite bool_decide_false by done.
  - intros Hn. destruct (pull_handler_bad_count_state r s Hn) as [He ->].
    split; [exact He|]. intros Hv. by apply GetSubscription_registers.
  - intros Hid. destruct (ack_handler_bad_id_state r s Hid) as [He _].
    split; [exact He|]. intros Hv Hpost.
    rewrite (ack_handler_bad_id_post r s Hpost Hid).
    by apply GetSubscription_registers.
Qed.

Lemma invalid_input_rejected_witness :
  let s := snd (serve_all nine_messages_three_acks (initial ∅)) in
  let bad_name := request "GET" "/pull" [("sub", ["9lives"]); ("n", ["1"])] in
  let bad_count := request "GET" "/pull" [("sub", ["sub1"]); ("n", ["ten"])] in
  let bad_id := request "POST" "/ack" [("sub", ["sub0"]); ("id", ["1"; "x"])] in
  snd (pull_handler bad_name s) = s ∧
  queue_of s "sub1" = None ∧
  queue_of (snd (pull_handler bad_count s)) "sub1" = Some [] ∧
  queue_of (snd (pull_handler bad_count s)) "sub0" = queue_of s "sub0" ∧
  snd (ack_handler bad_id s) = s.
Proof.
  intros s bad_name bad_count bad_id.
  pose proof (invalid_input_rejected ∅ nine_messages_three_acks bad_name)
    as (H1 & _ & _ & _).
  pose proof (invalid_input_rejected ∅ nine_messages_three_acks bad_count)
    as (_ & _ & H2 & _).
  pose proof (invalid_input_rejected ∅ nine_messages_three_acks bad_id)
    as (_ & _ & _ & H3).
  assert (E1 : validSubRegexp_MatchString (Form_Get bad_name "sub") = false)
    by (vm_compute; reflexivity).
  assert (E2 : Atoi (Form_Get bad_count "n") = None)
    by (vm_compute; reflexivity).
  assert (E3 : ack_parse (Form_index bad_id "id") [] = None)
    by (vm_compute; reflexivity).
  assert (Hnone : subs s !! "sub1" = None) by (vm_compute; reflexivity).
  assert (Hsome : is_Some (subs s !! "sub0")).
  { exists 0%nat. vm_compute. reflexivity. }
  destruct (proj2 (H2 E2) eq_refl) as (_ & _ & Hother & _ & Hnew).
  destruct (proj2 (H3 E3) eq_refl eq_refl) as (_ & _ & _ & Hsame & _).
  split; [exact (proj2 (proj1 (H1 E1)))|].
  split; [vm_compute; reflexivity|].
  split; [exact (Hnew Hnone)|].
  split; [by apply Hother|exact (Hsame Hsome)].
Defined.

(** C4 as stated fails: a pull with a count that is not an integer, and an
    ack with an id that is not an integer, are refused with [400] after the
    name they carry has been registered. *)
Lemma bad_count_registers_subscription :
  let bad_count := request "GET" "/pull" [("sub", ["sub1"]); ("n", ["ten"])] in
  let bad_id := request "POST" "/ack" [("sub", ["sub2"]); ("id", ["x"])] in
  Atoi (Form_Get bad_count "n") = None ∧
  fst (pull_handler bad_count (initial ∅))
  = Ok {| status := StatusBadRequest; body := None |} ∧
  queue_of (initial ∅) "sub1" = None ∧
  queue_of (snd (pull_handler bad_count (initial ∅))) "sub1" = Some [] ∧
  snd (pull_handler bad_count (initial ∅)) ≠ initial ∅ ∧
  ack_parse (Form_index bad_id "id") [] = None ∧
  fst (ack_handler bad_id (initial ∅))
  = Ok {| status := StatusBadRequest; body := None |} ∧
  queue_of (snd (ack_handler bad_id (initial ∅))) "sub2" = Some [].
Proof.
  intros bad_count bad_id.
  repeat split; try (vm_compute; reflexivity).
  intros H. apply (f_equal (λ s, queue_of s "sub1")) in H.
  vm_compute in H. discriminate H.
Qed.

(** ** The loop counters are never exhausted *)

Lemma fuel_ok_bind {S A B} (m : M S A) (k : A → M S B) :
  fuel_ok m → (∀ a, fuel_ok (k a)) → fuel_ok (bind m k).
Proof.
  intros Hm Hk s. unfold bind. specialize (Hm s).
  destruct (m s) as [[a| |] s']; simpl in *; try done. apply Hk.
Qed.

Lemma fuel_ok_ret {S A} (a : A) : fuel_ok (@ret S A a).
Proof. intros s. done. Qed.

Lemma fuel_ok_if {S A} (b : bool) (m1 m2 : M S A) :
  fuel_ok m1 → fuel_ok m2 → fuel_ok (if b then m1 else m2).
Proof. by destruct b. Qed.

Lemma fuel_ok_on_sub {A} sub (m : M MessageQueue A) :
  fuel_ok m → fuel_ok (on_sub sub m).
Proof.
  intros Hm s. unfold on_sub. destruct (objs s !! sub) as [o|]; [|done].
  specialize (Hm (UnAcked o)). by destruct (m (UnAcked o)).
Qed.

Lemma fuel_ok_GetSubscription r : fuel_ok (GetSubscription r).
Proof.
  intros s. destruct (GetSubscription_Ok r s) as [got ->]. done.
Qed.

Lemma fuel_ok_FindUnAckedMessageIds n : fuel_ok (FindUnAckedMessageIds n).
Proof.
  intros q. destruct (Z_lt_le_dec n 0).
  - by rewrite FindUnAckedMessageIds_negative.
  - by rewrite FindUnAckedMessageIds_nonneg.
Qed.

Lemma fuel_ok_AckMessages ids : fuel_ok (AckMessages ids).
Proof.
  intros q. destruct (AckMessages_removes_only_input ids q)
    as (q' & removed & -> & _). done.
Qed.

Lemma PutMessages_push_ok (k : nat) : ∀ (i : Z) (q : MessageQueue),
  ∃ q', PutMessages_push k i q = (Ok tt, q') ∧
        q' ≡ₚ ((λ j, i + Z.of_nat j) <$> seq 0 k) ++ q.
Proof.
  induction k as [|k IH]; intros i q; [by exists q|].
  cbn [PutMessages_push].
  destruct (heap_Push_ok i q) as (q1 & Hpush & Hperm).
  rewrite (bind_Ok _ _ _ _ _ Hpush).
  destruct (IH (i + 1) q1) as (q' & Hrun & Hperm').
  exists q'. split; [exact Hrun|].
  assert (E : (λ j, i + Z.of_nat j) <$> seq 0 (S k)
              = i :: ((λ j, i + 1 + Z.of_nat j) <$> seq 0 k)).
  { simpl. f_equal; [lia|].
    rewrite <- fmap_S_seq, <- list_fmap_compose.
    apply list_fmap_ext. intros _ j _. simpl. lia. }
  rewrite E, Hperm', Hperm. simpl. by rewrite <- Permutation_middle.
Qed.

Lemma fuel_ok_PutMessages_range targets baseID bound :
  fuel_ok (PutMessages_range targets baseID bound).
Proof.
  induction targets as [|[name sub] rest IH]; simpl; [apply fuel_ok_ret|].
  apply fuel_ok_bind; [|by intros _]. apply fuel_ok_on_sub. intros q.
  destruct (PutMessages_push_ok (Z.to_nat (bound - baseID)) baseID q)
    as (q' & -> & _). done.
Qed.

Lemma fuel_ok_PutMessages_write wfail baseID messages :
  ∀ i, fuel_ok (PutMessages_write wfail baseID i messages).
Proof.
  induction messages as [|m rest IH]; intros i; simpl; [apply fuel_ok_ret|].
  apply fuel_ok_if; [apply fuel_ok_ret|].
  apply fuel_ok_bind; [by intros f|]. intros _. apply IH.
Qed.

Lemma fuel_ok_on_files {A} (m : M (gmap Z string) A) :
  fuel_ok m → fuel_ok (on_files m).
Proof.
  intros Hm s. unfold on_files. specialize (Hm (files s)).
  by destruct (m (files s)).
Qed.

(** Whatever the request and the state, the answer of the server is a
    response or a panic: the bound on the loops of [container/heap] plays
    no part in it. *)
Lemma serve_fuel_ok wfail r : fuel_ok (serve wfail r).
Proof.
  unfold serve, send_handler, unsub_handler, pull_handler, ack_handler,
    respond, GetMessages, PutMessages, DestroySubscription.
  repeat first
    [ apply fuel_ok_ret
    | apply fuel_ok_GetSubscription
    | apply fuel_ok_on_sub;
        first [apply fuel_ok_FindUnAckedMessageIds | apply fuel_ok_AckMessages]
    | apply fuel_ok_PutMessages_range
    | apply fuel_ok_on_files, fuel_ok_PutMessages_write
    | apply fuel_ok_if
    | apply fuel_ok_bind; [|intros ?]
    | match goal with
      | |- fuel_ok (match ?x with _ => _ end) => destruct x
      | |- fuel_ok _ => by intros ?
      end ].
Qed.

(** ** Fan-out reaches the subscriptions of the moment only *)

Lemma queue_of_on_sub {A} sub (m : M MessageQueue A) s name :
  registry_wf s →
  queue_of (snd (on_sub sub m s)) name = queue_of s name ∨
  ∃ q, queue_of s name = Some q ∧
       queue_of (snd (on_sub sub m s)) name = Some (snd (m q)).
Proof.
  intros Hwf. unfold on_sub.
  destruct (objs s !! sub) as [o|] eqn:Ho; [|by left].
  destruct (m (UnAcked o)) as [a q'] eqn:Hm. simpl.
  unfold queue_of. simpl.
  destruct (subs s !! name) as [p|] eqn:Hp; simpl; [|by left].
  destruct (decide (p = sub)) as [->|Hne].
  - right. exists (UnAcked o). rewrite Ho, lookup_insert_eq, Hm. done.
  - left. by rewrite lookup_insert_ne.
Qed.

Lemma on_sub_ids_from {A} b name sub (m : M MessageQueue A) :
  (∀ q, Forall (λ id, b ≤ id) q →
        Forall (λ id, b ≤ id) (snd (m q))) →
  preserves (ids_from b name) (on_sub sub m).
Proof.
  intros Hm s (Hwf & Hb & Hq). split; [by apply on_sub_wf|]. split.
  - unfold on_sub. destruct (objs s !! sub) as [o|]; [|done].
    by destruct (m (UnAcked o)).
  - intros q' Hq'.
    destruct (queue_of_on_sub sub m s name Hwf) as [E|(q & Hsome & E)];
      rewrite E in Hq'; [by apply Hq|].
    injection Hq' as <-. by apply Hm, Hq.
Qed.

Lemma GetSubscription_ids_from b name r :
  preserves (ids_from b name) (GetSubscription r).
Proof.
  intros s (Hwf & Hb & Hq). split; [by apply GetSubscription_wf|].
  destruct (GetSubscription_only_registers r s Hwf) as (Ht & _ & Hreg).
  split; [by rewrite Ht|]. intros q Hsome.
  destruct (Hreg name) as [E|(_ & _ & E)]; rewrite E in Hsome.
  - by apply Hq.
  - injection Hsome as <-. constructor.
Qed.

Lemma DestroySubscription_ids_from b name sub :
  preserves (ids_from b name) (DestroySubscription sub).
Proof.
  intros s (Hwf & Hb & Hq). split; [by apply DestroySubscription_wf|].
  unfold DestroySubscription, bind, get.
  destruct (objs s !! sub) as [o|]; simpl; [|done].
  split; [done|]. intros q. unfold queue_of. simpl.
  destruct (decide (Name o = name)) as [<-|Hne].
  - by rewrite lookup_delete_eq.
  - rewrite lookup_delete_ne by done. apply Hq.
Qed.

Lemma on_files_ids_from {A} b name (m : M (gmap Z string) A) :
  preserves (ids_from b name) (on_files m).
Proof.
  intros s H. unfold on_files. destruct (m (files s)). exact H.
Qed.

Lemma PutMessages_push_from b k i q :
  b ≤ i → Forall (λ id, b ≤ id) q →
  Forall (λ id, b ≤ id) (snd (PutMessages_push k i q)).
Proof.
  intros Hi Hq. destruct (PutMessages_push_ok k i q) as (q' & -> & Hperm).
  simpl. rewrite Hperm. apply Forall_app. split; [|done].
  apply Forall_fmap, Forall_forall. intros j _. simpl. lia.
Qed.

Lemma PutMessages_range_ids_from b name targets baseID bound :
  b ≤ baseID →
  preserves (ids_from b name) (PutMessages_range targets baseID bound).
Proof.
  intros Hb. induction targets as [|[name' sub] rest IH]; simpl;
    [auto with preserves|].
  apply preserves_bind; [|by intros _].
  apply on_sub_ids_from. intros q. by apply PutMessages_push_from.
Qed.

Lemma PutMessages_ids_from b name wfail messages baseID :
  b ≤ baseID →
  preserves (ids_from b name) (PutMessages wfail messages baseID).
Proof.
  intros Hb. unfold PutMessages.
  apply preserves_bind; [apply on_files_ids_from|].
  intros ok. apply preserves_if; [auto with preserves|].
  apply preserves_bind; [auto with preserves|]. intros s.
  apply preserves_bind; [by apply PutMessages_range_ids_from|].
  auto with preserves.
Qed.

Lemma send_handler_ids_from b name wfail r s :
  NextMesgID (topic s) + Z.of_nat (length (Form_index r "message"))
  < uint64_modulus →
  ids_from b name s → ids_from b name (snd (send_handler wfail r s)).
Proof.
  intros Hwrap Hs. unfold send_handler.
  case_bool_decide; simpl; [|exact Hs].
  unfold bind at 1, on_topic, CreateMessageIds. simpl.
  destruct Hs as (Hwf & Hb & Hq).
  apply preserves_bind.
  - apply PutMessages_ids_from. lia.
  - intros ok. apply preserves_if; unfold respond; auto with preserves.
  - split; [exact Hwf|]. split; [|exact Hq]. simpl.
    rewrite uint64_add, Z.mod_small; lia.
Qed.

Lemma serve_ids_from b name wfail r s :
  (Path r = "/send" →
   NextMesgID (topic s) + Z.of_nat (length (Form_index r "message"))
   < uint64_modulus) →
  ids_from b name s → ids_from b name (snd (serve wfail r s)).
Proof.
  intros Hwrap Hs. unfold serve.
  case_bool_decide; [by apply send_handler_ids_from; auto|].
  clear Hwrap. revert s Hs. change (preserves (ids_from b name)
    (if bool_decide (Path r = "/unsub") then unsub_handler r
     else if bool_decide (Path r = "/pull") then pull_handler r
     else if bool_decide (Path r = "/ack") then ack_handler r
     else respond StatusNotFound)).
  unfold unsub_handler, pull_handler, ack_handler, respond, GetMessages.
  repeat first
    [ progress auto with preserves
    | apply GetSubscription_ids_from
    | apply DestroySubscription_ids_from
    | apply on_sub_ids_from; intros q Hq;
        first [ by rewrite FindUnAckedMessageIds_state
              | match goal with
                | |- Forall _ (snd (AckMessages ?ids q)) =>
                    destruct (AckMessages_removes_only_input ids q)
                      as (q' & removed & -> & Hperm & _);
                    rewrite Hperm in Hq; by apply Forall_app in Hq as [_ ?]
                end ]
    | apply preserves_if
    | apply preserves_bind; [|intros ?]
    | match goal with
      | |- preserves _ (match ?x with _ => _ end) => destruct x
      end ].
Qed.

Lemma serve_all_ids_from b name rs : ∀ s,
  no_wrap rs s → ids_from b name s → ids_from b name (snd (serve_all rs s)).
Proof.
  induction rs as [|[wfail r] rest IH]; intros s Hwrap Hs; [exact Hs|].
  simpl in *. destruct Hwrap as [Hr Hrest].
  pose proof (serve_ids_from b name wfail r s Hr Hs) as H1.
  destruct (serve wfail r s) as [o s1]. simpl in *.
  specialize (IH s1 Hrest H1). destruct (serve_all rest s1). exact IH.
Qed.

Lemma serve_counter wfail r :
  preserves (λ s, 0 ≤ NextMesgID (topic s)) (serve wfail r).
Proof.
  assert (Hsub : ∀ A sub (m : M MessageQueue A),
            preserves (λ s, 0 ≤ NextMesgID (topic s)) (on_sub sub m)).
  { intros A sub m s Hs. unfold on_sub.
    destruct (objs s !! sub) as [o|]; [|done]. by destruct (m (UnAcked o)). }
  assert (Hget : ∀ r', preserves (λ s, 0 ≤ NextMesgID (topic s))
                         (GetSubscription r')).
  { intros r' s Hs.
    destruct (GetSubscription_cases r' s)
      as [[_ ->]|[(_ & sub & _ & ->)|(_ & _ & ->)]]; exact Hs. }
  assert (Hrange : ∀ targets baseID bound,
            preserves (λ s, 0 ≤ NextMesgID (topic s))
              (PutMessages_range targets baseID bound)).
  { induction targets as [|[name sub] rest IH]; intros baseID bound; simpl;
      [auto with preserves|].
    apply preserves_bind; [apply Hsub|]. intros _. apply IH. }
  unfold serve, send_handler, unsub_handler, pull_handler, ack_handler,
    respond, GetMessages, PutMessages, DestroySubscription.
  repeat first
    [ progress auto with preserves
    | apply Hsub | apply Hget | apply Hrange
    | apply preserves_if
    | apply preserves_bind; [|intros ?]
    | match goal with
      | |- preserves _ (match ?x with _ => _ end) => destruct x
      | |- preserves _ (on_topic _) =>
          intros ? _; simpl; apply Z.mod_pos_bound; reflexivity
      | |- preserves _ (on_files _) =>
          intros s' Hs'; unfold on_files;
          destruct (PutMessages_write _ _ _ _ (files s')); exact Hs'
      | |- preserves _ (subs_delete _) => intros ? ?; assumption
      end ].
Qed.

Lemma serve_all_counter rs : ∀ s,
  0 ≤ NextMesgID (topic s) →
  0 ≤ NextMesgID (topic (snd (serve_all rs s))).
Proof.
  induction rs as [|[wfail r] rest IH]; intros s Hs; [exact Hs|].
  simpl. pose proof (serve_counter wfail r s Hs) as H1.
  destruct (serve wfail r s) as [o s1]. simpl in H1.
  specialize (IH s1 H1). destruct (serve_all rest s1). exact IH.
Qed.

(** X23: the half of the invariant of the unacked queue that the code keeps:
    a name that is not registered when the counter stands at [b] never gets an
    id below [b] into its queue, whatever is requested afterwards, as long
    as the counter does not wrap.  The ids of every earlier publish are
    below [b]. *)
Theorem fan_out_after_creation (fs : gmap Z string)
    (rs1 rs2 : list (list Z * Request)) (name : string) (q : MessageQueue) :
  let s1 := snd (serve_all rs1 (initial fs)) in
  subs s1 !! name = None →
  no_wrap rs2 s1 →
  queue_of (snd (serve_all rs2 s1)) name = Some q →
  Forall (λ id, NextMesgID (topic s1) ≤ id) q.
Proof.
  intros s1 Hnone Hwrap Hq.
  assert (Hs1 : ids_from (NextMesgID (topic s1)) name s1).
  { split; [apply serve_all_wf, initial_wf|]. split.
    - split; [|lia]. apply serve_all_counter. simpl. lia.
    - intros q0. unfold queue_of. rewrite Hnone. discriminate. }
  destruct (serve_all_ids_from _ name rs2 s1 Hwrap Hs1) as (_ & _ & H).
  by apply H.
Qed.

Lemma fan_out_after_creation_witness :
  let rs1 := [do_pull "sub0" "0"; do_send ["foo"; "bar"]] in
  let rs2 := [do_pull "sub1" "0"; do_send ["john"; "paul"; "george"];
              do_ack "sub1" ["3"]] in
  queue_of (snd (serve_all (rs1 ++ rs2) (initial ∅))) "sub0"
  = Some [0; 1; 2; 3; 4] ∧
  queue_of (snd (serve_all rs2 (snd (serve_all rs1 (initial ∅))))) "sub1"
  = Some [2; 4] ∧
  Forall (λ id, 2 ≤ id) [2; 4].
Proof.
  intros rs1 rs2.
  assert (Hq : queue_of
                 (snd (serve_all rs2 (snd (serve_all rs1 (initial ∅)))))
                 "sub1" = Some [2; 4]) by (vm_compute; reflexivity).
  split; [vm_compute; reflexivity|]. split; [exact Hq|].
  apply (fan_out_after_creation ∅ rs1 rs2 "sub1" [2; 4]).
  - vm_compute. reflexivity.
  - vm_compute. repeat split; intros; done.
  - exact Hq.
Defined.

(** C8 (the code departs from it): [sub0] is created, ids 0 to 8 are
    published, 0, 3 and 4 are acknowledged, then 6 and 7.  Every request is
    answered [200], and the pull that follows still returns id 6, which the
    subscription has acknowledged. *)
Theorem acknowledged_id_is_pulled_again :
  let rs := nine_messages_three_acks
            ++ [do_ack "sub0" ["6"; "7"]; do_pull "sub0" "10"] in
  map (λ o, match o with Ok resp => Some (status resp) | _ => None end)
      (fst (serve_all rs (initial ∅)))
  = [Some 200; Some 200; Some 200; Some 200; Some 200] ∧
  queue_of (snd (serve_all rs (initial ∅))) "sub0" = Some [1; 5; 2; 6; 8] ∧
  last (map ids_of (fst (serve_all rs (initial ∅))))
  = Some (Some (list_to_set [1; 2; 5; 6; 8])).
Proof. vm_compute. repeat split; reflexivity. Qed.

(** ** Goroutines racing on the registry *)

Module ConcurrentFacts.
Import Concurrent.

Lemma Get_new_object_Ok name s :
  Get_new_object name s =
    (Ok (fresh (dom (objs s))),
     {| subs := subs s;
        objs := <[fresh (dom (objs s)) := {| Name := name; UnAcked := [] |}]>
                  (objs s);
        topic := topic s; files := files s |}).
Proof.
  unfold Get_new_object, bind, new_Subscription, on_sub, ret. simpl.
  rewrite lookup_insert_eq. simpl. rewrite insert_insert_eq. reflexivity.
Qed.

Lemma on_sub_subs {A} sub (m : M MessageQueue A) s :
  subs (snd (on_sub sub m s)) = subs s.
Proof.
  unfold on_sub. destruct (objs s !! sub) as [o|]; [|reflexivity].
  destruct (m (UnAcked o)). reflexivity.
Qed.

Lemma live_at_insert lv name l name' :
  live_at (<[name := l]> lv) name'
  = if decide (name = name') then l else live_at lv name'.
Proof.
  unfold live_at. rewrite lookup_insert. by destruct (decide (name = name')).
Qed.

Lemma registered_length s name : (length (registered s name) ≤ 1)%nat.
Proof. unfold registered. destruct (subs s !! name); simpl; lia. Qed.

(** [holder_inv] looks at the registry only. *)
Lemma holder_inv_subs p s s' lv :
  subs s' = subs s → holder_inv p s lv → holder_inv p s' lv.
Proof.
  intros E. unfold holder_inv, registered. rewrite E. done.
Qed.

Section one_step.
Variable c : Config.
Variable t : nat.
Variables p p' : pc.
Hypothesis Hinv : mutex_inv c.
Hypothesis Ht : goroutines c !! t = Some p.

Lemma lookup_goroutine t' q :
  <[t := p']> (goroutines c) !! t' = Some q →
  (t' = t ∧ q = p') ∨ (t' ≠ t ∧ goroutines c !! t' = Some q).
Proof.
  intros H. apply list_lookup_insert_Some in H.
  destruct H as [(-> & -> & _)|[Hne H]]; [by left|by right].
Qed.

Lemma lookup_goroutine_self : <[t := p']> (goroutines c) !! t = Some p'.
Proof.
  apply list_lookup_insert_eq. by apply lookup_lt_Some in Ht.
Qed.

(** A step outside the critical section that leaves the registry alone. *)
Lemma inv_outside s' :
  critical p = false → critical p' = false → subs s' = subs (state c) →
  mutex_inv {| state := s'; subsMu := subsMu c; live := live c;
               goroutines := <[t := p']> (goroutines c) |}.
Proof.
  intros Hp Hp' Hsubs. unfold mutex_inv in *. simpl.
  destruct (subsMu c).
  - destruct Hinv as (t0 & p0 & Ht0 & Hc0 & Hh & Huniq).
    assert (t0 ≠ t) by (intros ->; congruence).
    exists t0, p0. split; [by rewrite list_lookup_insert_ne|].
    split; [done|]. split; [by apply (holder_inv_subs _ (state c))|].
    intros t' q Hq Hcq.
    destruct (lookup_goroutine _ _ Hq) as [[-> ->]|[_ Hq']]; [congruence|].
    by eapply Huniq.
  - destruct Hinv as [Hnone Hlive]. split.
    + intros t' q Hq.
      destruct (lookup_goroutine _ _ Hq) as [[-> ->]|[_ Hq']]; [done|].
      by eapply Hnone.
    + intros name. unfold registered. rewrite Hsubs. apply Hlive.
Qed.

(** [Lock] succeeds. *)
Lemma inv_acquire :
  subsMu c = false → critical p' = true →
  (∀ s lv, (∀ name, live_at lv name = registered s name) →
           holder_inv p' s lv) →
  mutex_inv {| state := state c; subsMu := true; live := live c;
               goroutines := <[t := p']> (goroutines c) |}.
Proof.
  intros Hmu Hp' Hh. unfold mutex_inv in *. simpl. rewrite Hmu in Hinv.
  destruct Hinv as [Hnone Hlive].
  exists t, p'. split; [apply lookup_goroutine_self|]. split; [done|].
  split; [by apply Hh|].
  intros t' q Hq Hcq.
  destruct (lookup_goroutine _ _ Hq) as [[-> ->]|[_ Hq']]; [done|].
  apply Hnone in Hq'. congruence.
Qed.

Lemma holder_is_t :
  critical p = true →
  subsMu c = true ∧ holder_inv p (state c) (live c) ∧
  ∀ t' q, goroutines c !! t' = Some q → critical q = true → t' = t.
Proof.
  intros Hp. unfold mutex_inv in Hinv. destruct (subsMu c).
  - destruct Hinv as (t0 & p0 & Ht0 & Hc0 & Hh & Huniq).
    assert (t = t0) as <- by by eapply Huniq.
    assert (p0 = p) as -> by congruence. done.
  - destruct Hinv as [Hnone _]. apply Hnone in Ht. congruence.
Qed.

(** A step inside the critical section. *)
Lemma inv_inside s' lv' :
  critical p = true → critical p' = true →
  (holder_inv p (state c) (live c) → holder_inv p' s' lv') →
  mutex_inv {| state := s'; subsMu := subsMu c; live := lv';
               goroutines := <[t := p']> (goroutines c) |}.
Proof.
  intros Hp Hp' Hh. destruct (holder_is_t Hp) as (Hmu & Hhp & Huniq).
  unfold mutex_inv. simpl. rewrite Hmu.
  exists t, p'. split; [apply lookup_goroutine_self|]. split; [done|].
  split; [by apply Hh|].
  intros t' q Hq Hcq.
  destruct (lookup_goroutine _ _ Hq) as [[-> ->]|[_ Hq']]; [done|].
  by eapply Huniq.
Qed.

(** [Unlock]. *)
Lemma inv_release :
  critical p = true → critical p' = false →
  (holder_inv p (state c) (live c) →
   ∀ name, live_at (live c) name = registered (state c) name) →
  mutex_inv {| state := state c; subsMu := false; live := live c;
               goroutines := <[t := p']> (goroutines c) |}.
Proof.
  intros Hp Hp' Hh. destruct (holder_is_t Hp) as (Hmu & Hhp & Huniq).
  unfold mutex_inv. simpl. split; [|by apply Hh].
  intros t' q Hq.
  destruct (lookup_goroutine _ _ Hq) as [[-> ->]|[Hne Hq']]; [done|].
  destruct (critical q) eqn:Hcq; [|done].
  by specialize (Huniq _ _ Hq' Hcq).
Qed.
End one_step.

Lemma step_inv t ch c c' :
  mutex_inv c → step t ch c = Some c' → mutex_inv c'.
Proof.
  intros Hinv Hstep. unfold step in Hstep.
  destruct (goroutines c !! t) as [p|] eqn:Ht; [|discriminate].
  destruct p as [|r|name|name|name|name sub|name sub| |name [sub|]|sub|sub|],
    ch;
    simpl in Hstep; try discriminate.
  - (* Idle: a request arrives *)
    injection Hstep as <-. by eapply inv_outside.
  - (* line 76 *)
    destruct (negb _); injection Hstep as <-; by eapply inv_outside.
  - (* line 81 *)
    destruct (subsMu c) eqn:Hmu; [discriminate|]. injection Hstep as <-.
    by eapply inv_acquire.
  - (* line 83 *)
    destruct (subs (state c) !! name) as [sub|] eqn:Hsub;
      injection Hstep as <-; (eapply inv_inside; [done..|]); simpl; eauto.
  - (* lines 88 to 92 *)
    rewrite Get_new_object_Ok in Hstep. injection Hstep as <-.
    eapply inv_inside; [done..|]. simpl. intros [Hnone Hlive].
    split; [done|]. split.
    + rewrite live_at_insert, decide_True by done.
      rewrite Hlive. unfold registered. by rewrite Hnone.
    + intros name' Hne. rewrite live_at_insert, decide_False by done.
      apply Hlive.
  - (* line 93 *)
    injection Hstep as <-. eapply inv_inside; [done..|]. simpl.
    intros (Hnone & Hlive & Hother). split; [apply lookup_insert_eq|].
    intros name'. unfold registered. simpl.
    destruct (decide (name = name')) as [<-|Hne].
    + by rewrite lookup_insert_eq.
    + rewrite lookup_insert_ne by done. by apply Hother.
  - (* line 82, returning *)
    injection Hstep as <-. eapply inv_release; [done..|]. simpl. tauto.
  - (* line 82, panicking *)
    injection Hstep as <-. eapply inv_release; [done..|]. simpl. tauto.
  - (* the handler goes on to DestroySubscription *)
    injection Hstep as <-. by eapply inv_outside.
  - (* the handler works on the queue *)
    injection Hstep as <-. eapply inv_outside; [done..|]. apply on_sub_subs.
  - (* the handler returns *)
    injection Hstep as <-. by eapply inv_outside.
  - (* the handler returns after a refusal *)
    injection Hstep as <-. by eapply inv_outside.
  - (* line 99 *)
    destruct (subsMu c) eqn:Hmu; [discriminate|]. injection Hstep as <-.
    by eapply inv_acquire.
  - (* line 101 *)
    destruct (objs (state c) !! sub) as [o|] eqn:Ho; injection Hstep as <-;
      (eapply inv_inside; [done..|]); simpl; [|done].
    intros Hlive name'. rewrite live_at_insert. unfold registered. simpl.
    destruct (decide (Name o = name')) as [<-|Hne].
    + by rewrite lookup_delete_eq.
    + rewrite lookup_delete_ne by done. apply Hlive.
  - (* line 100 *)
    injection Hstep as <-. eapply inv_release; [done..|]. simpl. tauto.
Qed.

Lemma start_inv n fs : mutex_inv (start n fs).
Proof.
  unfold mutex_inv, start. simpl. split.
  - intros t p Hp. apply lookup_replicate in Hp as [-> _]. reflexivity.
  - intros name. unfold live_at, registered. simpl.
    by rewrite !lookup_empty.
Qed.

Lemma run_inv sched c c' :
  mutex_inv c → run sched c = Some c' → mutex_inv c'.
Proof.
  revert c. induction sched as [|[t ch] rest IH]; intros c Hinv Hrun.
  - simpl in Hrun. by injection Hrun as <-.
  - simpl in Hrun. destruct (step t ch c) as [c1|] eqn:Hstep; [|discriminate].
    eapply IH; [|exact Hrun]. by eapply step_inv.
Qed.

Lemma live_of_registered c name sub :
  mutex_inv c → subs (state c) !! name = Some sub →
  live_at (live c) name = [sub].
Proof.
  intros Hinv Hsub.
  assert (Hreg : registered (state c) name = [sub]).
  { unfold registered. by rewrite Hsub. }
  unfold mutex_inv in Hinv. destruct (subsMu c).
  - destruct Hinv as (t & p & _ & _ & Hh & _).
    destruct p; simpl in Hh; try (by rewrite <- Hreg; apply Hh).
    destruct Hh as (Hnone & _ & Hother).
    rewrite <- Hreg. apply Hother. congruence.
  - destruct Hinv as [_ Hlive]. by rewrite Hlive.
Qed.

Lemma resolved_update c t p' s' mu' lv' :
  resolved_inv c →
  (∀ name sub, subs (state c) !! name = Some sub →
               subs s' !! name = Some sub) →
  match p' with
  | Got name (Some sub) => subs s' !! name = Some sub
  | Destroy_Lock _ | Destroy_delete _ | Destroy_Unlock => False
  | _ => True
  end →
  resolved_inv {| state := s'; subsMu := mu'; live := lv';
                  goroutines := <[t := p']> (goroutines c) |}.
Proof.
  intros Hinv Hsubs Hp' t' q Hq. simpl in *.
  apply list_lookup_insert_Some in Hq as [(-> & -> & _)|[Hne Hq]];
    [exact Hp'|].
  specialize (Hinv t' q Hq).
  destruct q as [| | | | | | | |name [sub|]| | |]; try done. by apply Hsubs.
Qed.

Lemma step_resolved t ch c c' :
  mutex_inv c → resolved_inv c → calls_destroy ch = false →
  step t ch c = Some c' → resolved_inv c'.
Proof.
  intros Hmx Hres Hch Hstep. unfold step in Hstep.
  destruct (goroutines c !! t) as [p|] eqn:Ht; [|discriminate].
  pose proof (Hres t p Ht) as Hp.
  destruct p as [|r|name|name|name|name sub|name sub| |name [sub|]|sub|sub|],
    ch; simpl in Hstep; try discriminate; try done.
  - injection Hstep as <-. by apply resolved_update.
  - destruct (negb _); injection Hstep as <-; by apply resolved_update.
  - destruct (subsMu c); [discriminate|]. injection Hstep as <-.
    by apply resolved_update.
  - destruct (subs (state c) !! name); injection Hstep as <-;
      by apply resolved_update.
  - rewrite Get_new_object_Ok in Hstep. injection Hstep as <-.
    by apply resolved_update.
  - injection Hstep as <-.
    destruct (holder_is_t c t _ Hmx Ht eq_refl) as (_ & (Hnone & _) & _).
    apply resolved_update; [done| |done]. simpl. intros name0 sub0 H0.
    rewrite lookup_insert_ne; [done|]. congruence.
  - injection Hstep as <-.
    destruct (holder_is_t c t _ Hmx Ht eq_refl) as (_ & (Hsub & _) & _).
    by apply resolved_update.
  - injection Hstep as <-. by apply resolved_update.
  - injection Hstep as <-. apply resolved_update; [done|..].
    + intros name0 sub0. by rewrite on_sub_subs.
    + by rewrite on_sub_subs.
  - injection Hstep as <-. by apply resolved_update.
  - injection Hstep as <-. by apply resolved_update.
Qed.

Lemma start_resolved n fs : resolved_inv (start n fs).
Proof.
  intros t p Hp. simpl in Hp. by apply lookup_replicate in Hp as [-> _].
Qed.

Lemma run_resolved sched : ∀ c c',
  mutex_inv c → resolved_inv c → no_destroy sched →
  run sched c = Some c' → resolved_inv c'.
Proof.
  unfold no_destroy.
  induction sched as [|[t ch] rest IH]; intros c c' Hmx Hres Hnd Hrun.
  - simpl in Hrun. by injection Hrun as <-.
  - simpl in Hrun, Hnd. apply andb_true_iff in Hnd as [Hch Hnd].
    apply negb_true_iff in Hch.
    destruct (step t ch c) as [c1|] eqn:Hstep; [|discriminate].
    eapply (IH c1); [by eapply step_inv|by eapply step_resolved|done..].
Qed.

(** C9: under every schedule of any number of goroutines, for every name at
    most one object created for it exists that has not been destroyed since,
    and a call of [GetSubscription] that is about to return hands out that
    object.  As long as no handler has called [DestroySubscription], all
    handlers that have resolved the same name hold the same object: goroutines
    that race for an unknown name do not get two objects. *)
Theorem one_object_per_name (n : nat) (fs : gmap Z string)
    (sched : list (nat * choice)) (c : Config) :
  run sched (start n fs) = Some c →
  (∀ name, (length (live_at (live c) name) ≤ 1)%nat) ∧
  (∀ t name sub,
     goroutines c !! t = Some (Get_Unlock name sub) →
     live_at (live c) name = [sub]) ∧
  (no_destroy sched →
   ∀ t1 t2 name sub1 sub2,
     goroutines c !! t1 = Some (Got name (Some sub1)) →
     goroutines c !! t2 = Some (Got name (Some sub2)) →
     sub1 = sub2 ∧ live_at (live c) name = [sub1]).
Proof.
  intros Hrun. pose proof (run_inv _ _ _ (start_inv n fs) Hrun) as Hinv.
  split; [|split].
  - intros name. unfold mutex_inv in Hinv. destruct (subsMu c).
    + destruct Hinv as (t & p & _ & _ & Hh & _).
      assert (Hcases : (∀ name', live_at (live c) name'
                                 = registered (state c) name') ∨
                       ∃ name0 sub, p = Get_store name0 sub).
      { destruct p; simpl in Hh; try (left; tauto). right. eauto. }
      destruct Hcases as [Hlive|(name0 & sub & ->)].
      * rewrite Hlive. apply registered_length.
      * simpl in Hh. destruct Hh as (_ & Hl & Hother).
        destruct (decide (name = name0)) as [->|Hne].
        -- rewrite Hl. simpl. lia.
        -- rewrite Hother by done. apply registered_length.
    + destruct Hinv as [_ Hlive]. rewrite Hlive. apply registered_length.
  - intros t name sub Ht.
    destruct (holder_is_t c t _ Hinv Ht eq_refl) as (_ & [Hsub _] & _).
    by apply live_of_registered.
  - intros Hnd t1 t2 name sub1 sub2 H1 H2.
    pose proof (run_resolved sched _ _ (start_inv n fs) (start_resolved n fs)
                  Hnd Hrun) as Hres.
    apply Hres in H1. apply Hres in H2. simpl in H1, H2.
    split; [congruence|]. by apply live_of_registered.
Qed.

Lemma one_object_per_name_witness :
  match run race_schedule (start 2 ∅) with
  | Some c =>
      goroutines c = [Got "sub0" (Some 0%nat); Got "sub0" (Some 0%nat)] ∧
      live_at (live c) "sub0" = [0%nat] ∧
      (length (live_at (live c) "sub0") ≤ 1)%nat
  | None => False
  end.
Proof.
  destruct (run race_schedule (start 2 ∅)) as [c|] eqn:Hrun;
    [|vm_compute in Hrun; discriminate Hrun].
  destruct (one_object_per_name 2 ∅ race_schedule c Hrun)
    as (Hone & _ & Hsame).
  assert (Hg : goroutines c
               = [Got "sub0" (Some 0%nat); Got "sub0" (Some 0%nat)]).
  { vm_compute in Hrun. injection Hrun as <-. reflexivity. }
  split; [exact Hg|]. split; [|apply Hone].
  apply (Hsame eq_refl 0%nat 1%nat "sub0" 0%nat 0%nat); by rewrite Hg.
Defined.

(** X24: a goroutine that runs alone from the entry of [GetSubscription] to
    its return does what the sequential function does. *)
Lemma solo_GetSubscription (c : Config) (t : nat) (r : Request) :
  goroutines c !! t = Some (Get_entry r) →
  subsMu c = false →
  ∃ k c' got,
    run (replicate k (t, Next)) c = Some c' ∧
    goroutines c' !! t = Some (Got (Form_Get r "sub") got) ∧
    subsMu c' = false ∧
    GetSubscription r (state c) = (Ok got, state c').
Proof.
  intros Ht Hmu. pose proof (lookup_lt_Some _ _ _ Ht) as Hlen.
  assert (Hat : ∀ p, <[t := p]> (goroutines c) !! t = Some p).
  { intros p. by apply list_lookup_insert_eq. }
  destruct (GetSubscription_cases r (state c))
    as [[Hv Hget]|[(Hv & sub & Hsub & Hget)|(Hv & Hnone & Hget)]].
  - exists 1%nat. do 2 eexists. split.
    { cbn [replicate run].
      unfold step at 1. rewrite Ht. cbn [local_step]. cbv zeta.
      rewrite Hv. cbn [negb]. reflexivity. }
    cbn [goroutines state subsMu]. by rewrite Hat.
  - exists 4%nat. do 2 eexists. split.
    { cbn [replicate run].
      unfold step at 1. rewrite Ht. cbn [local_step]. cbv zeta.
      rewrite Hv. cbn [negb].
      do 3 (unfold step at 1; cbn [goroutines state subsMu live];
            rewrite ?list_insert_insert_eq, Hat; cbn [local_step];
            rewrite ?Hmu, ?Hsub).
      reflexivity. }
    cbn [goroutines state subsMu].
    by rewrite list_insert_insert_eq, Hat.
  - exists 6%nat. do 2 eexists. split.
    { cbn [replicate run].
      unfold step at 1. rewrite Ht. cbn [local_step]. cbv zeta.
      rewrite Hv. cbn [negb].
      do 5 (unfold step at 1; cbn [goroutines state subsMu live];
            rewrite ?list_insert_insert_eq, Hat; cbn [local_step];
            rewrite ?Hmu, ?Hnone, ?Get_new_object_Ok).
      reflexivity. }
    cbn [goroutines state subsMu].
    by rewrite list_insert_insert_eq, Hat.
Qed.

(** While the first goroutine is between [Lock] and [Unlock] the second
    cannot pass line 81. *)
Example second_goroutine_waits :
  run (take 6 race_schedule ++ [(1%nat, Next)]) (start 2 ∅) = None.
Proof. vm_compute. reflexivity. Qed.

End ConcurrentFacts.

(** * Further properties of the code *)

(** ** The methods of [MessageQueue] *)

Lemma slot_lookup (q : MessageQueue) (k : nat) (x : Z) :
  q !! k = Some x → slot q k = x.
Proof. intros H. unfold slot. by rewrite H. Qed.

Lemma Less_slot (q : MessageQueue) (i j : nat) :
  (i < length q)%nat → (j < length q)%nat →
  Less (Z.of_nat i) (Z.of_nat j) q = (Ok (slot q i <? slot q j), q).
Proof.
  intros Hi Hj.
  destruct (lookup_lt_is_Some_2 q i Hi) as [a Ha].
  destruct (lookup_lt_is_Some_2 q j Hj) as [b Hb].
  unfold Less.
  rewrite (bind_Ok _ _ _ _ _ (at_index_ok q (Z.of_nat i) a ltac:(lia)
                                ltac:(by rewrite Nat2Z.id))).
  rewrite (bind_Ok _ _ _ _ _ (at_index_ok q (Z.of_nat j) b ltac:(lia)
                                ltac:(by rewrite Nat2Z.id))).
  by rewrite (slot_lookup _ _ _ Ha), (slot_lookup _ _ _ Hb).
Qed.

Lemma Swap_slot (q : MessageQueue) (i j : nat) :
  (i < length q)%nat → (j < length q)%nat →
  ∃ q', Swap (Z.of_nat i) (Z.of_nat j) q = (Ok tt, q') ∧
        length q' = length q ∧
        ∀ k, slot q' k = if decide (k = j) then slot q i
                         else if decide (k = i) then slot q j
                         else slot q k.
Proof.
  intros Hi Hj.
  destruct (lookup_lt_is_Some_2 q i Hi) as [a Ha].
  destruct (lookup_lt_is_Some_2 q j Hj) as [b Hb].
  exists (<[j := a]> (<[i := b]> q)). unfold Swap.
  rewrite (bind_Ok _ _ _ _ _ (at_index_ok q (Z.of_nat j) b ltac:(lia)
                                ltac:(by rewrite Nat2Z.id))).
  rewrite (bind_Ok _ _ _ _ _ (at_index_ok q (Z.of_nat i) a ltac:(lia)
                                ltac:(by rewrite Nat2Z.id))).
  rewrite !Nat2Z.id. split; [reflexivity|].
  split; [by rewrite !length_insert|].
  intros k. unfold slot.
  destruct (decide (k = j)) as [->|Hkj].
  - rewrite list_lookup_insert_eq by (rewrite length_insert; lia).
    by rewrite Ha.
  - rewrite list_lookup_insert_ne by done.
    destruct (decide (k = i)) as [->|Hki].
    + rewrite list_lookup_insert_eq by lia. by rewrite Hb.
    + by rewrite list_lookup_insert_ne.
Qed.

Lemma parent_quot (j : nat) :
  (Z.of_nat j - 1) `quot` 2 = Z.of_nat (parent j).
Proof.
  unfold parent. destruct j as [|j]; [reflexivity|].
  rewrite Z.quot_div_nonneg by lia.
  replace (S j - 1)%nat with j by lia.
  rewrite Nat2Z.inj_div. f_equal. lia.
Qed.

Lemma parent_lt (j : nat) : (1 ≤ j)%nat → (parent j < j)%nat.
Proof. unfold parent. intros H. apply Nat.Div0.div_lt_upper_bound. lia. Qed.

Lemma parent_children (c i : nat) :
  (1 ≤ c)%nat → parent c = i ↔ c = (2 * i + 1)%nat ∨ c = (2 * i + 2)%nat.
Proof.
  unfold parent. intros Hc. split.
  - intros <-. pose proof (Nat.div_mod_eq (c - 1) 2) as E.
    pose proof (Nat.mod_upper_bound (c - 1) 2). lia.
  - intros [-> | ->].
    + replace (2 * i + 1 - 1)%nat with (i * 2)%nat by lia.
      by rewrite Nat.div_mul.
    + replace (2 * i + 2 - 1)%nat with (1 + i * 2)%nat by lia.
      by rewrite Nat.div_add.
Qed.

(** [up] started at a slot that may be below its parent restores the heap
    order, and touches no slot above the one it starts from. *)
Lemma up_loop_heap (fuel : nat) : ∀ (j n : nat) (q : MessageQueue),
  (j < n ≤ length q)%nat → (j < fuel)%nat → up_inv n j q →
  ∃ q', heap.up_loop fuel (Z.of_nat j) q = (Ok tt, q') ∧
        length q' = length q ∧ heap_upto n q' ∧
        ∀ k, (j < k)%nat → slot q' k = slot q k.
Proof.
  induction fuel as [|fuel IH]; intros j n q Hj Hfuel [Hord Hgp]; [lia|].
  cbn [heap.up_loop]. rewrite parent_quot. cbv zeta.
  case_bool_decide as Hroot.
  { exists q. repeat split; try done. intros k Hk. apply Hord; [done|].
    destruct (decide (1 ≤ j)%nat) as [H1|]; [|lia].
    pose proof (parent_lt j H1). lia. }
  assert (H1 : (1 ≤ j)%nat) by (destruct j; [done|lia]).
  pose proof (parent_lt j H1) as Hlt.
  rewrite (bind_Ok _ _ _ _ _ (Less_slot q j (parent j) ltac:(lia) ltac:(lia))).
  destruct (slot q j <? slot q (parent j)) eqn:Hless; cbn [negb].
  2:{ apply Z.ltb_ge in Hless. exists q. repeat split; try done.
      intros k Hk. destruct (decide (k = j)) as [->|]; [done|by apply Hord]. }
  apply Z.ltb_lt in Hless.
  destruct (Swap_slot q (parent j) j) as (q1 & Hswap & Hlen & Hslot); [lia..|].
  rewrite (bind_Ok _ _ _ _ _ Hswap).
  destruct (IH (parent j) n q1) as (q' & Hrun & Hlen' & Hheap & Hframe).
  { lia. } { lia. }
  { split.
    - intros k Hk Hki. unfold ordered. rewrite !Hslot.
      destruct (decide (k = j)) as [->|Hkj].
      + rewrite decide_False, decide_True by lia. lia.
      + rewrite (decide_False (P := k = parent j)) by done.
        destruct (decide (parent k = j)) as [E|].
        { apply Hgp; done. }
        destruct (decide (parent k = parent j)) as [E|].
        { specialize (Hord k Hk Hkj). unfold ordered in Hord.
          rewrite E in Hord. lia. }
        by apply Hord.
    - intros c Hc Hpc Hi. rewrite !Hslot.
      pose proof (parent_lt _ Hi).
      rewrite (decide_False (P := parent (parent j) = j)) by lia.
      rewrite (decide_False (P := parent (parent j) = parent j)) by lia.
      assert (Hpi : slot q (parent (parent j)) ≤ slot q (parent j)).
      { apply (Hord (parent j)); lia. }
      destruct (decide (c = j)) as [->|Hcj]; [done|].
      assert (c ≠ parent j).
      { intros ->. pose proof (parent_lt (parent j) Hi). lia. }
      rewrite decide_False by done.
      specialize (Hord c Hc Hcj). unfold ordered in Hord.
      rewrite Hpc in Hord. lia. }
  exists q'. split; [exact Hrun|]. split; [lia|]. split; [exact Hheap|].
  intros k Hk. rewrite Hframe by lia. rewrite Hslot.
  rewrite !decide_False by lia. reflexivity.
Qed.

(** [down] started at a slot that may be above its children: when it moves
    the element, the first [n] slots end in heap order; when it does not, the
    array is as it was and only the parent of the slot is left to compare.
    Slots from [n] on are not touched. *)
Lemma down_loop_heap (fuel : nat) : ∀ (i0 i n : nat) (q : MessageQueue),
  (i0 ≤ i)%nat → (n ≤ length q)%nat → (n < fuel + i)%nat → (0 < fuel)%nat →
  down_inv n i0 i q →
  ∃ b q',
    heap.down_loop fuel (Z.of_nat i0) (Z.of_nat i) (Z.of_nat n) q
    = (Ok b, q') ∧
    length q' = length q ∧
    (∀ k, (n ≤ k)%nat → slot q' k = slot q k) ∧
    (b = true → heap_upto n q') ∧
    (b = false → i = i0 ∧ q' = q ∧ up_inv n i0 q).
Proof.
  induction fuel as [|fuel IH]; intros i0 i n q Hi Hn Hfuel Hpos [Hord Hgp];
    [lia|].
  assert (Hdone : (∀ c, (1 ≤ c < n)%nat → parent c = i → ordered q c) →
            ∃ b q', (Ok (bool_decide (Z.of_nat i0 < Z.of_nat i)), q)
                    = (Ok b, q') ∧
              length q' = length q ∧
              (∀ k, (n ≤ k)%nat → slot q' k = slot q k) ∧
              (b = true → heap_upto n q') ∧
              (b = false → i = i0 ∧ q' = q ∧ up_inv n i0 q)).
  { intros Hkids. exists (bool_decide (Z.of_nat i0 < Z.of_nat i)), q.
    split; [done|]. split; [done|]. split; [done|]. split.
    - intros Hb. apply bool_decide_eq_true in Hb. intros k Hk.
      destruct (decide (parent k = i)); [by apply Hkids|].
      apply Hord; [done..|lia].
    - intros Hb. apply bool_decide_eq_false in Hb.
      assert (i = i0) as -> by lia. split; [done|]. split; [done|]. split.
      + intros k Hk Hki. destruct (decide (parent k = i0)); [by apply Hkids|].
        by apply Hord.
      + exact Hgp. }
  cbn [heap.down_loop]. cbv zeta.
  replace (2 * Z.of_nat i + 1) with (Z.of_nat (2 * i + 1)) by lia.
  replace (Z.of_nat (2 * i + 1) + 1) with (Z.of_nat (2 * i + 2)) by lia.
  destruct (decide (Z.of_nat n ≤ Z.of_nat (2 * i + 1)
                    ∨ Z.of_nat (2 * i + 1) < 0)) as [Hleaf|Hleaf];
    [rewrite (bool_decide_true _ Hleaf)|rewrite (bool_decide_false _ Hleaf)].
  { apply Hdone. intros c Hc Hpc.
    apply parent_children in Hpc; [|lia]. lia. }
  assert (Hj1 : (2 * i + 1 < n)%nat) by lia.
  (* the smaller child *)
  assert (Hpick : ∃ j,
    (if bool_decide (Z.of_nat (2 * i + 2) < Z.of_nat n)
     then Less (Z.of_nat (2 * i + 2)) (Z.of_nat (2 * i + 1))
     else ret false) q
    = (Ok (bool_decide (j = 2 * i + 2)%nat), q) ∧
    (j = 2 * i + 1 ∨ j = 2 * i + 2)%nat ∧ (j < n)%nat ∧
    ∀ c, (1 ≤ c < n)%nat → parent c = i → slot q j ≤ slot q c).
  { destruct (decide (Z.of_nat (2 * i + 2) < Z.of_nat n)) as [Hj2|Hj2];
      [rewrite (bool_decide_true _ Hj2)|rewrite (bool_decide_false _ Hj2)].
    - rewrite Less_slot by lia.
      destruct (slot q (2 * i + 2) <? slot q (2 * i + 1)) eqn:Hlt.
      + apply Z.ltb_lt in Hlt. exists (2 * i + 2)%nat.
        rewrite bool_decide_true by done. split; [done|].
        split; [lia|]. split; [lia|]. intros c Hc Hpc.
        apply parent_children in Hpc as [-> | ->]; lia.
      + apply Z.ltb_ge in Hlt. exists (2 * i + 1)%nat.
        rewrite bool_decide_false by lia. split; [done|].
        split; [lia|]. split; [lia|]. intros c Hc Hpc.
        apply parent_children in Hpc as [-> | ->]; lia.
    - exists (2 * i + 1)%nat. rewrite bool_decide_false by lia.
      split; [done|]. split; [lia|]. split; [lia|]. intros c Hc Hpc.
      apply parent_children in Hpc as [-> | ->]; lia. }
  destruct Hpick as (j & Hpick & Hj & Hjn & Hmin).
  rewrite (bind_Ok _ _ _ _ _ Hpick).
  replace (if bool_decide (j = (2 * i + 2)%nat)
           then Z.of_nat (2 * i + 2) else Z.of_nat (2 * i + 1))
    with (Z.of_nat j)
    by (destruct (decide (j = (2 * i + 2)%nat)) as [E|E];
        [rewrite (bool_decide_true _ E)|rewrite (bool_decide_false _ E)];
        lia).
  assert (Hpj : parent j = i) by (apply parent_children; lia).
  rewrite (bind_Ok _ _ _ _ _ (Less_slot q j i ltac:(lia) ltac:(lia))).
  destruct (slot q j <? slot q i) eqn:Hless; cbn [negb].
  2:{ apply Z.ltb_ge in Hless. apply Hdone. intros c Hc Hpc.
      unfold ordered. rewrite Hpc. specialize (Hmin c Hc Hpc). lia. }
  apply Z.ltb_lt in Hless.
  destruct (Swap_slot q i j) as (q1 & Hswap & Hlen & Hslot); [lia..|].
  rewrite (bind_Ok _ _ _ _ _ Hswap).
  destruct (IH i0 j n q1) as (b & q' & Hrun & Hlen' & Hframe & Ht & Hf).
  { lia. } { lia. } { lia. } { lia. }
  { split.
    - intros k Hk Hpk _. unfold ordered. rewrite !Hslot.
      rewrite (decide_False (P := parent k = j)) by done.
      destruct (decide (k = j)) as [->|Hkj].
      + rewrite decide_True by done. lia.
      + destruct (decide (k = i)) as [->|Hki].
        * pose proof (parent_lt i ltac:(lia)).
          rewrite decide_False by lia. by apply Hgp; [lia|..]; [|lia].
        * destruct (decide (parent k = i)) as [E|Hne].
          { by apply Hmin. }
          apply Hord; [done..|]. intros ->. lia.
    - intros c Hc Hpc _. rewrite !Hslot. rewrite Hpj.
      rewrite (decide_False (P := i = j)) by lia.
      rewrite decide_True by done.
      pose proof (parent_lt c ltac:(lia)).
      rewrite !decide_False by lia.
      assert (Hoc : ordered q c) by (apply Hord; [done|lia|lia]).
      unfold ordered in Hoc. by rewrite Hpc in Hoc. }
  exists b, q'. split; [exact Hrun|]. split; [lia|]. split.
  { intros k Hk. rewrite Hframe by done. rewrite Hslot.
    by rewrite !decide_False by lia. }
  split; [exact Ht|]. intros Hb. destruct (Hf Hb) as [E _]. lia.
Qed.

Lemma slot_take (q : MessageQueue) (m k : nat) :
  (k < m)%nat → slot (take m q) k = slot q k.
Proof. intros H. unfold slot. by rewrite lookup_take_lt. Qed.

Lemma heap_upto_take (m : nat) (q : MessageQueue) :
  (m ≤ length q)%nat → heap_upto m q → is_heap (take m q).
Proof.
  intros Hm Hheap k Hk. rewrite length_take in Hk.
  unfold ordered. pose proof (parent_lt k ltac:(lia)).
  rewrite !slot_take by lia. apply Hheap. lia.
Qed.

Lemma heap_Push_heap (x : Z) (q : MessageQueue) :
  is_heap q → ∃ q', heap.Push x q = (Ok tt, q') ∧ is_heap q'.
Proof.
  intros Hheap. unfold heap.Push, bind at 1, Push. unfold bind at 1, Len.
  unfold heap.up.
  replace (Z.of_nat (length (q ++ [x])) - 1) with (Z.of_nat (length q))
    by (rewrite length_app; simpl; lia).
  destruct (up_loop_heap (S (length (q ++ [x]))) (length q)
              (length (q ++ [x])) (q ++ [x]))
    as (q' & Hrun & Hlen & Hup & _).
  { rewrite length_app. simpl. lia. }
  { rewrite length_app. simpl. lia. }
  { split.
    - intros k Hk Hne. rewrite length_app in Hk. simpl in Hk.
      unfold ordered, slot. pose proof (parent_lt k ltac:(lia)).
      rewrite !lookup_app_l by lia. apply Hheap. lia.
    - intros c Hc Hpc _. rewrite length_app in Hc. simpl in Hc.
      pose proof (parent_lt c ltac:(lia)). lia. }
  exists q'. split; [exact Hrun|]. unfold is_heap. by rewrite Hlen.
Qed.

Lemma heap_Remove_heap (i : nat) (q : MessageQueue) :
  is_heap q → (i < length q)%nat →
  ∃ x q', heap.Remove (Z.of_nat i) q = (Ok x, q') ∧ is_heap q'.
Proof.
  intros Hheap Hi.
  destruct (length q) as [|m] eqn:Hlen; [lia|].
  unfold heap.Remove, bind at 1, Len. rewrite Hlen.
  replace (Z.of_nat (S m) - 1) with (Z.of_nat m) by lia.
  assert (Hpop : ∀ q3, length q3 = S m → heap_upto m q3 →
            ∃ x q', Pop q3 = (Ok x, q') ∧ is_heap q').
  { intros q3 Hlen3 Hh3.
    destruct (lookup_lt_is_Some_2 q3 m) as [x Hx]; [lia|].
    destruct (Pop_ok q3 m x Hlen3 Hx) as [Hpop _].
    exists x, (take m q3). split; [exact Hpop|].
    apply heap_upto_take; [lia|done]. }
  destruct (decide (Z.of_nat m ≠ Z.of_nat i)) as [Hlast|Hlast];
    [rewrite (bool_decide_true _ Hlast)|rewrite (bool_decide_false _ Hlast)].
  - destruct (Swap_slot q i m) as (q1 & Hswap & Hlen1 & Hslot); [lia..|].
    destruct (down_loop_heap (S (length q1)) i i m q1)
      as (b & q2 & Hdown & Hlen2 & _ & Ht & Hf); [lia..| |].
    { split.
      - intros k Hk Hpk Hki. unfold ordered. rewrite !Hslot.
        pose proof (parent_lt k ltac:(lia)).
        rewrite !decide_False by (try lia; intros ->; by apply Hki).
        apply Hheap. lia.
      - intros c Hc Hpc H1. rewrite !Hslot.
        pose proof (parent_lt c ltac:(lia)).
        pose proof (parent_lt i H1).
        rewrite !decide_False by lia.
        assert (ordered q i) by (apply Hheap; lia).
        assert (Hoc : ordered q c) by (apply Hheap; lia).
        unfold ordered in *. rewrite Hpc in Hoc. lia. }
    assert (Hsift : ∃ a q3,
              (Swap (Z.of_nat i) (Z.of_nat m);;
               do moved <- heap.down (Z.of_nat i) (Z.of_nat m);
               if negb moved then heap.up (Z.of_nat i) else ret tt) q
              = (Ok a, q3) ∧ length q3 = S m ∧ heap_upto m q3).
    { rewrite (bind_Ok _ _ _ _ _ Hswap).
      rewrite (bind_Ok (heap.down (Z.of_nat i) (Z.of_nat m)) _ q1 b q2 Hdown).
      destruct b; cbn [negb].
      - exists tt, q2. split; [done|]. split; [lia|by apply Ht].
      - destruct (Hf eq_refl) as (_ & -> & Hup).
        destruct (up_loop_heap (S (length q1)) i m q1)
          as (q3 & Hrun & Hlen3 & Hh3 & _); [lia..|done|].
        exists tt, q3. split; [exact Hrun|]. split; [lia|done]. }
    destruct Hsift as (a & q3 & Hsift & Hlen3 & Hh3).
    rewrite (bind_Ok _ _ _ _ _ Hsift). by apply Hpop.
  - unfold bind at 1, ret. apply Hpop; [done|].
    intros k Hk. apply Hheap. lia.
Qed.

Lemma AckMessages_loop_heap (idMap : gmap Z bool) (k : nat) :
  ∀ (nID : Z) (q : MessageQueue),
  (k ≤ length q)%nat → is_heap q →
  is_heap (snd (AckMessages_loop k idMap nID q)).
Proof.
  induction k as [|i IH]; intros nID q Hk Hheap; simpl; [done|].
  case_bool_decide; [done|].
  destruct (lookup_lt_is_Some_2 q i) as [x Hx]; [lia|].
  rewrite (bind_Ok _ _ _ _ _ (at_index_ok q (Z.of_nat i) x ltac:(lia)
                                ltac:(by rewrite Nat2Z.id))).
  destruct (default false (idMap !! x)); [|apply IH; [lia|done]].
  destruct (heap_Remove_ok (Z.of_nat i) q x) as (q1 & Hrem & Hperm);
    [lia|by rewrite Nat2Z.id|].
  destruct (heap_Remove_heap i q Hheap) as (x' & q1' & Hrem' & Hheap1);
    [lia|].
  rewrite Hrem in Hrem'. injection Hrem' as <- <-.
  rewrite (bind_Ok _ _ _ _ _ Hrem). apply IH; [|done].
  apply Permutation_length in Hperm. simpl in Hperm. lia.
Qed.

Lemma AckMessages_heap (ids : list Z) (q : MessageQueue) :
  is_heap q → is_heap (snd (AckMessages ids q)).
Proof. intros H. unfold AckMessages. by apply AckMessages_loop_heap. Qed.

Lemma PutMessages_push_heap (k : nat) : ∀ (i : Z) (q : MessageQueue),
  is_heap q → is_heap (snd (PutMessages_push k i q)).
Proof.
  induction k as [|k IH]; intros i q Hheap; [done|].
  cbn [PutMessages_push].
  destruct (heap_Push_heap i q Hheap) as (q1 & Hpush & Hheap1).
  rewrite (bind_Ok _ _ _ _ _ Hpush). by apply IH.
Qed.


(** ** Heap order of every queue *)

Lemma on_sub_heaps {A} sub (m : M MessageQueue A) :
  (∀ q, is_heap q → is_heap (snd (m q))) →
  preserves all_heaps (on_sub sub m).
Proof.
  intros Hm s Hs. unfold on_sub.
  destruct (objs s !! sub) as [o|] eqn:Ho; [|exact Hs].
  pose proof (Hm (UnAcked o) (Hs _ _ Ho)) as Hq.
  destruct (m (UnAcked o)) as [r q]. simpl in *.
  intros p o'. simpl. intros Hp.
  apply lookup_insert_Some in Hp as [[_ <-]|[_ Hp]]; [exact Hq|by eapply Hs].
Qed.

Lemma GetSubscription_heaps r : preserves all_heaps (GetSubscription r).
Proof.
  intros s Hs.
  destruct (GetSubscription_cases r s)
    as [[_ ->]|[(_ & sub & _ & ->)|(_ & _ & ->)]]; try exact Hs.
  intros p o. simpl. intros Hp.
  apply lookup_insert_Some in Hp as [[_ <-]|[_ Hp]]; [|by eapply Hs].
  intros k Hk. simpl in Hk. lia.
Qed.

Lemma serve_heaps wfail r : preserves all_heaps (serve wfail r).
Proof.
  assert (Hrange : ∀ targets baseID bound,
            preserves all_heaps (PutMessages_range targets baseID bound)).
  { induction targets as [|[name sub] rest IH]; intros baseID bound; simpl;
      [auto with preserves|].
    apply preserves_bind; [|intros _; apply IH].
    apply on_sub_heaps. intros q. apply PutMessages_push_heap. }
  unfold serve, send_handler, unsub_handler, pull_handler, ack_handler,
    respond, GetMessages, PutMessages, DestroySubscription.
  repeat first
    [ progress auto with preserves
    | apply GetSubscription_heaps | apply Hrange
    | apply on_sub_heaps; intros q Hq;
        first [ by rewrite FindUnAckedMessageIds_state
              | by apply AckMessages_heap ]
    | apply preserves_if
    | apply preserves_bind; [|intros ?]
    | match goal with
      | |- preserves _ (match ?x with _ => _ end) => destruct x
      | |- preserves _ (on_topic _) =>
          intros s' Hs'; unfold on_topic;
          destruct (CreateMessageIds _ (topic s')); exact Hs'
      | |- preserves _ (on_files _) =>
          intros s' Hs'; unfold on_files;
          destruct (PutMessages_write _ _ _ _ (files s')); exact Hs'
      | |- preserves _ (subs_delete _) => intros ? ?; assumption
      end ].
Qed.

Lemma serve_all_heaps rs : ∀ s,
  all_heaps s → all_heaps (snd (serve_all rs s)).
Proof.
  induction rs as [|[wfail r] rest IH]; intros s Hs; [exact Hs|].
  simpl. pose proof (serve_heaps wfail r s Hs) as H1.
  destruct (serve wfail r s) as [o s1]. simpl in H1.
  specialize (IH s1 H1). destruct (serve_all rest s1). exact IH.
Qed.

Lemma initial_heaps fs : all_heaps (initial fs).
Proof. intros sub o H. simpl in H. by rewrite lookup_empty in H. Qed.

(** ** Every queued id has its file *)

Lemma PutMessages_write_spec wfail baseID messages : ∀ (i : Z) fs,
  ∃ ok fs',
    PutMessages_write wfail baseID i messages fs = (Ok ok, fs') ∧
    (∀ id, is_Some (fs !! id) → is_Some (fs' !! id)) ∧
    (ok = true → ∀ j, (j < length messages)%nat →
       is_Some (fs' !! uint64 (baseID + uint64 (i + Z.of_nat j)))).
Proof.
  induction messages as [|m rest IH]; intros i fs; simpl.
  { exists true, fs. split; [done|]. split; [done|]. intros _ j Hj. lia. }
  case_bool_decide as Hfail.
  { exists false, fs. done. }
  unfold bind at 1.
  destruct (IH (i + 1) (<[uint64 (baseID + uint64 i) := m]> fs))
    as (ok & fs' & -> & Hmono & Hall).
  exists ok, fs'. split; [done|]. split.
  - intros id Hid. apply Hmono. rewrite lookup_insert_is_Some'. by right.
  - intros Hok [|j] Hj.
    + rewrite Z.add_0_r. apply Hmono. rewrite lookup_insert_is_Some'.
      by left.
    + replace (i + Z.of_nat (S j)) with (i + 1 + Z.of_nat j) by lia.
      apply Hall; [done|lia].
Qed.

(** The ids the second loop of [PutMessages] pushes are ids the first loop
    has written, also when the sum [baseID + len] wraps. *)
Lemma fan_out_ids_written (baseID : Z) (len j : nat) :
  0 ≤ baseID < uint64_modulus →
  (j < Z.to_nat (uint64 (baseID + uint64 (Z.of_nat len)) - baseID))%nat →
  (j < len)%nat ∧
  uint64 (baseID + uint64 (0 + Z.of_nat j)) = baseID + Z.of_nat j.
Proof.
  intros Hb Hj. rewrite uint64_add in Hj. rewrite uint64_add.
  unfold uint64_modulus in *.
  pose proof (Z.mod_pos_bound (baseID + Z.of_nat len) (2 ^ 64) eq_refl) as Hm.
  pose proof (Z.mod_eq (baseID + Z.of_nat len) (2 ^ 64) ltac:(lia)) as He.
  pose proof (Z.div_pos (baseID + Z.of_nat len) (2 ^ 64) ltac:(lia) eq_refl).
  split; [nia|]. apply Z.mod_small. lia.
Qed.

Lemma on_sub_stored {A} sub (m : M MessageQueue A) :
  (∀ s q, Forall (λ id, is_Some (files s !! id)) q →
          Forall (λ id, is_Some (files s !! id)) (snd (m q))) →
  preserves all_stored (on_sub sub m).
Proof.
  intros Hm s [Hc Hs]. unfold on_sub.
  destruct (objs s !! sub) as [o|] eqn:Ho; [|done].
  pose proof (Hm s (UnAcked o) (Hs _ _ Ho)) as Hq.
  destruct (m (UnAcked o)) as [r q]. simpl in *.
  split; [exact Hc|]. intros p o'. simpl. intros Hp.
  apply lookup_insert_Some in Hp as [[_ <-]|[_ Hp]]; [exact Hq|by eapply Hs].
Qed.

Lemma GetSubscription_stored r : preserves all_stored (GetSubscription r).
Proof.
  intros s [Hc Hs].
  destruct (GetSubscription_cases r s)
    as [[_ ->]|[(_ & sub & _ & ->)|(_ & _ & ->)]]; try done.
  split; [exact Hc|]. intros p o. simpl. intros Hp.
  apply lookup_insert_Some in Hp as [[_ <-]|[_ Hp]]; [constructor|].
  by eapply Hs.
Qed.

Lemma PutMessages_range_stored targets baseID bound :
  preserves (λ s, all_stored s ∧
                  ∀ j, (j < Z.to_nat (bound - baseID))%nat →
                       is_Some (files s !! (baseID + Z.of_nat j)))
    (PutMessages_range targets baseID bound).
Proof.
  induction targets as [|[name sub] rest IH]; simpl;
    [auto with preserves|].
  apply preserves_bind; [|by intros _].
  intros s [Hs Hfiles]. split.
  - revert s Hs Hfiles.
    change (∀ s, all_stored s →
              (∀ j, (j < Z.to_nat (bound - baseID))%nat →
                    is_Some (files s !! (baseID + Z.of_nat j))) →
              all_stored (snd (on_sub sub
                (PutMessages_push (Z.to_nat (bound - baseID)) baseID) s))).
    intros s [Hc Hs] Hfiles. unfold on_sub.
    destruct (objs s !! sub) as [o|] eqn:Ho; [|done].
    destruct (PutMessages_push_ok (Z.to_nat (bound - baseID)) baseID
                (UnAcked o)) as (q' & -> & Hperm).
    simpl. split; [exact Hc|]. intros p o'. simpl. intros Hp.
    apply lookup_insert_Some in Hp as [[_ <-]|[_ Hp]]; [|by eapply Hs].
    simpl. rewrite Hperm. apply Forall_app. split; [|by eapply Hs].
    apply Forall_fmap, Forall_forall. intros j Hj. simpl.
    apply Hfiles. apply elem_of_seq in Hj. lia.
  - assert (E : files (snd (on_sub sub
                 (PutMessages_push (Z.to_nat (bound - baseID)) baseID) s))
                = files s).
    { unfold on_sub. destruct (objs s !! sub) as [o|]; [|done].
      by destruct (PutMessages_push _ _ (UnAcked o)). }
    by rewrite E.
Qed.

Lemma PutMessages_stored wfail messages baseID :
  0 ≤ baseID < uint64_modulus →
  preserves all_stored (PutMessages wfail messages baseID).
Proof.
  intros Hb s [Hc Hs]. unfold PutMessages, bind at 1, on_files.
  destruct (PutMessages_write_spec wfail baseID messages 0 (files s))
    as (ok & fs' & -> & Hmono & Hall).
  set (s1 := {| subs := subs s; objs := objs s; topic := topic s;
                files := fs' |}).
  assert (Hs1 : all_stored s1).
  { split; [exact Hc|]. intros p o Hp. simpl.
    eapply Forall_impl; [by eapply Hs|]. simpl. intros id. apply Hmono. }
  destruct ok; cbn [negb]; [|exact Hs1].
  unfold bind at 1, get.
  assert (Hrange := PutMessages_range_stored (map_to_list (subs s1)) baseID
            (uint64 (baseID + uint64 (Z.of_nat (length messages)))) s1).
  destruct Hrange as [Hr _].
  { split; [exact Hs1|]. intros j Hj. simpl.
    destruct (fan_out_ids_written baseID (length messages) j Hb Hj)
      as [Hlt E].
    rewrite <- E. by apply Hall. }
  unfold bind.
  by destruct (PutMessages_range _ _ _ s1) as [[[]| |] s2].
Qed.

Lemma send_handler_stored wfail r : preserves all_stored (send_handler wfail r).
Proof.
  intros s Hs. unfold send_handler.
  destruct (negb (bool_decide (Method r = MethodPost))); [exact Hs|].
  unfold bind at 1, on_topic, CreateMessageIds.
  set (s1 := {| subs := subs s; objs := objs s;
                topic := {| TopicName := TopicName (topic s);
                            NextMesgID := uint64 (NextMesgID (topic s) + uint64
                              (Z.of_nat (length (Form_index r "message")))) |};
                files := files s |}).
  assert (Hs1 : all_stored s1).
  { destruct Hs as [Hc Hq]. split; [|exact Hq]. simpl.
    by apply Z.mod_pos_bound. }
  pose proof (PutMessages_stored wfail (Form_index r "message")
                (NextMesgID (topic s)) (proj1 Hs) s1 Hs1) as H.
  unfold bind.
  by destruct (PutMessages _ _ _ s1) as [[[]| |] s2].
Qed.

Lemma serve_stored wfail r : preserves all_stored (serve wfail r).
Proof.
  unfold serve. apply preserves_if; [apply send_handler_stored|].
  unfold unsub_handler, pull_handler, ack_handler, respond, GetMessages,
    DestroySubscription.
  repeat first
    [ progress auto with preserves
    | apply GetSubscription_stored
    | apply on_sub_stored; intros s' q Hq;
        first [ by rewrite FindUnAckedMessageIds_state
              | match goal with
                | |- context [AckMessages ?ids q] =>
                    destruct (AckMessages_removes_only_input ids q)
                      as (q' & removed & -> & Hperm & _)
                end;
                rewrite Hperm in Hq; by apply Forall_app in Hq as [_ Hq] ]
    | apply preserves_if
    | apply preserves_bind; [|intros ?]
    | match goal with
      | |- preserves _ (match ?x with _ => _ end) => destruct x
      | |- preserves _ (subs_delete _) => intros ? ?; assumption
      end ].
Qed.

Lemma initial_stored fs : all_stored (initial fs).
Proof.
  split; [by vm_compute|]. intros sub o H. simpl in H.
  by rewrite lookup_empty in H.
Qed.

(** Every state the server can be in: the registry is well formed, every
    queue is in heap order, and every queued id has its file. *)
Lemma reachable_inv fs rs :
  let s := snd (serve_all rs (initial fs)) in
  registry_wf s ∧ all_heaps s ∧ all_stored s.
Proof.
  intros s. split; [apply serve_all_wf, initial_wf|].
  split; [apply serve_all_heaps, initial_heaps|].
  unfold s. generalize (initial_stored fs). generalize (initial fs).
  induction rs as [|[wfail r] rest IH]; intros s0 Hs; [exact Hs|].
  simpl. pose proof (serve_stored wfail r s0 Hs) as H1.
  destruct (serve wfail r s0) as [o s1]. simpl in H1.
  specialize (IH s1 H1). destruct (serve_all rest s1). exact IH.
Qed.

(** ** What the methods and the heap functions do to a queue *)

(** X1: [Pop] undoes [Push]: it returns the element that was appended and
    leaves the queue as it was before.  On the empty queue [Pop] panics (the
    index [n - 1] is [-1]). *)
Theorem Push_then_Pop (x : Z) (q : MessageQueue) :
  (Push x;; Pop) q = (Ok x, q) ∧ Pop [] = (Panic, []).
Proof.
  split; [|reflexivity].
  unfold bind at 1, Push.
  destruct (Pop_ok (q ++ [x]) (length q) x) as [-> _].
  - rewrite length_app. simpl. lia.
  - by rewrite lookup_app_r, Nat.sub_diag.
  - by rewrite take_app_length.
Qed.

(** X2: [Swap] on two indices of the array undoes itself; with an index
    outside the array it panics and has stored nothing (both operands are
    read before either is written). *)
Theorem Swap_twice_or_panic (i j : Z) (q : MessageQueue) :
  let inside k := 0 ≤ k < Z.of_nat (length q) in
  (inside i ∧ inside j → (Swap i j;; Swap i j) q = (Ok tt, q)) ∧
  (¬ (inside i ∧ inside j) → Swap i j q = (Panic, q)).
Proof.
  intros inside. unfold inside. split.
  - intros [Hi Hj].
    destruct (index_in_range q i Hi) as [a Ha].
    destruct (index_in_range q j Hj) as [b Hb].
    assert (Hswap : Swap i j q
                    = (Ok tt, <[Z.to_nat j := a]> (<[Z.to_nat i := b]> q))).
    { unfold Swap.
      rewrite (bind_Ok _ _ _ _ _ (at_index_ok q j b (proj1 Hj) Hb)).
      by rewrite (bind_Ok _ _ _ _ _ (at_index_ok q i a (proj1 Hi) Ha)). }
    rewrite (bind_Ok _ _ _ _ _ Hswap).
    set (q1 := <[Z.to_nat j := a]> (<[Z.to_nat i := b]> q)).
    assert (Hlen : length q1 = length q) by (unfold q1; by rewrite !length_insert).
    assert (Hb1 : q1 !! Z.to_nat j = Some a).
    { unfold q1. apply list_lookup_insert_eq. rewrite length_insert. lia. }
    destruct (index_in_range q1 i ltac:(lia)) as [a1 Ha1].
    unfold Swap.
    rewrite (bind_Ok _ _ _ _ _ (at_index_ok q1 j a (proj1 Hj) Hb1)).
    rewrite (bind_Ok _ _ _ _ _ (at_index_ok q1 i a1 (proj1 Hi) Ha1)).
    f_equal. apply list_eq. intros k.
    destruct (decide (k = Z.to_nat j)) as [->|Hkj].
    + rewrite list_lookup_insert_eq by (rewrite length_insert; lia).
      rewrite Hb. unfold q1 in Ha1.
      destruct (decide (Z.to_nat i = Z.to_nat j)) as [E|Hne].
      * rewrite E in Ha1, Ha.
        rewrite list_lookup_insert_eq in Ha1 by (rewrite length_insert; lia).
        congruence.
      * rewrite list_lookup_insert_ne in Ha1 by done.
        rewrite list_lookup_insert_eq in Ha1 by lia. congruence.
    + rewrite list_lookup_insert_ne by done.
      destruct (decide (k = Z.to_nat i)) as [->|Hki].
      * rewrite list_lookup_insert_eq by lia. by rewrite Ha.
      * rewrite list_lookup_insert_ne by done. unfold q1.
        by rewrite !list_lookup_insert_ne.
  - intros Hout. unfold Swap, bind, at_index.
    destruct (bool_decide (0 ≤ j)) eqn:Hj; [|done].
    destruct (q !! Z.to_nat j) as [b|] eqn:Hb; [|done].
    destruct (bool_decide (0 ≤ i)) eqn:Hi; [|done].
    destruct (q !! Z.to_nat i) as [a|] eqn:Ha; [|done].
    exfalso. apply Hout. apply bool_decide_eq_true in Hj, Hi.
    apply lookup_lt_Some in Ha, Hb. lia.
Qed.

(** Heap order of a given array, slot by slot. *)
Ltac heap_check :=
  intros k Hk; simpl in Hk;
  do 8 (destruct k as [|k]; [try lia; by vm_compute|]); lia.

(** X3: on a queue in heap order [heap.Push] returns normally, adds the
    element and nothing else, and leaves the queue in heap order. *)
Theorem heap_Push_keeps_heap (x : Z) (q : MessageQueue) :
  is_heap q →
  ∃ q', heap.Push x q = (Ok tt, q') ∧ q' ≡ₚ x :: q ∧ is_heap q'.
Proof.
  intros Hheap. destruct (heap_Push_ok x q) as (q1 & Hrun & Hperm).
  destruct (heap_Push_heap x q Hheap) as (q2 & Hrun2 & Hheap2).
  rewrite Hrun in Hrun2. injection Hrun2 as <-. by exists q1.
Qed.

Lemma heap_Push_keeps_heap_witness :
  heap.Push 0 [1; 3; 2] = (Ok tt, [0; 1; 2; 3]) ∧ is_heap [0; 1; 2; 3].
Proof.
  destruct (heap_Push_keeps_heap 0 [1; 3; 2]) as (q' & Hrun & _ & Hheap).
  { heap_check. }
  assert (E : q' = [0; 1; 2; 3]).
  { vm_compute in Hrun. by injection Hrun as <-. }
  subst q'. by split.
Defined.

(** X4: on a queue in heap order [heap.Remove] at an index of the array
    returns the element found there, takes out that one element and nothing
    else, and leaves the queue in heap order. *)
Theorem heap_Remove_keeps_heap (i x : Z) (q : MessageQueue) :
  is_heap q → 0 ≤ i → q !! Z.to_nat i = Some x →
  ∃ q', heap.Remove i q = (Ok x, q') ∧ q ≡ₚ x :: q' ∧ is_heap q'.
Proof.
  intros Hheap Hi Hx.
  destruct (heap_Remove_ok i q x Hi Hx) as (q1 & Hrun & Hperm).
  destruct (heap_Remove_heap (Z.to_nat i) q Hheap) as (x2 & q2 & Hrun2 & Hh2).
  { by eapply lookup_lt_Some. }
  rewrite Z2Nat.id, Hrun in Hrun2 by done. injection Hrun2 as <- <-.
  by exists q1.
Qed.

Lemma heap_Remove_keeps_heap_witness :
  heap.Remove 3 [1; 6; 2; 7; 8; 5] = (Ok 7, [1; 5; 2; 6; 8]) ∧
  is_heap [1; 5; 2; 6; 8].
Proof.
  destruct (heap_Remove_keeps_heap 3 7 [1; 6; 2; 7; 8; 5])
    as (q' & Hrun & _ & Hheap).
  { heap_check. } { lia. } { reflexivity. }
  assert (E : q' = [1; 5; 2; 6; 8]).
  { vm_compute in Hrun. by injection Hrun as <-. }
  subst q'. by split.
Defined.

(** ** More on [AckMessages] *)

Lemma nID_length (ids : list Z) : ∀ n : Z,
  foldl (λ n _, n + 1) n ids = n + Z.of_nat (length ids).
Proof.
  induction ids as [|k ids IH]; intros n; simpl; [lia|]. rewrite IH. lia.
Qed.

Lemma AckMessages_loop_count (idMap : gmap Z bool) (k : nat) :
  ∀ (nID : Z) (q : MessageQueue),
  (k ≤ length q)%nat → 0 ≤ nID →
  Z.of_nat (length q)
  - Z.of_nat (length (snd (AckMessages_loop k idMap nID q))) ≤ nID.
Proof.
  induction k as [|i IH]; intros nID q Hk Hn; simpl; [lia|].
  case_bool_decide; [simpl; lia|].
  destruct (lookup_lt_is_Some_2 q i) as [x Hx]; [lia|].
  rewrite (bind_Ok _ _ _ _ _ (at_index_ok q (Z.of_nat i) x ltac:(lia)
                                ltac:(by rewrite Nat2Z.id))).
  destruct (default false (idMap !! x)).
  - destruct (heap_Remove_ok (Z.of_nat i) q x) as (q1 & Hrem & Hperm);
      [lia|by rewrite Nat2Z.id|].
    rewrite (bind_Ok _ _ _ _ _ Hrem).
    apply Permutation_length in Hperm. simpl in Hperm.
    specialize (IH (nID - 1) q1 ltac:(lia) ltac:(lia)). lia.
  - specialize (IH nID q ltac:(lia) Hn). lia.
Qed.

(** X5: what [AckMessages] does on every queue and every list of ids: it
    returns without an error; what it takes out are ids of the list, no more
    of them than the list is long; everything else stays; and a queue in
    heap order is left in heap order. *)
Theorem AckMessages_outcome (ids : list Z) (q : MessageQueue) :
  ∃ q' removed,
    AckMessages ids q = (Ok tt, q') ∧
    q ≡ₚ removed ++ q' ∧
    Forall (λ x, x ∈ ids) removed ∧
    (length removed ≤ length ids)%nat ∧
    (is_heap q → is_heap q').
Proof.
  destruct (AckMessages_removes_only_input ids q)
    as (q' & removed & Hrun & Hperm & Hall).
  exists q', removed. split; [exact Hrun|]. split; [exact Hperm|].
  split; [exact Hall|]. split.
  - pose proof (AckMessages_loop_count
                  (foldl (λ (m : gmap Z bool) k, <[k := true]> m) ∅ ids)
                  (length q) (foldl (λ n _, n + 1) 0 ids) q
                  ltac:(lia)) as Hcount.
    unfold AckMessages in Hrun. rewrite Hrun, nID_length in Hcount.
    specialize (Hcount ltac:(lia)). simpl in Hcount.
    apply Permutation_length in Hperm. rewrite length_app in Hperm. lia.
  - intros Hheap. pose proof (AckMessages_heap ids q Hheap) as H.
    by rewrite Hrun in H.
Qed.

(** X6: acknowledging ids none of which is in the queue (the empty list of
    ids among them) leaves the array exactly as it is, slot for slot. *)
Theorem AckMessages_no_match (ids : list Z) (q : MessageQueue) :
  (∀ x, x ∈ q → x ∉ ids) → AckMessages ids q = (Ok tt, q).
Proof. apply AckMessages_absent_ids_ignored. Qed.

Lemma AckMessages_no_match_witness :
  AckMessages [0; 9] [1; 3; 2] = (Ok tt, [1; 3; 2]) ∧
  AckMessages [] [1; 3; 2] = (Ok tt, [1; 3; 2]).
Proof.
  split.
  - apply (AckMessages_no_match [0; 9] [1; 3; 2]).
    intros x Hq Hids. apply list_elem_of_In in Hq, Hids. simpl in Hq, Hids.
    lia.
  - apply (AckMessages_no_match [] [1; 3; 2]). intros x _.
    apply not_elem_of_nil.
Defined.

Lemma AckMessages_loop_single (x : Z) (k : nat) : ∀ q : MessageQueue,
  (k ≤ length q)%nat → x ∈ take k q →
  ∃ q', AckMessages_loop k (<[x := true]> ∅) 1 q = (Ok tt, q') ∧
        q ≡ₚ x :: q'.
Proof.
  induction k as [|i IH]; intros q Hk Hin.
  { rewrite take_0 in Hin. by apply elem_of_nil in Hin. }
  cbn [AckMessages_loop]. rewrite bool_decide_false by done.
  destruct (lookup_lt_is_Some_2 q i) as [y Hy]; [lia|].
  rewrite (bind_Ok _ _ _ _ _ (at_index_ok q (Z.of_nat i) y ltac:(lia)
                                ltac:(by rewrite Nat2Z.id))).
  destruct (decide (y = x)) as [->|Hne].
  - rewrite lookup_insert_eq. cbn [from_option id].
    destruct (heap_Remove_ok (Z.of_nat i) q x) as (q1 & Hrem & Hperm);
      [lia|by rewrite Nat2Z.id|].
    rewrite (bind_Ok _ _ _ _ _ Hrem). exists q1. split; [|exact Hperm].
    by destruct i.
  - rewrite lookup_insert_ne, lookup_empty by done. cbn [from_option id].
    apply IH; [lia|]. rewrite (take_S_r q i y Hy) in Hin.
    apply elem_of_app in Hin as [Hin|Hin]; [done|].
    apply list_elem_of_singleton in Hin. congruence.
Qed.

(** X7: acknowledging one id that is in the queue takes out one occurrence
    of it and nothing else; when the id is in the queue once, it is gone
    afterwards. *)
Theorem AckMessages_single_id (x : Z) (q : MessageQueue) :
  x ∈ q →
  ∃ q', AckMessages [x] q = (Ok tt, q') ∧ q ≡ₚ x :: q' ∧
        (NoDup q → x ∉ q').
Proof.
  intros Hin.
  destruct (AckMessages_loop_single x (length q) q) as (q' & Hrun & Hperm).
  { lia. } { by rewrite firstn_all. }
  exists q'. split; [exact Hrun|]. split; [exact Hperm|].
  intros Hnd. rewrite Hperm in Hnd. by apply NoDup_cons in Hnd as [? _].
Qed.

Lemma AckMessages_single_id_witness :
  AckMessages [6] [1; 6; 2; 7; 8; 5] = (Ok tt, [1; 5; 2; 7; 8]) ∧
  6 ∉ [1; 5; 2; 7; 8].
Proof.
  destruct (AckMessages_single_id 6 [1; 6; 2; 7; 8; 5])
    as (q' & Hrun & _ & Hgone).
  { apply list_elem_of_In. simpl. lia. }
  assert (E : q' = [1; 5; 2; 7; 8]).
  { vm_compute in Hrun. by injection Hrun as <-. }
  subst q'. split; [done|]. apply Hgone.
  repeat (apply NoDup_cons; split;
          [intros H; apply list_elem_of_In in H; simpl in H; lia|]).
  apply NoDup_nil_2.
Defined.

(** ** The data directory: [PutMessages] writes, [GetMessages] reads *)

Lemma GetMessages_loop_spec (ids : list Z) : ∀ acc fs : gmap Z string,
  (snd (GetMessages_loop ids acc fs) = true
   ↔ Forall (λ id, is_Some (fs !! id)) ids) ∧
  (∀ id, fst (GetMessages_loop ids acc fs) !! id = acc !! id ∨
         (id ∈ ids ∧ fst (GetMessages_loop ids acc fs) !! id = fs !! id ∧
          is_Some (fs !! id))) ∧
  (snd (GetMessages_loop ids acc fs) = true →
   ∀ id, id ∈ ids → fst (GetMessages_loop ids acc fs) !! id = fs !! id).
Proof.
  induction ids as [|id rest IH]; intros acc fs; simpl.
  { split; [done|]. split; [by left|]. intros _ id Hid.
    by apply elem_of_nil in Hid. }
  destruct (fs !! id) as [bs|] eqn:Hid; simpl.
  2:{ split; [|split; [by left|done]]. split; [done|].
      intros H. apply Forall_cons in H as [[? H] _]. congruence. }
  destruct (IH (<[id := bs]> acc) fs) as (Hok & Hin & Hall).
  assert (Hhere : fst (GetMessages_loop rest (<[id := bs]> acc) fs) !! id
                  = Some bs).
  { destruct (Hin id) as [E|(_ & E & _)]; [|congruence].
    by rewrite E, lookup_insert_eq. }
  split; [|split].
  - rewrite Hok, Forall_cons. rewrite Hid. split; [by split|by intros [_ ?]].
  - intros id'. destruct (Hin id') as [E|(Hrest & E & Hsome)].
    + destruct (decide (id' = id)) as [->|Hne].
      * right. rewrite Hhere, Hid. split; [left|done].
      * left. by rewrite E, lookup_insert_ne.
    + right. split; [by right|done].
  - intros Htrue id' Hid'. apply elem_of_cons in Hid' as [->|Hid'].
    + by rewrite Hhere.
    + by apply Hall.
Qed.

(** X8: [GetMessages] returns without a panic and changes nothing.  The
    error is nil exactly when every id has its file; what the returned map
    holds are bodies of files of the ids asked for, and with a nil error it
    holds the body of every one of them. *)
Theorem GetMessages_reads_files (ids : list Z) (s : State) :
  ∃ messages ok,
    GetMessages ids s = (Ok (messages, ok), s) ∧
    (ok = true ↔ Forall (λ id, is_Some (files s !! id)) ids) ∧
    (∀ id bs, messages !! id = Some bs → id ∈ ids ∧ files s !! id = Some bs) ∧
    (ok = true → dom messages = list_to_set ids ∧
                 ∀ id, id ∈ ids → messages !! id = files s !! id).
Proof.
  destruct (GetMessages_loop_spec ids ∅ (files s)) as (Hok & Hin & Hall).
  exists (fst (GetMessages_loop ids ∅ (files s))),
         (snd (GetMessages_loop ids ∅ (files s))).
  split.
  { unfold GetMessages, bind, get, ret.
    by destruct (GetMessages_loop ids ∅ (files s)). }
  split; [exact Hok|]. split.
  - intros id bs Hbs. destruct (Hin id) as [E|(Hid & E & _)].
    + rewrite E, lookup_empty in Hbs. discriminate.
    + split; [exact Hid|congruence].
  - intros Htrue. split; [|by apply Hall].
    apply set_eq. intros id. rewrite elem_of_dom, elem_of_list_to_set. split.
    + intros [bs Hbs]. destruct (Hin id) as [E|(Hid & _)]; [|done].
      rewrite E, lookup_empty in Hbs. discriminate.
    + intros Hid. rewrite (Hall Htrue id Hid).
      apply Hok in Htrue. rewrite Forall_forall in Htrue. by apply Htrue.
Qed.

Lemma elem_of_new_ids (baseID id : Z) (k : nat) :
  id ∈ new_ids baseID k ↔ ∃ j, (j < k)%nat ∧ id = baseID + Z.of_nat j.
Proof.
  unfold new_ids. rewrite list_elem_of_fmap. split.
  - intros (j & -> & Hj). apply elem_of_seq in Hj. exists j. split; [lia|done].
  - intros (j & Hj & ->). exists j. split; [done|]. apply elem_of_seq. lia.
Qed.

Lemma PutMessages_write_exact wfail baseID messages : ∀ (i : nat) fs,
  0 ≤ baseID →
  baseID + Z.of_nat i + Z.of_nat (length messages) ≤ uint64_modulus →
  (∀ j, (j < length messages)%nat → baseID + Z.of_nat (i + j) ∉ wfail) →
  ∃ fs',
    PutMessages_write wfail baseID (Z.of_nat i) messages fs = (Ok true, fs') ∧
    (∀ j m, messages !! j = Some m →
            fs' !! (baseID + Z.of_nat (i + j)) = Some m) ∧
    (∀ id, ¬ (baseID + Z.of_nat i ≤ id
              < baseID + Z.of_nat i + Z.of_nat (length messages)) →
           fs' !! id = fs !! id).
Proof.
  induction messages as [|m rest IH]; intros i fs Hb Hlen Hw.
  { exists fs. split; [done|]. split; [|done]. intros j m Hm.
    by rewrite lookup_nil in Hm. }
  cbn [PutMessages_write length] in *.
  assert (E : uint64 (baseID + uint64 (Z.of_nat i)) = baseID + Z.of_nat i).
  { rewrite uint64_add. apply Z.mod_small. lia. }
  rewrite E. rewrite bool_decide_false.
  2:{ specialize (Hw 0%nat ltac:(lia)). by rewrite Nat.add_0_r in Hw. }
  unfold bind at 1.
  replace (Z.of_nat i + 1) with (Z.of_nat (S i)) by lia.
  destruct (IH (S i) (<[baseID + Z.of_nat i := m]> fs)) as (fs' & -> & Hnew & Hold).
  { done. } { lia. }
  { intros j Hj. replace (S i + j)%nat with (i + S j)%nat by lia.
    apply Hw. lia. }
  exists fs'. split; [done|]. split.
  - intros [|j] m' Hm'.
    + simpl in Hm'. injection Hm' as <-. rewrite Nat.add_0_r, Hold by lia.
      by rewrite lookup_insert_eq.
    + replace (i + S j)%nat with (S i + j)%nat by lia. by apply Hnew.
  - intros id Hid. rewrite Hold by lia. rewrite lookup_insert_ne; [done|lia].
Qed.

Lemma PutMessages_write_fails wfail baseID messages : ∀ (i : Z) fs,
  (∃ j, (j < length messages)%nat ∧
        uint64 (baseID + uint64 (i + Z.of_nat j)) ∈ wfail) →
  ∃ fs', PutMessages_write wfail baseID i messages fs = (Ok false, fs').
Proof.
  induction messages as [|m rest IH]; intros i fs (j & Hj & Hfail);
    [simpl in Hj; lia|].
  cbn [PutMessages_write]. case_bool_decide as Hhere; [by eexists|].
  unfold bind at 1. apply IH. destruct j as [|j].
  - by rewrite Z.add_0_r in Hfail.
  - exists j. split; [simpl in Hj; lia|].
    by replace (i + 1 + Z.of_nat j) with (i + Z.of_nat (S j)) by lia.
Qed.

(** X9: what the first loop of [PutMessages] writes, [GetMessages] reads
    back: when no write fails and the ids do not pass 2^64 - 1, asking for
    the ids [baseID], [baseID + 1], ... returns message [j] under id
    [baseID + j] and nothing else, and no other file has changed. *)
Theorem written_messages_are_read_back (wfail : list Z)
    (messages : list string) (baseID : Z) (fs : gmap Z string) :
  0 ≤ baseID →
  baseID + Z.of_nat (length messages) ≤ uint64_modulus →
  (∀ id, id ∈ new_ids baseID (length messages) → id ∉ wfail) →
  ∃ fs' read,
    PutMessages_write wfail baseID 0 messages fs = (Ok true, fs') ∧
    GetMessages_loop (new_ids baseID (length messages)) ∅ fs' = (read, true) ∧
    (∀ j : nat, read !! (baseID + Z.of_nat j) = messages !! j) ∧
    (∀ id, id ∉ new_ids baseID (length messages) → fs' !! id = fs !! id).
Proof.
  intros Hb Hlen Hw.
  destruct (PutMessages_write_exact wfail baseID messages 0 fs)
    as (fs' & Hrun & Hnew & Hold); [done|simpl; lia| |].
  { intros j Hj. apply Hw, elem_of_new_ids. by exists j. }
  simpl in Hrun.
  destruct (GetMessages_loop_spec (new_ids baseID (length messages)) ∅ fs')
    as (Hok & Hin & Hall).
  assert (Hfiles : ∀ j : nat, (j < length messages)%nat →
            fs' !! (baseID + Z.of_nat j) = messages !! j).
  { intros j Hj. destruct (lookup_lt_is_Some_2 messages j Hj) as [m Hm].
    rewrite Hm. by apply (Hnew j m). }
  assert (Htrue : snd (GetMessages_loop
                         (new_ids baseID (length messages)) ∅ fs') = true).
  { apply Hok, Forall_forall. intros id Hid.
    apply elem_of_new_ids in Hid as (j & Hj & ->). rewrite Hfiles by done.
    by apply lookup_lt_is_Some_2. }
  exists fs', (fst (GetMessages_loop
                      (new_ids baseID (length messages)) ∅ fs')).
  split; [exact Hrun|]. split.
  { rewrite <- Htrue. by destruct (GetMessages_loop _ ∅ fs'). }
  split.
  - intros j. destruct (decide (j < length messages)%nat) as [Hj|Hj].
    + rewrite (Hall Htrue) by (apply elem_of_new_ids; by exists j).
      by apply Hfiles.
    + rewrite (lookup_ge_None_2 messages j) by lia.
      destruct (Hin (baseID + Z.of_nat j)) as [E|(Hid & _)]; [by rewrite E|].
      apply elem_of_new_ids in Hid as (j' & Hj' & E). lia.
  - intros id Hid. apply Hold. intros Hrange. apply Hid, elem_of_new_ids.
    exists (Z.to_nat (id - baseID)). lia.
Qed.

Lemma written_messages_are_read_back_witness :
  ∃ fs' read,
    PutMessages_write [] 5 0 ["foo"; "bar"] ∅ = (Ok true, fs') ∧
    GetMessages_loop [5; 6] ∅ fs' = (read, true) ∧
    read !! 6 = Some "bar".
Proof.
  destruct (written_messages_are_read_back [] ["foo"; "bar"] 5 ∅)
    as (fs' & read & Hrun & Hread & Hback & _).
  { lia. } { by vm_compute. } { intros id _. apply not_elem_of_nil. }
  exists fs', read. split; [exact Hrun|]. split; [exact Hread|].
  exact (Hback 1%nat).
Defined.

(** ** What each handler does to the registry *)

Lemma GetSubscription_resolves r s :
  registry_wf s →
  validSubRegexp_MatchString (Form_Get r "sub") = true →
  ∃ sub o s1,
    GetSubscription r s = (Ok (Some sub), s1) ∧
    registry_wf s1 ∧
    subs s1 !! Form_Get r "sub" = Some sub ∧
    objs s1 !! sub = Some o ∧ Name o = Form_Get r "sub" ∧
    UnAcked o = default [] (queue_of s (Form_Get r "sub")) ∧
    topic s1 = topic s ∧ files s1 = files s ∧
    (∀ name, name ≠ Form_Get r "sub" →
       subs s1 !! name = subs s !! name ∧ queue_of s1 name = queue_of s name) ∧
    (is_Some (subs s !! Form_Get r "sub") → s1 = s) ∧
    (subs s !! Form_Get r "sub" = None → objs s !! sub = None).
Proof.
  intros Hwf Hv.
  pose proof (GetSubscription_wf r s Hwf) as Hwf1.
  destruct (GetSubscription_cases r s)
    as [[Hbad _]|[(_ & sub & Hsub & Hrun)|(_ & Hnone & Hrun)]];
    [congruence| |]; rewrite Hrun in Hwf1 |- *; simpl in Hwf1.
  - destruct (Hwf _ _ Hsub) as (o & Ho & Hname).
    exists sub, o, s. repeat split; try done.
    + unfold queue_of. rewrite Hsub. simpl. by rewrite Ho.
    + intros Hnone. congruence.
  - eexists _, _, _. split; [reflexivity|]. split; [exact Hwf1|]. simpl.
    split; [by rewrite lookup_insert_eq|].
    split; [by rewrite lookup_insert_eq|]. split; [done|].
    split; [unfold queue_of; by rewrite Hnone|]. split; [done|].
    split; [done|]. split; [|split].
    + intros name Hne. rewrite lookup_insert_ne by done. split; [done|].
      unfold queue_of. simpl. rewrite lookup_insert_ne by done.
      destruct (subs s !! name) as [sub'|] eqn:Hsub'; [|done]. simpl.
      destruct (Hwf _ _ Hsub') as (o' & Ho' & _).
      rewrite lookup_insert_ne; [done|]. intros <-.
      pose proof (is_fresh (dom (objs s))) as Hfresh.
      apply Hfresh, elem_of_dom. by exists o'.
    + intros [? ?]. congruence.
    + intros _. apply not_elem_of_dom, is_fresh.
Qed.

Lemma queue_of_on_sub_at {A} sub (m : M MessageQueue A) s name o :
  registry_wf s → subs s !! name = Some sub → objs s !! sub = Some o →
  queue_of (snd (on_sub sub m s)) name = Some (snd (m (UnAcked o))) ∧
  ∀ name', name' ≠ name →
    queue_of (snd (on_sub sub m s)) name' = queue_of s name'.
Proof.
  intros Hwf Hsub Ho. rewrite (on_sub_lookup m sub s o Ho). simpl.
  unfold queue_of. simpl. split.
  - rewrite Hsub. simpl. by rewrite lookup_insert_eq.
  - intros name' Hne.
    destruct (subs s !! name') as [sub'|] eqn:Hsub'; [|done]. simpl.
    rewrite lookup_insert_ne; [done|]. intros <-.
    destruct (Hwf _ _ Hsub) as (o1 & Ho1 & Hn1).
    destruct (Hwf _ _ Hsub') as (o2 & Ho2 & Hn2). congruence.
Qed.

(** X10: in every state the server can be in, [GetSubscription] on a
    well-formed name returns an object that carries the name; a name that was
    not registered gets a new object with an empty queue, a registered one
    leaves the state as it is; and a second call returns the same object
    and changes nothing. *)
Theorem GetSubscription_stable (fs : gmap Z string)
    (rs : list (list Z * Request)) (r : Request) :
  let s := snd (serve_all rs (initial fs)) in
  validSubRegexp_MatchString (Form_Get r "sub") = true →
  ∃ sub o s1,
    GetSubscription r s = (Ok (Some sub), s1) ∧
    objs s1 !! sub = Some o ∧ Name o = Form_Get r "sub" ∧
    (subs s !! Form_Get r "sub" = None →
       UnAcked o = [] ∧ objs s !! sub = None) ∧
    (is_Some (subs s !! Form_Get r "sub") → s1 = s) ∧
    GetSubscription r s1 = (Ok (Some sub), s1).
Proof.
  intros s Hv.
  destruct (GetSubscription_resolves r s (serve_all_wf rs _ (initial_wf fs)) Hv)
    as (sub & o & s1 & Hrun & _ & Hsub & Ho & Hname & Hq & _ & _ & _ & Hsame
        & Hnew).
  exists sub, o, s1. split; [exact Hrun|]. split; [exact Ho|].
  split; [exact Hname|]. split; [|split; [exact Hsame|]].
  - intros Hnone. split; [|by apply Hnew]. rewrite Hq. unfold queue_of.
    by rewrite Hnone.
  - by apply GetSubscription_found.
Qed.

Lemma GetSubscription_stable_witness :
  let s := snd (serve_all four_messages_one_ack (initial ∅)) in
  let r := snd (do_pull "sub1" "0") in
  ∃ sub s1, GetSubscription r s = (Ok (Some sub), s1) ∧
            GetSubscription r s1 = (Ok (Some sub), s1) ∧
            queue_of s1 "sub1" = Some [].
Proof.
  intros s r.
  destruct (GetSubscription_stable ∅ four_messages_one_ack r)
    as (sub & o & s1 & Hrun & _ & _ & _ & _ & Hagain).
  { reflexivity. }
  exists sub, s1. split; [exact Hrun|]. split; [exact Hagain|].
  change s1 with (snd (Ok (Some sub), s1)). rewrite <- Hrun.
  vm_compute. reflexivity.
Defined.

(** X11: in every state the server can be in, a POST to [/unsub] with a
    well-formed name is answered [200] and leaves the name unregistered;
    every other subscription, the counter and the files are as before. *)
Theorem unsub_handler_effect (fs : gmap Z string)
    (rs : list (list Z * Request)) (r : Request) :
  let s := snd (serve_all rs (initial fs)) in
  Method r = MethodPost →
  validSubRegexp_MatchString (Form_Get r "sub") = true →
  ∃ s1,
    unsub_handler r s = (Ok {| status := StatusOK; body := None |}, s1) ∧
    subs s1 !! Form_Get r "sub" = None ∧
    (∀ name, name ≠ Form_Get r "sub" → queue_of s1 name = queue_of s name) ∧
    topic s1 = topic s ∧ files s1 = files s.
Proof.
  intros s Hpost Hv.
  destruct (GetSubscription_resolves r s (serve_all_wf rs _ (initial_wf fs)) Hv)
    as (sub & o & s0 & Hrun & _ & Hsub & Ho & Hname & _ & Ht & Hf & Hother
        & _).
  unfold unsub_handler. rewrite bool_decide_true by done. cbn [negb].
  rewrite (bind_Ok _ _ _ _ _ Hrun).
  unfold DestroySubscription, bind, get, subs_delete, respond, ret.
  rewrite Ho, Hname. eexists. split; [reflexivity|]. simpl.
  split; [by rewrite lookup_delete_eq|]. split; [|done].
  intros name Hne. destruct (Hother name Hne) as [_ <-].
  unfold queue_of. simpl. by rewrite lookup_delete_ne.
Qed.

Lemma unsub_handler_effect_witness :
  let s := snd (serve_all four_messages_one_ack (initial ∅)) in
  queue_of s "sub0" = Some [1; 3; 2] ∧
  ∃ s1, unsub_handler (snd (do_unsub "sub0")) s
        = (Ok {| status := StatusOK; body := None |}, s1) ∧
        queue_of s1 "sub0" = None ∧ topic s1 = topic s.
Proof.
  intros s. split; [vm_compute; reflexivity|].
  destruct (unsub_handler_effect ∅ four_messages_one_ack
              (snd (do_unsub "sub0")))
    as (s1 & Hrun & Hnone & _ & Ht & _).
  { reflexivity. } { reflexivity. }
  exists s1. split; [exact Hrun|]. split; [|exact Ht].
  unfold queue_of. change (Form_Get _ _) with "sub0" in Hnone.
  by rewrite Hnone.
Defined.

(** X12: in every state the server can be in, a POST to [/ack] with a
    well-formed name and well-formed ids is answered [200]; the queue of the
    name (empty if the name is new) becomes what [AckMessages] makes of it,
    and every other subscription, the counter and the files are as
    before. *)
Theorem ack_handler_effect (fs : gmap Z string)
    (rs : list (list Z * Request)) (r : Request) (ids : list Z) :
  let s := snd (serve_all rs (initial fs)) in
  Method r = MethodPost →
  validSubRegexp_MatchString (Form_Get r "sub") = true →
  ack_parse (Form_index r "id") [] = Some ids →
  ∃ s1 q',
    ack_handler r s = (Ok {| status := StatusOK; body := None |}, s1) ∧
    AckMessages ids (default [] (queue_of s (Form_Get r "sub")))
    = (Ok tt, q') ∧
    queue_of s1 (Form_Get r "sub") = Some q' ∧
    (∀ name, name ≠ Form_Get r "sub" → queue_of s1 name = queue_of s name) ∧
    topic s1 = topic s ∧ files s1 = files s.
Proof.
  intros s Hpost Hv Hids.
  destruct (GetSubscription_resolves r s (serve_all_wf rs _ (initial_wf fs)) Hv)
    as (sub & o & s0 & Hrun & Hwf0 & Hsub & Ho & Hname & Hq & Ht & Hf & Hother
        & _).
  destruct (AckMessages_removes_only_input ids (UnAcked o))
    as (q' & removed & Hack & _).
  destruct (queue_of_on_sub_at sub (AckMessages ids) s0 _ o Hwf0 Hsub Ho)
    as [Hhere Hthere].
  unfold ack_handler. rewrite bool_decide_true by done. cbn [negb].
  rewrite (bind_Ok _ _ _ _ _ Hrun), Hids.
  unfold bind, respond, ret.
  rewrite (on_sub_lookup (AckMessages ids) sub s0 o Ho) in Hhere, Hthere |- *.
  rewrite Hack in Hhere, Hthere |- *. simpl in *.
  eexists _, q'. split; [reflexivity|]. rewrite <- Hq.
  split; [exact Hack|]. split; [exact Hhere|]. split; [|done].
  intros name Hne. rewrite (Hthere name Hne). by apply Hother.
Qed.

Lemma ack_handler_effect_witness :
  let s := snd (serve_all four_messages_one_ack (initial ∅)) in
  queue_of s "sub0" = Some [1; 3; 2] ∧
  ∃ s1, ack_handler (snd (do_ack "sub0" ["3"; "7"])) s
        = (Ok {| status := StatusOK; body := None |}, s1) ∧
        queue_of s1 "sub0" = Some [1; 2].
Proof.
  intros s.
  assert (Hq : queue_of s "sub0" = Some [1; 3; 2]) by (vm_compute; reflexivity).
  split; [exact Hq|].
  destruct (ack_handler_effect ∅ four_messages_one_ack
              (snd (do_ack "sub0" ["3"; "7"])) [3; 7])
    as (s1 & q' & Hrun & Hack & Hq' & _).
  { reflexivity. } { reflexivity. } { reflexivity. }
  change (Form_Get _ _) with "sub0" in Hack, Hq'. fold s in Hack.
  exists s1. split; [exact Hrun|]. rewrite Hq'. f_equal.
  rewrite Hq in Hack. vm_compute in Hack. by injection Hack as <-.
Defined.

(** ** What a pull answers *)

Lemma GetMessages_loop_dom (ids : list Z) (fs : gmap Z string) :
  snd (GetMessages_loop ids ∅ fs) = true →
  dom (fst (GetMessages_loop ids ∅ fs)) = list_to_set ids.
Proof.
  intros Htrue.
  destruct (GetMessages_loop_spec ids ∅ fs) as (Hok & Hin & Hall).
  apply set_eq. intros id. rewrite elem_of_dom, elem_of_list_to_set. split.
  - intros [bs Hbs]. destruct (Hin id) as [E|(Hid & _)]; [|done].
    rewrite E, lookup_empty in Hbs. discriminate.
  - intros Hid. rewrite (Hall Htrue id Hid).
    apply Hok in Htrue. rewrite Forall_forall in Htrue. by apply Htrue.
Qed.

Lemma pull_result_stored n q fs :
  0 ≤ n → Forall (λ id, is_Some (fs !! id)) q →
  ∃ j, pull_result n q fs = Ok {| status := StatusOK; body := Some j |} ∧
       dom (Messages j) = list_to_set (take (Z.to_nat n) q) ∧
       NMessage j = Z.of_nat (size (Messages j)) ∧
       ∀ id, id ∈ take (Z.to_nat n) q → Messages j !! id = fs !! id.
Proof.
  intros Hn Hq. unfold pull_result.
  rewrite FindUnAckedMessageIds_nonneg by done. cbn [fst].
  destruct (GetMessages_loop_spec (take (Z.to_nat n) q) ∅ fs)
    as (Hok & _ & Hall).
  pose proof (GetMessages_loop_dom (take (Z.to_nat n) q) fs) as Hdom.
  assert (Htrue : snd (GetMessages_loop (take (Z.to_nat n) q) ∅ fs) = true)
    by (by apply Hok, Forall_take).
  destruct (GetMessages_loop (take (Z.to_nat n) q) ∅ fs) as [m ok].
  simpl in *. subst ok. exists (marshall m). split; [done|]. simpl.
  split; [by apply Hdom|]. split; [done|]. by apply Hall.
Qed.

Lemma pull_handler_stored r s n :
  registry_wf s → all_stored s →
  validSubRegexp_MatchString (Form_Get r "sub") = true →
  Atoi (Form_Get r "n") = Some n → 0 ≤ n →
  ∃ j, fst (pull_handler r s) = Ok {| status := StatusOK; body := Some j |} ∧
       dom (Messages j)
       = list_to_set (take (Z.to_nat n)
                        (default [] (queue_of s (Form_Get r "sub")))) ∧
       NMessage j = Z.of_nat (size (Messages j)) ∧
       ∀ id, id ∈ take (Z.to_nat n)
                    (default [] (queue_of s (Form_Get r "sub"))) →
         is_Some (files s !! id) ∧ Messages j !! id = files s !! id.
Proof.
  intros Hwf Hst Hv Hn Hpos.
  destruct (GetSubscription_resolves r s Hwf Hv)
    as (sub & o & s1 & Hrun & _ & _ & Ho & _ & Hq & _ & Hf & _).
  pose proof (GetSubscription_stored r s Hst) as Hst1.
  rewrite Hrun in Hst1. simpl in Hst1.
  pose proof (proj2 Hst1 sub o Ho) as Hfiles. rewrite Hf, Hq in Hfiles.
  rewrite (pull_handler_resolved r s sub s1 o n Hrun Ho Hn). cbn [fst].
  rewrite Hf, Hq.
  destruct (pull_result_stored n _ (files s) Hpos Hfiles)
    as (j & -> & Hdom & Hsize & Hbodies).
  exists j. split; [done|]. split; [exact Hdom|]. split; [exact Hsize|].
  intros id Hid. split; [|by apply Hbodies].
  rewrite Forall_forall in Hfiles. apply Hfiles.
  by apply (subseteq_take (Z.to_nat n)).
Qed.

(** X13: in every state the server can be in, a pull with a well-formed
    name and a count that is not negative is answered [200], never [500]:
    every id in a queue has its file.  The value the handler hands to
    [json.Marshal] maps the ids in the first [n] slots of the queue (the
    whole queue when it has fewer, none for a name that was not registered)
    to the contents of their files, and holds nothing else.  How
    [json.Marshal] writes that value is outside the statement. *)
Theorem pull_answers_first_slots (fs : gmap Z string)
    (rs : list (list Z * Request)) (r : Request) (n : Z) :
  let s := snd (serve_all rs (initial fs)) in
  validSubRegexp_MatchString (Form_Get r "sub") = true →
  Atoi (Form_Get r "n") = Some n → 0 ≤ n →
  let ids := take (Z.to_nat n) (default [] (queue_of s (Form_Get r "sub"))) in
  ∃ j, fst (pull_handler r s) = Ok {| status := StatusOK; body := Some j |} ∧
       dom (Messages j) = list_to_set ids ∧
       NMessage j = Z.of_nat (size (Messages j)) ∧
       ∀ id, id ∈ ids →
         is_Some (files s !! id) ∧ Messages j !! id = files s !! id.
Proof.
  intros s Hv Hn Hpos ids.
  destruct (reachable_inv fs rs) as (Hwf & _ & Hst).
  by apply pull_handler_stored.
Qed.

Lemma pull_answers_first_slots_witness :
  let s := snd (serve_all four_messages_one_ack (initial ∅)) in
  queue_of s "sub0" = Some [1; 3; 2] ∧
  ∃ j, fst (pull_handler (snd (do_pull "sub0" "2")) s)
       = Ok {| status := StatusOK; body := Some j |} ∧
       dom (Messages j) = list_to_set [1; 3] ∧
       Messages j !! 3 = Some "paul".
Proof.
  intros s.
  assert (Hq : queue_of s "sub0" = Some [1; 3; 2]) by (vm_compute; reflexivity).
  split; [exact Hq|].
  destruct (pull_answers_first_slots ∅ four_messages_one_ack
              (snd (do_pull "sub0" "2")) 2)
    as (j & Hrun & Hdom & _ & Hbodies).
  { reflexivity. } { reflexivity. } { lia. }
  change (Form_Get _ _) with "sub0" in Hdom, Hbodies.
  fold s in Hdom, Hbodies. rewrite Hq in Hdom, Hbodies.
  exists j. split; [exact Hrun|]. split; [exact Hdom|].
  destruct (Hbodies 3) as [_ ->].
  - apply list_elem_of_In. simpl. lia.
  - vm_compute. reflexivity.
Defined.



(** ** What a publish does *)

Lemma PutMessages_range_spec baseID bound targets : ∀ s,
  NoDup targets.*2 →
  (∀ sub, sub ∈ targets.*2 → is_Some (objs s !! sub)) →
  ∃ s', PutMessages_range targets baseID bound s = (Ok tt, s') ∧
    subs s' = subs s ∧ topic s' = topic s ∧ files s' = files s ∧
    (∀ sub o, objs s !! sub = Some o → sub ∈ targets.*2 →
       objs s' !! sub
       = Some {| Name := Name o;
                 UnAcked := snd (PutMessages_push (Z.to_nat (bound - baseID))
                                   baseID (UnAcked o)) |}) ∧
    (∀ sub, sub ∉ targets.*2 → objs s' !! sub = objs s !! sub).
Proof.
  induction targets as [|[name sub] rest IH]; intros s Hnd Hobjs.
  { exists s. repeat split; try done. intros sub o _ Hin.
    by apply elem_of_nil in Hin. }
  cbn [PutMessages_range]. rewrite fmap_cons in Hnd, Hobjs. simpl in Hnd, Hobjs.
  apply NoDup_cons in Hnd as [Hfirst Hnd].
  destruct (Hobjs sub ltac:(left)) as [o Ho].
  destruct (PutMessages_push_ok (Z.to_nat (bound - baseID)) baseID (UnAcked o))
    as (q1 & Hpush & _).
  pose proof (on_sub_lookup
                (PutMessages_push (Z.to_nat (bound - baseID)) baseID) sub s o Ho)
    as Hon.
  rewrite Hpush in Hon. simpl in Hon. rewrite (bind_Ok _ _ _ _ _ Hon).
  match type of Hon with _ = (_, ?s1) =>
    destruct (IH s1 Hnd) as (s' & Hrun & Hs & Ht & Hf & Hin & Hout)
  end.
  { intros sub' Hsub'. simpl. rewrite lookup_insert_is_Some'. right.
    apply Hobjs. by right. }
  simpl in *. exists s'. split; [exact Hrun|]. split; [done|].
  split; [done|]. split; [done|]. split.
  - intros sub' o' Ho' Hsub'. rewrite ?fmap_cons in Hsub'. simpl in Hsub'.
    destruct (decide (sub' = sub)) as [->|Hne].
    + rewrite Hout by done. rewrite lookup_insert_eq.
      assert (o' = o) as -> by congruence. by rewrite Hpush.
    + apply elem_of_cons in Hsub' as [?|Hsub']; [done|].
      apply Hin; [|done]. by rewrite lookup_insert_ne.
  - intros sub' Hsub'. rewrite ?fmap_cons in Hsub'. simpl in Hsub'.
    apply not_elem_of_cons in Hsub' as [Hne Hsub'].
    rewrite Hout by done. by rewrite lookup_insert_ne.
Qed.

Lemma PutMessages_range_registry baseID bound s :
  registry_wf s →
  ∃ s', PutMessages_range (map_to_list (subs s)) baseID bound s = (Ok tt, s') ∧
    subs s' = subs s ∧ topic s' = topic s ∧ files s' = files s ∧
    (∀ name, queue_of s' name
             = (λ q, snd (PutMessages_push (Z.to_nat (bound - baseID))
                            baseID q)) <$> queue_of s name) ∧
    (Z.to_nat (bound - baseID) = 0%nat → s' = s).
Proof.
  intros Hwf.
  destruct (PutMessages_range_spec baseID bound (map_to_list (subs s)) s)
    as (s' & Hrun & Hs & Ht & Hf & Hin & Hout).
  { apply NoDup_fmap_2_strong; [|apply NoDup_map_to_list].
    intros [n1 p1] [n2 p2] H1 H2. simpl. intros <-.
    apply elem_of_map_to_list in H1, H2.
    destruct (Hwf _ _ H1) as (o1 & Ho1 & Hn1).
    destruct (Hwf _ _ H2) as (o2 & Ho2 & Hn2). by simplify_eq. }
  { intros sub Hsub. apply list_elem_of_fmap in Hsub as ([n p] & -> & Hin).
    apply elem_of_map_to_list in Hin.
    destruct (Hwf _ _ Hin) as (o & Ho & _). by exists o. }
  exists s'. split; [exact Hrun|]. split; [done|]. split; [done|].
  split; [done|]. split.
  - intros name. unfold queue_of. rewrite Hs.
    destruct (subs s !! name) as [sub|] eqn:Hsub; [|done]. simpl.
    destruct (Hwf _ _ Hsub) as (o & Ho & _). rewrite Ho. simpl.
    rewrite (Hin sub o Ho); [done|].
    apply list_elem_of_fmap. exists (name, sub). split; [done|].
    by apply elem_of_map_to_list.
  - intros Hk. rewrite Hk in Hin. destruct s' as [subs' objs' topic' files'].
    destruct s as [subs0 objs0 topic0 files0]. simpl in *. subst.
    f_equal. apply map_eq. intros sub.
    destruct (decide (sub ∈ (map_to_list subs0).*2)) as [Hsub|Hsub];
      [|by apply Hout].
    destruct (objs0 !! sub) as [o|] eqn:Ho.
    + rewrite (Hin sub o Ho Hsub). simpl. by rewrite Subscription_eta.
    + apply list_elem_of_fmap in Hsub as ([n p] & -> & Hnp).
      apply elem_of_map_to_list in Hnp.
      destruct (Hwf _ _ Hnp) as (o & Ho' & _). simpl in *. congruence.
Qed.

Lemma PutMessages_run wfail messages baseID s ok fs' :
  registry_wf s →
  PutMessages_write wfail baseID 0 messages (files s) = (Ok ok, fs') →
  ∃ s1, PutMessages wfail messages baseID s = (Ok ok, s1) ∧
    subs s1 = subs s ∧ topic s1 = topic s ∧ files s1 = fs' ∧
    (∀ name,
       queue_of s1 name
       = if ok
         then (λ q, snd (PutMessages_push
                  (Z.to_nat (uint64 (baseID + uint64 (Z.of_nat (length messages)))
                             - baseID)) baseID q)) <$> queue_of s name
         else queue_of s name) ∧
    (ok = false ∨
     Z.to_nat (uint64 (baseID + uint64 (Z.of_nat (length messages))) - baseID)
     = 0%nat → objs s1 = objs s).
Proof.
  intros Hwf Hwrite.
  set (s0 := {| subs := subs s; objs := objs s; topic := topic s;
                files := fs' |}).
  assert (Hfiles : on_files (PutMessages_write wfail baseID 0 messages) s
                   = (Ok ok, s0)).
  { unfold on_files. by rewrite Hwrite. }
  unfold PutMessages. rewrite (bind_Ok _ _ _ _ _ Hfiles).
  destruct ok; cbn [negb].
  - destruct (PutMessages_range_registry baseID
                (uint64 (baseID + uint64 (Z.of_nat (length messages)))) s0 Hwf)
      as (s1 & Hrun & Hs & Ht & Hf & Hq & Hsame).
    rewrite (bind_Ok get _ s0 s0 s0 eq_refl). cbv beta.
    rewrite (bind_Ok _ _ _ _ _ Hrun). exists s1. split; [done|].
    split; [done|]. split; [done|]. split; [done|]. split; [exact Hq|].
    intros [?|Hk]; [done|]. by rewrite (Hsame Hk).
  - exists s0. repeat split; done.
Qed.

Lemma send_handler_run wfail r s ok fs' :
  registry_wf s → Method r = MethodPost →
  PutMessages_write wfail (NextMesgID (topic s)) 0 (Form_index r "message")
    (files s) = (Ok ok, fs') →
  ∃ s1,
    send_handler wfail r s
    = (Ok {| status := if ok then StatusOK else StatusInternalServerError;
             body := None |}, s1) ∧
    subs s1 = subs s ∧
    topic s1
    = {| TopicName := TopicName (topic s);
         NextMesgID := uint64 (NextMesgID (topic s)
                         + uint64 (Z.of_nat (length (Form_index r "message"))))
      |} ∧
    files s1 = fs' ∧
    (∀ name,
       queue_of s1 name
       = if ok
         then (λ q, snd (PutMessages_push
                  (Z.to_nat (uint64 (NextMesgID (topic s) + uint64 (Z.of_nat
                               (length (Form_index r "message"))))
                             - NextMesgID (topic s)))
                  (NextMesgID (topic s)) q)) <$> queue_of s name
         else queue_of s name) ∧
    (ok = false ∨
     Z.to_nat (uint64 (NextMesgID (topic s) + uint64 (Z.of_nat
                 (length (Form_index r "message")))) - NextMesgID (topic s))
     = 0%nat → objs s1 = objs s).
Proof.
  intros Hwf Hpost Hwrite.
  set (s0 := {| subs := subs s; objs := objs s;
                topic := {| TopicName := TopicName (topic s);
                            NextMesgID := uint64 (NextMesgID (topic s) + uint64
                              (Z.of_nat (length (Form_index r "message")))) |};
                files := files s |}).
  assert (Hct : on_topic (CreateMessageIds
                  (Z.of_nat (length (Form_index r "message")))) s
                = (Ok (NextMesgID (topic s)), s0)) by reflexivity.
  destruct (PutMessages_run wfail (Form_index r "message")
              (NextMesgID (topic s)) s0 ok fs' Hwf Hwrite)
    as (s1 & Hput & Hs & Ht & Hf & Hq & Hobjs).
  unfold send_handler. rewrite bool_decide_true by done. cbn [negb].
  rewrite (bind_Ok _ _ _ _ _ Hct), (bind_Ok _ _ _ _ _ Hput).
  exists s1. split; [by destruct ok|]. by repeat split.
Qed.

Lemma PutMessages_write_true wfail baseID messages : ∀ (i : Z) fs,
  (∀ j, (j < length messages)%nat →
        uint64 (baseID + uint64 (i + Z.of_nat j)) ∉ wfail) →
  ∃ fs', PutMessages_write wfail baseID i messages fs = (Ok true, fs') ∧
    ∀ j, (j < length messages)%nat →
         is_Some (fs' !! uint64 (baseID + uint64 (i + Z.of_nat j))).
Proof.
  intros i fs Hw.
  destruct (PutMessages_write_spec wfail baseID messages i fs)
    as (ok & fs' & Hrun & _ & Hall).
  destruct ok; [by exists fs'; split; [|apply Hall]|]. exfalso.
  clear Hall. revert i fs fs' Hw Hrun.
  induction messages as [|m rest IH]; intros i fs fs' Hw Hrun; [done|].
  cbn [PutMessages_write] in Hrun.
  rewrite bool_decide_false in Hrun.
  2:{ specialize (Hw 0%nat ltac:(simpl; lia)). by rewrite Z.add_0_r in Hw. }
  unfold bind at 1 in Hrun. eapply IH; [|exact Hrun].
  intros j Hj. replace (i + 1 + Z.of_nat j) with (i + Z.of_nat (S j)) by lia.
  apply Hw. simpl. lia.
Qed.

(** X15: in every state the server can be in, a publish whose ids stay
    below 2^64 and whose writes succeed is answered [200]; the counter moves
    up by the number of messages; message [j] is stored under id
    [baseID + j] and no other file changes; every registered queue gains
    exactly the new ids and keeps what it had; no name becomes registered. *)
Theorem send_fans_out (fs : gmap Z string) (rs : list (list Z * Request))
    (wfail : list Z) (r : Request) :
  let s := snd (serve_all rs (initial fs)) in
  let messages := Form_index r "message" in
  let baseID := NextMesgID (topic s) in
  Method r = MethodPost →
  baseID + Z.of_nat (length messages) < uint64_modulus →
  (∀ id, id ∈ new_ids baseID (length messages) → id ∉ wfail) →
  ∃ s1,
    send_handler wfail r s = (Ok {| status := StatusOK; body := None |}, s1) ∧
    NextMesgID (topic s1) = baseID + Z.of_nat (length messages) ∧
    (∀ j : nat, (j < length messages)%nat →
       files s1 !! (baseID + Z.of_nat j) = messages !! j) ∧
    (∀ id, id ∉ new_ids baseID (length messages) →
       files s1 !! id = files s !! id) ∧
    (∀ name q, queue_of s name = Some q →
       ∃ q', queue_of s1 name = Some q' ∧
             q' ≡ₚ new_ids baseID (length messages) ++ q) ∧
    (∀ name, queue_of s name = None → queue_of s1 name = None).
Proof.
  intros s messages baseID Hpost Hlen Hw.
  destruct (reachable_inv fs rs) as (Hwf & _ & [Hc _]).
  fold s in Hwf, Hc. fold baseID in Hc.
  destruct (PutMessages_write_exact wfail baseID messages 0 (files s))
    as (fs' & Hwrite & Hnew & Hold); [lia|simpl; lia| |].
  { intros j Hj. apply Hw, elem_of_new_ids. by exists j. }
  simpl in Hwrite.
  destruct (send_handler_run wfail r s true fs' Hwf Hpost Hwrite)
    as (s1 & Hrun & _ & Ht & Hf & Hq & _).
  fold messages baseID in Ht, Hq.
  assert (E : uint64 (baseID + uint64 (Z.of_nat (length messages)))
              = baseID + Z.of_nat (length messages)).
  { rewrite uint64_add. apply Z.mod_small. lia. }
  rewrite E in Ht, Hq.
  replace (Z.to_nat (baseID + Z.of_nat (length messages) - baseID))
    with (length messages) in Hq by lia.
  exists s1. split; [exact Hrun|]. split; [by rewrite Ht|]. rewrite Hf.
  split; [|split; [|split]].
  - intros j Hj. destruct (lookup_lt_is_Some_2 messages j Hj) as [m Hm].
    rewrite Hm. by apply (Hnew j m).
  - intros id Hid. apply Hold. intros Hrange. apply Hid, elem_of_new_ids.
    exists (Z.to_nat (id - baseID)). simpl in Hrange. lia.
  - intros name q Hname. rewrite Hq, Hname. simpl.
    destruct (PutMessages_push_ok (length messages) baseID q)
      as (q' & -> & Hperm).
    by exists q'.
  - intros name Hname. by rewrite Hq, Hname.
Qed.

Lemma send_fans_out_witness :
  let s := snd (serve_all four_messages_one_ack (initial ∅)) in
  queue_of s "sub0" = Some [1; 3; 2] ∧
  ∃ s1, send_handler [] (snd (do_send ["george"; "ringo"])) s
        = (Ok {| status := StatusOK; body := None |}, s1) ∧
        NextMesgID (topic s1) = 6 ∧
        files s1 !! 5 = Some "ringo" ∧
        ∃ q', queue_of s1 "sub0" = Some q' ∧ q' ≡ₚ [4; 5; 1; 3; 2].
Proof.
  intros s.
  assert (Hq : queue_of s "sub0" = Some [1; 3; 2]) by (vm_compute; reflexivity).
  split; [exact Hq|].
  destruct (send_fans_out ∅ four_messages_one_ack []
              (snd (do_send ["george"; "ringo"])))
    as (s1 & Hrun & Hc & Hfiles & _ & Hqs & _).
  { reflexivity. } { by vm_compute. } { intros id _. apply not_elem_of_nil. }
  exists s1. split; [exact Hrun|]. split; [exact Hc|].
  split; [exact (Hfiles 1%nat ltac:(vm_compute; lia))|].
  exact (Hqs "sub0" [1; 3; 2] Hq).
Defined.

(** X16: a publish that takes the counter past 2^64 - 1 is answered [200]
    and its files are written, but no queue receives anything: the bound
    [baseID + len] of the second loop of [PutMessages] has wrapped below
    [baseID], so the loop body never runs. *)
Theorem send_past_last_id_reaches_no_queue (wfail : list Z) (r : Request)
    (s : State) :
  let messages := Form_index r "message" in
  let baseID := NextMesgID (topic s) in
  registry_wf s → 0 ≤ baseID < uint64_modulus →
  Method r = MethodPost →
  uint64_modulus ≤ baseID + Z.of_nat (length messages) →
  Z.of_nat (length messages) < uint64_modulus →
  (∀ j, (j < length messages)%nat →
        uint64 (baseID + uint64 (Z.of_nat j)) ∉ wfail) →
  ∃ s1,
    send_handler wfail r s = (Ok {| status := StatusOK; body := None |}, s1) ∧
    NextMesgID (topic s1)
    = baseID + Z.of_nat (length messages) - uint64_modulus ∧
    (∀ j, (j < length messages)%nat →
          is_Some (files s1 !! uint64 (baseID + uint64 (Z.of_nat j)))) ∧
    ∀ name, queue_of s1 name = queue_of s name.
Proof.
  intros messages baseID Hwf Hc Hpost Hwrap Hlen Hw.
  destruct (PutMessages_write_true wfail baseID messages 0 (files s))
    as (fs' & Hwrite & Hall); [exact Hw|].
  destruct (send_handler_run wfail r s true fs' Hwf Hpost Hwrite)
    as (s1 & Hrun & _ & Ht & Hf & Hq & _).
  fold messages baseID in Ht, Hq.
  assert (E : uint64 (baseID + uint64 (Z.of_nat (length messages)))
              = baseID + Z.of_nat (length messages) - uint64_modulus).
  { rewrite uint64_add. unfold uint64_modulus in *.
    rewrite <- (Z.mod_add _ (-1)) by lia. apply Z.mod_small. lia. }
  rewrite E in Ht, Hq.
  replace (Z.to_nat (baseID + Z.of_nat (length messages) - uint64_modulus
                     - baseID)) with 0%nat in Hq by lia.
  exists s1. split; [exact Hrun|]. split; [by rewrite Ht|]. rewrite Hf.
  split; [exact Hall|].
  intros name. rewrite Hq. by destruct (queue_of s name).
Qed.

Lemma send_past_last_id_reaches_no_queue_witness :
  let s0 := snd (serve_all [do_pull "sub0" "0"] (initial ∅)) in
  let s := {| subs := subs s0; objs := objs s0;
              topic := {| TopicName := "<default-topic>";
                          NextMesgID := 18446744073709551615 |};
              files := files s0 |} in
  ∃ s1, send_handler [] (snd (do_send ["lost"])) s
        = (Ok {| status := StatusOK; body := None |}, s1) ∧
        NextMesgID (topic s1) = 0 ∧
        is_Some (files s1 !! 18446744073709551615) ∧
        queue_of s1 "sub0" = Some [].
Proof.
  intros s0 s.
  destruct (send_past_last_id_reaches_no_queue [] (snd (do_send ["lost"])) s)
    as (s1 & Hrun & Hc & Hfiles & Hq).
  { exact (serve_all_wf [do_pull "sub0" "0"] _ (initial_wf ∅)). }
  { by vm_compute. } { reflexivity. } { by vm_compute. } { by vm_compute. }
  { intros j _. apply not_elem_of_nil. }
  exists s1. split; [exact Hrun|]. split; [exact Hc|].
  split; [exact (Hfiles 0%nat ltac:(vm_compute; lia))|].
  rewrite Hq. vm_compute. reflexivity.
Defined.

(** X17: in every state the server can be in, a publish with no message is
    answered [200] and changes nothing. *)
Theorem send_without_messages (fs : gmap Z string)
    (rs : list (list Z * Request)) (wfail : list Z) (r : Request) :
  let s := snd (serve_all rs (initial fs)) in
  Method r = MethodPost → Form_index r "message" = [] →
  send_handler wfail r s = (Ok {| status := StatusOK; body := None |}, s).
Proof.
  intros s Hpost Hempty.
  destruct (reachable_inv fs rs) as (Hwf & _ & [Hc _]). fold s in Hwf, Hc.
  destruct (send_handler_run wfail r s true (files s) Hwf Hpost)
    as (s1 & Hrun & Hs & Ht & Hf & _ & Hobjs).
  { by rewrite Hempty. }
  rewrite Hempty in Ht, Hobjs. simpl in Ht, Hobjs.
  assert (E : uint64 (NextMesgID (topic s) + uint64 (Z.of_nat 0))
              = NextMesgID (topic s)).
  { rewrite uint64_add, Z.add_0_r. by apply Z.mod_small. }
  rewrite E in Ht, Hobjs. rewrite Z.sub_diag in Hobjs.
  specialize (Hobjs ltac:(by right)).
  rewrite Hrun. f_equal. destruct s1 as [subs1 objs1 topic1 files1].
  destruct s as [subs0 objs0 [tn c] files0]. simpl in *. by subst.
Qed.

Lemma send_without_messages_witness :
  let s := snd (serve_all four_messages_one_ack (initial ∅)) in
  send_handler [] (request "POST" "/send" []) s
  = (Ok {| status := StatusOK; body := None |}, s).
Proof.
  intros s.
  apply (send_without_messages ∅ four_messages_one_ack []
           (request "POST" "/send" [])); reflexivity.
Defined.

Lemma serve_counter_mono (b : Z) wfail r s :
  (Path r = "/send" →
   NextMesgID (topic s) + Z.of_nat (length (Form_index r "message"))
   < uint64_modulus) →
  0 ≤ b ≤ NextMesgID (topic s) →
  b ≤ NextMesgID (topic (snd (serve wfail r s))).
Proof.
  intros Hsend Hb.
  destruct (decide (Path r = "/send")) as [Hp|Hp].
  { destruct (decide (Method r = MethodPost)) as [Hm|Hm].
    - rewrite (send_counter wfail r s Hp Hm), uint64_add.
      specialize (Hsend Hp). rewrite Z.mod_small; lia.
    - unfold serve, send_handler.
      rewrite (bool_decide_true _ Hp), (bool_decide_false _ Hm). simpl. lia. }
  unfold serve. rewrite (bool_decide_false _ Hp).
  assert (Hsub : ∀ A sub (m : M MessageQueue A),
            preserves (λ s, b ≤ NextMesgID (topic s)) (on_sub sub m)).
  { intros A sub m s0 Hs. unfold on_sub.
    destruct (objs s0 !! sub) as [o|]; [|done]. by destruct (m (UnAcked o)). }
  assert (Hget : ∀ r', preserves (λ s, b ≤ NextMesgID (topic s))
                         (GetSubscription r')).
  { intros r' s0 Hs.
    destruct (GetSubscription_cases r' s0)
      as [[_ ->]|[(_ & sub & _ & ->)|(_ & _ & ->)]]; exact Hs. }
  assert (H : preserves (λ s, b ≤ NextMesgID (topic s))
                (if bool_decide (Path r = "/unsub") then unsub_handler r
                 else if bool_decide (Path r = "/pull") then pull_handler r
                 else if bool_decide (Path r = "/ack") then ack_handler r
                 else respond StatusNotFound)).
  { unfold unsub_handler, pull_handler, ack_handler, respond, GetMessages,
      DestroySubscription.
    repeat first
      [ progress auto with preserves
      | apply Hsub | apply Hget
      | apply preserves_if
      | apply preserves_bind; [|intros ?]
      | match goal with
        | |- preserves _ (match ?x with _ => _ end) => destruct x
        | |- preserves _ (subs_delete _) => intros ? ?; assumption
        end ]. }
  apply H. lia.
Qed.

Lemma serve_all_counter_mono (b : Z) rs : ∀ s,
  no_wrap rs s → 0 ≤ b ≤ NextMesgID (topic s) →
  b ≤ NextMesgID (topic (snd (serve_all rs s))).
Proof.
  induction rs as [|[wfail r] rest IH]; intros s Hwrap Hb; [simpl; lia|].
  simpl in Hwrap |- *. destruct Hwrap as [Hsend Hwrap].
  pose proof (serve_counter_mono b wfail r s Hsend Hb) as H1.
  destruct (serve wfail r s) as [o s1]. simpl in *.
  specialize (IH s1 Hwrap ltac:(lia)). by destruct (serve_all rest s1).
Qed.

(** X18: in every state the server can be in, a publish one of whose files
    cannot be written is answered [500].  No subscription and no queue
    changes, yet the counter has moved by the number of messages (modulo
    2^64).  When that sum has not wrapped, the counter is now [baseID + len]
    and stays at or above it for as long as no later publish wraps it:
    whatever is requested afterwards, [CreateMessageIds] hands out ids from
    [baseID + len] upwards only, none of the failed publish. *)
Theorem send_write_failure (fs : gmap Z string)
    (rs : list (list Z * Request)) (wfail : list Z) (r : Request) :
  let s := snd (serve_all rs (initial fs)) in
  let messages := Form_index r "message" in
  let baseID := NextMesgID (topic s) in
  Method r = MethodPost →
  (∃ j, (j < length messages)%nat ∧
        uint64 (baseID + uint64 (Z.of_nat j)) ∈ wfail) →
  ∃ s1,
    send_handler wfail r s
    = (Ok {| status := StatusInternalServerError; body := None |}, s1) ∧
    NextMesgID (topic s1)
    = uint64 (baseID + uint64 (Z.of_nat (length messages))) ∧
    subs s1 = subs s ∧ objs s1 = objs s ∧
    (baseID + Z.of_nat (length messages) < uint64_modulus →
     NextMesgID (topic s1) = baseID + Z.of_nat (length messages) ∧
     ∀ rs2 count,
       no_wrap rs2 s1 →
       ∃ base2,
         fst (CreateMessageIds count (topic (snd (serve_all rs2 s1))))
         = Ok base2 ∧
         baseID + Z.of_nat (length messages) ≤ base2 ∧
         ∀ id, id ∈ new_ids baseID (length messages) → id < base2).
Proof.
  intros s messages baseID Hpost Hfail.
  destruct (reachable_inv fs rs) as (Hwf & _ & [Hc _]).
  fold s in Hwf, Hc. fold baseID in Hc.
  destruct (PutMessages_write_fails wfail baseID messages 0 (files s) Hfail)
    as (fs' & Hwrite).
  destruct (send_handler_run wfail r s false fs' Hwf Hpost Hwrite)
    as (s1 & Hrun & Hs & Ht & _ & _ & Hobjs).
  fold messages baseID in Ht.
  exists s1. split; [exact Hrun|]. split; [by rewrite Ht|].
  split; [exact Hs|]. split; [apply Hobjs; by left|].
  intros Hlen.
  assert (E : NextMesgID (topic s1) = baseID + Z.of_nat (length messages)).
  { rewrite Ht. simpl. rewrite uint64_add. apply Z.mod_small. lia. }
  split; [exact E|]. intros rs2 count Hwrap.
  pose proof (serve_all_counter_mono (baseID + Z.of_nat (length messages))
                rs2 s1 Hwrap ltac:(lia)) as Hmono.
  eexists. split; [reflexivity|]. split; [exact Hmono|].
  intros id Hid. apply elem_of_new_ids in Hid as (j & Hj & ->). lia.
Qed.

Lemma send_write_failure_witness :
  let s := snd (serve_all [do_pull "sub0" "0"] (initial ∅)) in
  ∃ s1, send_handler [1] (snd (do_send ["foo"; "bar"])) s
        = (Ok {| status := StatusInternalServerError; body := None |}, s1) ∧
        NextMesgID (topic s1) = 2 ∧ subs s1 = subs s ∧ objs s1 = objs s ∧
        fst (CreateMessageIds 1
               (topic (snd (serve_all [do_send ["john"]] s1))))
        = Ok 3.
Proof.
  intros s.
  destruct (send_write_failure ∅ [do_pull "sub0" "0"] [1]
              (snd (do_send ["foo"; "bar"])))
    as (s1 & Hrun & Hc & Hs & Ho & Hlater).
  { reflexivity. }
  { exists 1%nat. split; [vm_compute; lia|]. vm_compute. left. }
  exists s1. split; [exact Hrun|]. split; [exact Hc|]. split; [exact Hs|].
  split; [exact Ho|].
  assert (E : s1 = snd (send_handler [1] (snd (do_send ["foo"; "bar"])) s))
    by exact (eq_sym (f_equal snd Hrun)).
  rewrite E. vm_compute. reflexivity.
Defined.

(** ** When a request panics *)

Lemma pull_result_Ok n q fs : 0 ≤ n → ∃ resp, pull_result n q fs = Ok resp.
Proof.
  intros Hn. unfold pull_result.
  rewrite FindUnAckedMessageIds_nonneg by done. cbn [fst].
  destruct (GetMessages_loop _ ∅ fs) as [m [|]]; by eexists.
Qed.

Lemma send_handler_Ok wfail r s :
  registry_wf s → ∃ resp, fst (send_handler wfail r s) = Ok resp.
Proof.
  intros Hwf. destruct (decide (Method r = MethodPost)) as [Hpost|Hpost].
  - destruct (PutMessages_write_spec wfail (NextMesgID (topic s))
                (Form_index r "message") 0 (files s))
      as (ok & fs' & Hwrite & _).
    destruct (send_handler_run wfail r s ok fs' Hwf Hpost Hwrite)
      as (s1 & -> & _).
    by eexists.
  - unfold send_handler. rewrite bool_decide_false by done. by eexists.
Qed.

Lemma unsub_handler_Ok r s :
  registry_wf s → ∃ resp, fst (unsub_handler r s) = Ok resp.
Proof.
  intros Hwf. unfold unsub_handler.
  destruct (negb (bool_decide (Method r = MethodPost))); [by eexists|].
  destruct (validSubRegexp_MatchString (Form_Get r "sub")) eqn:Hv.
  - destruct (GetSubscription_resolves r s Hwf Hv)
      as (sub & o & s1 & Hrun & _ & _ & Ho & _).
    rewrite (bind_Ok _ _ _ _ _ Hrun).
    unfold DestroySubscription, bind, get. rewrite Ho. by eexists.
  - rewrite (bind_Ok _ _ _ _ _ (GetSubscription_invalid r s Hv)).
    by eexists.
Qed.

Lemma ack_handler_Ok r s :
  registry_wf s → ∃ resp, fst (ack_handler r s) = Ok resp.
Proof.
  intros Hwf. unfold ack_handler.
  destruct (negb (bool_decide (Method r = MethodPost))); [by eexists|].
  destruct (validSubRegexp_MatchString (Form_Get r "sub")) eqn:Hv.
  - destruct (GetSubscription_resolves r s Hwf Hv)
      as (sub & o & s1 & Hrun & _ & _ & Ho & _).
    rewrite (bind_Ok _ _ _ _ _ Hrun).
    destruct (ack_parse (Form_index r "id") []) as [ids|]; [|by eexists].
    unfold bind. rewrite (on_sub_lookup _ sub s1 o Ho).
    destruct (AckMessages_removes_only_input ids (UnAcked o))
      as (q' & removed & -> & _).
    by eexists.
  - rewrite (bind_Ok _ _ _ _ _ (GetSubscription_invalid r s Hv)).
    by eexists.
Qed.

(** X19: in every state the server can be in, the only request that panics
    is a pull with a well-formed name and a negative count; every other
    request is answered.  (The loop counters of the model are never
    exhausted.) *)
Theorem serve_panics_only_on_negative_count (fs : gmap Z string)
    (rs : list (list Z * Request)) (wfail : list Z) (r : Request) :
  let s := snd (serve_all rs (initial fs)) in
  fst (serve wfail r s) ≠ OutOfFuel ∧
  (fst (serve wfail r s) = Panic ↔
   Path r = "/pull" ∧
   validSubRegexp_MatchString (Form_Get r "sub") = true ∧
   ∃ n, Atoi (Form_Get r "n") = Some n ∧ n < 0).
Proof.
  intros s. split; [apply serve_fuel_ok|].
  pose proof (serve_all_wf rs _ (initial_wf fs)) as Hwf. fold s in Hwf.
  unfold serve.
  destruct (decide (Path r = "/send")) as [Hp|Hp1].
  { rewrite bool_decide_true by done.
    destruct (send_handler_Ok wfail r s Hwf) as [resp ->].
    split; [done|]. intros [Hpull _]. rewrite Hp in Hpull. discriminate. }
  rewrite bool_decide_false by done.
  destruct (decide (Path r = "/unsub")) as [Hp|Hp2].
  { rewrite bool_decide_true by done.
    destruct (unsub_handler_Ok r s Hwf) as [resp ->].
    split; [done|]. intros [Hpull _]. rewrite Hp in Hpull. discriminate. }
  rewrite bool_decide_false by done.
  destruct (decide (Path r = "/pull")) as [Hp|Hp3].
  { rewrite bool_decide_true by done.
    destruct (validSubRegexp_MatchString (Form_Get r "sub")) eqn:Hv.
    2:{ rewrite (pull_handler_bad_name r s Hv). split; [done|].
        intros (_ & ? & _). discriminate. }
    destruct (GetSubscription_resolves r s Hwf Hv)
      as (sub & o & s1 & Hrun & _ & _ & Ho & _).
    destruct (Atoi (Form_Get r "n")) as [n|] eqn:Hn.
    2:{ rewrite (pull_handler_bad_count r s sub s1 Hrun Hn). split; [done|].
        intros (_ & _ & n & ? & _). discriminate. }
    rewrite (pull_handler_resolved r s sub s1 o n Hrun Ho Hn). cbn [fst].
    destruct (decide (n < 0)) as [Hneg|Hpos].
    - rewrite pull_result_negative by done. split; [|done].
      intros _. split; [done|]. split; [done|]. by exists n.
    - destruct (pull_result_Ok n (UnAcked o) (files s1)) as [resp ->];
        [lia|].
      split; [done|]. intros (_ & _ & n' & Hn' & Hneg). simplify_eq. }
  rewrite bool_decide_false by done.
  destruct (decide (Path r = "/ack")) as [Hp|Hp4].
  { rewrite bool_decide_true by done.
    destruct (ack_handler_Ok r s Hwf) as [resp ->].
    split; [done|]. intros [Hpull _]. rewrite Hp in Hpull. discriminate. }
  rewrite bool_decide_false by done. split; [done|]. by intros [? _].
Qed.

(** ** The ids of a queue are distinct *)

Lemma GetSubscription_distinct r s :
  registry_wf s → distinct_ids s → distinct_ids (snd (GetSubscription r s)).
Proof.
  intros Hwf Hd.
  destruct (validSubRegexp_MatchString (Form_Get r "sub")) eqn:Hv.
  2:{ by rewrite (GetSubscription_invalid r s Hv). }
  destruct (GetSubscription_resolves r s Hwf Hv)
    as (sub & o & s1 & Hrun & _ & Hsub & Ho & _ & Hq & Ht & _ & Hother & _).
  rewrite Hrun. simpl. intros name q Hname. rewrite Ht.
  destruct (decide (name = Form_Get r "sub")) as [->|Hne].
  - assert (q = UnAcked o) as ->.
    { unfold queue_of in Hname. rewrite Hsub in Hname. simpl in Hname.
      rewrite Ho in Hname. simpl in Hname. congruence. }
    rewrite Hq.
    destruct (queue_of s (Form_Get r "sub")) as [q0|] eqn:Hq0; simpl.
    + by apply (Hd _ _ Hq0).
    + split; [apply NoDup_nil_2|constructor].
  - destruct (Hother name Hne) as [_ E]. rewrite E in Hname.
    by apply (Hd _ _ Hname).
Qed.

Lemma on_sub_distinct {A} sub (m : M MessageQueue A) s :
  registry_wf s → (∀ q, ∃ removed, q ≡ₚ removed ++ snd (m q)) →
  distinct_ids s → distinct_ids (snd (on_sub sub m s)).
Proof.
  intros Hwf Hm Hd name q Hname.
  assert (Ht : topic (snd (on_sub sub m s)) = topic s).
  { unfold on_sub. destruct (objs s !! sub); [|done]. by destruct (m _). }
  rewrite Ht.
  destruct (queue_of_on_sub sub m s name Hwf) as [E|(q0 & Hq0 & E)];
    rewrite E in Hname.
  - by apply (Hd name).
  - injection Hname as <-. destruct (Hd _ _ Hq0) as [Hnd Hall].
    destruct (Hm q0) as [removed Hperm]. rewrite Hperm in Hnd, Hall.
    apply NoDup_app in Hnd as (_ & _ & Hnd).
    by apply Forall_app in Hall as [_ Hall].
Qed.

Lemma DestroySubscription_distinct sub s :
  distinct_ids s → distinct_ids (snd (DestroySubscription sub s)).
Proof.
  intros Hd. unfold DestroySubscription, bind, get.
  destruct (objs s !! sub) as [o|]; [|done].
  simpl. intros name q Hname. apply (Hd name). unfold queue_of in *. simpl in Hname.
  destruct (decide (name = Name o)) as [->|Hne].
  - by rewrite lookup_delete_eq in Hname.
  - by rewrite lookup_delete_ne in Hname.
Qed.

Lemma send_handler_distinct wfail r s :
  registry_wf s → 0 ≤ NextMesgID (topic s) →
  NextMesgID (topic s) + Z.of_nat (length (Form_index r "message"))
  < uint64_modulus →
  distinct_ids s → distinct_ids (snd (send_handler wfail r s)).
Proof.
  intros Hwf Hc Hlen Hd.
  destruct (decide (Method r = MethodPost)) as [Hpost|Hpost].
  2:{ unfold send_handler. by rewrite bool_decide_false. }
  destruct (PutMessages_write_spec wfail (NextMesgID (topic s))
              (Form_index r "message") 0 (files s))
    as (ok & fs' & Hwrite & _).
  destruct (send_handler_run wfail r s ok fs' Hwf Hpost Hwrite)
    as (s1 & Hrun & _ & Ht & _ & Hq & _).
  rewrite Hrun. simpl.
  assert (E : uint64 (NextMesgID (topic s)
                      + uint64 (Z.of_nat (length (Form_index r "message"))))
              = NextMesgID (topic s)
                + Z.of_nat (length (Form_index r "message"))).
  { rewrite uint64_add. apply Z.mod_small. lia. }
  rewrite E in Ht, Hq.
  intros name q Hname. rewrite Ht. simpl. rewrite Hq in Hname.
  destruct ok.
  - destruct (queue_of s name) as [q0|] eqn:Hq0; [|done]. simpl in Hname.
    injection Hname as <-.
    replace (Z.to_nat (NextMesgID (topic s)
               + Z.of_nat (length (Form_index r "message"))
               - NextMesgID (topic s)))
      with (length (Form_index r "message")) by lia.
    destruct (PutMessages_push_ok (length (Form_index r "message"))
                (NextMesgID (topic s)) q0) as (q' & -> & Hperm).
    simpl. destruct (Hd _ _ Hq0) as [Hnd Hall]. rewrite Hperm. split.
    + apply NoDup_app. split; [|split; [|done]].
      * apply NoDup_fmap_2; [intros x y ?; lia|apply NoDup_seq].
      * intros id Hid Hold. apply list_elem_of_fmap in Hid as (j & -> & _).
        rewrite Forall_forall in Hall. apply Hall in Hold. lia.
    + apply Forall_app. split.
      * apply Forall_fmap, Forall_forall. intros j Hj.
        apply elem_of_seq in Hj. simpl. lia.
      * eapply Forall_impl; [exact Hall|]. simpl. intros; lia.
  - destruct (Hd _ _ Hname) as [Hnd Hall]. split; [done|].
    eapply Forall_impl; [exact Hall|]. simpl. intros; lia.
Qed.

Lemma serve_distinct wfail r s :
  registry_wf s → 0 ≤ NextMesgID (topic s) →
  (Path r = "/send" →
   NextMesgID (topic s) + Z.of_nat (length (Form_index r "message"))
   < uint64_modulus) →
  distinct_ids s → distinct_ids (snd (serve wfail r s)).
Proof.
  intros Hwf Hc Hsend Hd.
  pose proof (GetSubscription_distinct r s Hwf Hd) as H1.
  pose proof (GetSubscription_wf r s Hwf) as Hwf1.
  unfold serve.
  destruct (decide (Path r = "/send")) as [Hp|Hp1];
    [rewrite (bool_decide_true _ Hp)|rewrite (bool_decide_false _ Hp1)].
  { apply send_handler_distinct; auto. }
  destruct (bool_decide (Path r = "/unsub")).
  { unfold unsub_handler.
    destruct (negb (bool_decide (Method r = MethodPost))); [done|].
    unfold bind at 1.
    destruct (GetSubscription r s) as [[[sub|]| |] s1]; simpl in H1 |- *;
      try done.
    pose proof (DestroySubscription_distinct sub s1 H1) as H2. unfold bind.
    by destruct (DestroySubscription sub s1) as [[[]| |] s2]. }
  destruct (bool_decide (Path r = "/pull")).
  { by rewrite pull_handler_state. }
  destruct (bool_decide (Path r = "/ack")); [|done].
  unfold ack_handler.
  destruct (negb (bool_decide (Method r = MethodPost))); [done|].
  unfold bind at 1.
  destruct (GetSubscription r s) as [[[sub|]| |] s1]; simpl in H1, Hwf1 |- *;
    try done.
  destruct (ack_parse (Form_index r "id") []) as [ids|]; [|done].
  assert (H2 : distinct_ids (snd (on_sub sub (AckMessages ids) s1))).
  { apply on_sub_distinct; [done| |done]. intros q.
    destruct (AckMessages_removes_only_input ids q)
      as (q' & removed & -> & Hperm & _).
    by exists removed. }
  unfold bind.
  by destruct (on_sub sub (AckMessages ids) s1) as [[[]| |] s2].
Qed.

Lemma serve_all_distinct rs : ∀ s,
  no_wrap rs s → registry_wf s → 0 ≤ NextMesgID (topic s) →
  distinct_ids s → distinct_ids (snd (serve_all rs s)).
Proof.
  induction rs as [|[wfail r] rest IH]; intros s Hwrap Hwf Hc Hd; [exact Hd|].
  simpl in Hwrap |- *. destruct Hwrap as [Hsend Hwrap].
  pose proof (serve_distinct wfail r s Hwf Hc Hsend Hd) as H1.
  pose proof (serve_wf wfail r s Hwf) as H2.
  pose proof (serve_counter wfail r s Hc) as H3.
  destruct (serve wfail r s) as [o s1]. simpl in *.
  specialize (IH s1 Hwrap H2 H3 H1). by destruct (serve_all rest s1).
Qed.

(** X20: as long as the counter has not passed 2^64 - 1, the ids of every
    registered queue are distinct and below the counter, and the count
    [n_messages] of a pull is the smaller of the count asked for and the
    length of the queue. *)
Theorem queues_hold_distinct_ids (fs : gmap Z string)
    (rs : list (list Z * Request)) (name : string) (q : MessageQueue) :
  let s := snd (serve_all rs (initial fs)) in
  no_wrap rs (initial fs) →
  queue_of s name = Some q →
  NoDup q ∧ Forall (λ id, 0 ≤ id < NextMesgID (topic s)) q ∧
  ∀ r n,
    Form_Get r "sub" = name → validSubRegexp_MatchString name = true →
    Atoi (Form_Get r "n") = Some n → 0 ≤ n →
    ∃ j, fst (pull_handler r s)
         = Ok {| status := StatusOK; body := Some j |} ∧
         NMessage j = Z.min n (Z.of_nat (length q)).
Proof.
  intros s Hwrap Hq.
  assert (Hd : distinct_ids s).
  { apply serve_all_distinct; [done|apply initial_wf|by simpl|].
    intros name' q'. unfold queue_of. simpl. by rewrite lookup_empty. }
  destruct (Hd _ _ Hq) as [Hnd Hall]. split; [exact Hnd|].
  split; [exact Hall|]. intros r n <- Hv Hn Hpos.
  destruct (reachable_inv fs rs) as (Hwf & _ & Hst).
  destruct (pull_handler_stored r s n Hwf Hst Hv Hn Hpos)
    as (j & Hrun & Hdom & Hsize & _).
  exists j. split; [exact Hrun|]. rewrite Hq in Hdom. simpl in Hdom.
  rewrite Hsize, <- size_dom, Hdom, size_list_to_set.
  - rewrite length_take. lia.
  - eapply sublist_NoDup; [exact Hnd|apply sublist_take].
Qed.

Lemma queues_hold_distinct_ids_witness :
  let s := snd (serve_all nine_messages_three_acks (initial ∅)) in
  NextMesgID (topic s) = 9 ∧
  NoDup [1; 6; 2; 7; 8; 5] ∧
  Forall (λ id, 0 ≤ id < NextMesgID (topic s)) [1; 6; 2; 7; 8; 5].
Proof.
  intros s. split; [vm_compute; reflexivity|].
  destruct (queues_hold_distinct_ids ∅ nine_messages_three_acks "sub0"
              [1; 6; 2; 7; 8; 5]) as (Hnd & Hall & _).
  - vm_compute. repeat split; intros; done.
  - vm_compute. reflexivity.
  - by split.
Defined.

(** ** What the registry holds *)

Lemma subs_kept_valid {A} (m : M State A) :
  (∀ s, subs (snd (m s)) = subs s) → preserves names_valid m.
Proof. intros Hm s Hs name sub. rewrite Hm. apply Hs. Qed.

Lemma on_sub_valid {A} sub (m : M MessageQueue A) :
  preserves names_valid (on_sub sub m).
Proof.
  apply subs_kept_valid. intros s. unfold on_sub.
  destruct (objs s !! sub); [|done]. by destruct (m _).
Qed.

Lemma GetSubscription_valid r : preserves names_valid (GetSubscription r).
Proof.
  intros s Hs.
  destruct (GetSubscription_cases r s)
    as [[_ ->]|[(_ & sub & _ & ->)|(Hv & _ & ->)]]; try done.
  intros name sub. simpl. intros Hsub.
  apply lookup_insert_Some in Hsub as [[<- _]|[_ Hsub]]; [done|].
  by eapply Hs.
Qed.

Lemma DestroySubscription_valid sub :
  preserves names_valid (DestroySubscription sub).
Proof.
  intros s Hs. unfold DestroySubscription, bind, get.
  destruct (objs s !! sub) as [o|]; [|done].
  intros name sub'. simpl. intros Hsub.
  apply lookup_delete_Some in Hsub as [_ Hsub]. by eapply Hs.
Qed.

Lemma PutMessages_range_valid targets baseID bound :
  preserves names_valid (PutMessages_range targets baseID bound).
Proof.
  induction targets as [|[name sub] rest IH]; simpl; [auto with preserves|].
  apply preserves_bind; [apply on_sub_valid|by intros _].
Qed.

Lemma serve_valid wfail r : preserves names_valid (serve wfail r).
Proof.
  unfold serve, send_handler, unsub_handler, pull_handler, ack_handler,
    respond, GetMessages, PutMessages.
  repeat first
    [ progress auto with preserves
    | apply GetSubscription_valid | apply DestroySubscription_valid
    | apply on_sub_valid | apply PutMessages_range_valid
    | apply preserves_if
    | apply preserves_bind; [|intros ?]
    | match goal with
      | |- preserves _ (match ?x with _ => _ end) => destruct x
      | |- preserves _ (on_topic _) =>
          apply subs_kept_valid; intros s'; unfold on_topic;
          by destruct (CreateMessageIds _ (topic s'))
      | |- preserves _ (on_files _) =>
          apply subs_kept_valid; intros s'; unfold on_files;
          by destruct (PutMessages_write _ _ _ _ (files s'))
      end ].
Qed.

Lemma serve_all_valid rs : ∀ s,
  names_valid s → names_valid (snd (serve_all rs s)).
Proof.
  induction rs as [|[wfail r] rest IH]; intros s0 Hs; [exact Hs|].
  simpl. pose proof (serve_valid wfail r s0 Hs) as H1.
  destruct (serve wfail r s0) as [o s1]. simpl in H1.
  specialize (IH s1 H1). by destruct (serve_all rest s1).
Qed.

(** X21: in every state the server can be in, a registered name matches
    [validSubRegexp], the object registered under it carries that name, and
    no other name is registered with the same object. *)
Theorem registered_names (fs : gmap Z string) (rs : list (list Z * Request))
    (name : string) (sub : loc) :
  let s := snd (serve_all rs (initial fs)) in
  subs s !! name = Some sub →
  validSubRegexp_MatchString name = true ∧
  (∃ o, objs s !! sub = Some o ∧ Name o = name) ∧
  ∀ name', subs s !! name' = Some sub → name' = name.
Proof.
  intros s Hsub.
  pose proof (serve_all_wf rs _ (initial_wf fs)) as Hwf. fold s in Hwf.
  split; [|split; [by apply Hwf|]].
  - apply (serve_all_valid rs (initial fs)) with sub; [|exact Hsub].
    intros name0 sub0 H. simpl in H. by rewrite lookup_empty in H.
  - intros name' Hsub'.
    destruct (Hwf _ _ Hsub) as (o & Ho & Hn).
    destruct (Hwf _ _ Hsub') as (o' & Ho' & Hn'). congruence.
Qed.

Lemma registered_names_witness :
  let s := snd (serve_all four_messages_one_ack (initial ∅)) in
  subs s !! "sub0" = Some 0%nat ∧
  ∀ name', subs s !! name' = Some 0%nat → name' = "sub0".
Proof.
  intros s.
  assert (Hsub : subs s !! "sub0" = Some 0%nat) by (vm_compute; reflexivity).
  split; [exact Hsub|].
  by destruct (registered_names ∅ four_messages_one_ack "sub0" 0%nat Hsub)
    as (_ & _ & H).
Defined.

(** ** The registry mutex is released *)

Module ConcurrentMore.
Import Concurrent ConcurrentFacts.





(** The race of two goroutines for the name [sub0], step by step: the first
    goroutine runs [GetSubscription] alone from its entry. *)
Lemma solo_GetSubscription_witness :
  ∃ c, run (take 2 race_schedule) (start 2 ∅) = Some c ∧
       ∃ k c' got,
         run (replicate k (0%nat, Next)) c = Some c' ∧
         goroutines c' !! 0%nat = Some (Got "sub0" got) ∧
         GetSubscription (snd (do_pull "sub0" "0")) (state c)
         = (Ok got, state c').
Proof.
  destruct (run (take 2 race_schedule) (start 2 ∅)) as [c|] eqn:Hrun;
    [|vm_compute in Hrun; discriminate Hrun].
  assert (Hc : (λ c, (goroutines c !! 0%nat, subsMu c))
                 <$> run (take 2 race_schedule) (start 2 ∅)
               = Some (Some (Get_entry (snd (do_pull "sub0" "0"))), false))
    by (vm_compute; reflexivity).
  rewrite Hrun in Hc. injection Hc as Ht Hmu.
  exists c. split; [reflexivity|].
  destruct (solo_GetSubscription c 0%nat (snd (do_pull "sub0" "0")) Ht Hmu)
    as (k & c' & got & Hsteps & Hgot & _ & Hseq).
  by exists k, c', got.
Defined.

End ConcurrentMore.

(** ** The ids of an acknowledgement *)

Lemma parse_digits_nonneg (s : string) : ∀ acc v : Z,
  0 ≤ acc → parse_digits acc s = Some v → 0 ≤ v.
Proof.
  induction s as [|c rest IH]; simpl; intros acc v Hacc H.
  { injection H as <-. exact Hacc. }
  destruct (is_digit c) eqn:Hd; [|done]. eapply IH; [|exact H].
  unfold is_digit, ascii_between in Hd.
  apply andb_true_iff in Hd as [H1 _]. apply Nat.leb_le in H1. lia.
Qed.

Lemma ParseUint_range (s : string) (v : Z) :
  ParseUint s = Some v → 0 ≤ v < uint64_modulus.
Proof.
  unfold ParseUint. destruct s as [|c rest]; [done|].
  destruct (parse_digits 0 (String c rest)) as [v'|] eqn:Hp; [|done].
  case_bool_decide as Hlt; [|done]. intros H. injection H as <-.
  split; [|exact Hlt]. by eapply parse_digits_nonneg; [|exact Hp].
Qed.

Lemma ack_parse_spec (strs : list string) : ∀ acc ids : list Z,
  ack_parse strs acc = Some ids ↔
  ∃ parsed, Forall2 (λ s id, ParseUint s = Some id) strs parsed ∧
            ids = acc ++ parsed.
Proof.
  induction strs as [|s rest IH]; intros acc ids; simpl.
  - split.
    + intros H. injection H as <-. exists []. split; [constructor|].
      by rewrite app_nil_r.
    + intros (parsed & Hall & ->). apply Forall2_nil_inv_l in Hall as ->.
      by rewrite app_nil_r.
  - destruct (ParseUint s) as [id|] eqn:Hs.
    + rewrite IH. pose proof (ParseUint_range s id Hs) as Hrange.
      assert (E : uint64 id = id) by (by apply Z.mod_small). rewrite E.
      split.
      * intros (parsed & Hall & ->). exists (id :: parsed).
        split; [by constructor|]. by rewrite <- app_assoc.
      * intros (parsed & Hall & ->).
        apply Forall2_cons_inv_l in Hall as (id' & parsed' & Hid & Hall & ->).
        exists parsed'. split; [done|]. rewrite <- app_assoc. simpl.
        congruence.
    + split; [done|]. intros (parsed & Hall & _).
      apply Forall2_cons_inv_l in Hall as (id' & parsed' & Hid & _).
      congruence.
Qed.

(** X25: the loop of the ack handler over the [id] fields hands
    [AckMessages] exactly the values [ParseUint] reads, one for each field
    and in the order of the fields (the conversion to [uint64] changes
    nothing); one field that does not parse and the handler returns before
    it has acknowledged anything. *)
Theorem ack_parse_reads_all (strs : list string) (ids : list Z) :
  (ack_parse strs [] = Some ids ↔
   Forall2 (λ s id, ParseUint s = Some id) strs ids) ∧
  (ack_parse strs [] = None ↔ Exists (λ s, ParseUint s = None) strs).
Proof.
  split.
  - rewrite ack_parse_spec. split.
    + by intros (parsed & Hall & ->).
    + intros Hall. by exists ids.
  - clear ids. generalize (@nil Z).
    induction strs as [|s rest IH]; intros acc; simpl.
    + split; [done|]. intros H. by apply Exists_nil in H.
    + rewrite Exists_cons. destruct (ParseUint s) as [id|] eqn:Hs.
      * rewrite IH. split; [by right|]. by intros [?|?].
      * split; [by left|done].
Qed.

(** ** The queues of the registry *)

(** X26: in every state the server can be in, every registered queue is in
    heap order (no slot is below its parent) and every id in it has its
    message file. *)
Theorem queue_invariants (fs : gmap Z string) (rs : list (list Z * Request))
    (name : string) (q : MessageQueue) :
  let s := snd (serve_all rs (initial fs)) in
  queue_of s name = Some q →
  is_heap q ∧ Forall (λ id, is_Some (files s !! id)) q.
Proof.
  intros s Hq. destruct (reachable_inv fs rs) as (_ & Hheaps & _ & Hst).
  fold s in Hheaps, Hst. unfold queue_of in Hq.
  destruct (subs s !! name) as [sub|]; [|done]. simpl in Hq.
  destruct (objs s !! sub) as [o|] eqn:Ho; [|done]. simpl in Hq.
  injection Hq as <-. split; [by eapply Hheaps|by eapply Hst].
Qed.

Lemma queue_invariants_witness :
  let s := snd (serve_all nine_messages_three_acks (initial ∅)) in
  is_heap [1; 6; 2; 7; 8; 5] ∧
  Forall (λ id, is_Some (files s !! id)) [1; 6; 2; 7; 8; 5].
Proof.
  intros s.
  apply (queue_invariants ∅ nine_messages_three_acks "sub0"
           [1; 6; 2; 7; 8; 5]).
  vm_compute. reflexivity.
Defined.

(** ** No message is lost before it is acknowledged *)



